(** * Conditional regression tree: growth, split selection and persistence

    A shallow embedding of [Tree.hpp] (class [Tree<Sample>]) and of
    [Constants.hpp] (struct [ForestParam]).

    - C++ [int] values are integers in [Z]; signed overflow and an
      out-of-range float-to-int conversion are undefined behaviour and
      show up as [Fault].
    - [float] and [double] values are IEEE-754 binary32 / binary64
      numbers ([spec_float] with precision 24 / 53), rounded to nearest
      even as on SSE targets.
    - The tree object and its environment (file system, tick counter)
      are threaded explicitly; a [TreeNode*] into the owned node graph is
      a node together with the context that rebuilds the root from it.
    - The template parameter [Sample], the split generator, the random
      generator and the leaf payload are collaborators of the tree and
      enter as a type class. *)

From stdpp Require Import gmap strings list sorting.
From Stdlib Require Import ZArith Lia Floats.SpecFloat.
Local Open Scope Z_scope.

(** ** Outcomes of a computation *)

(** [Fault] stands for undefined behaviour or an exception that leaves the
    function; [OutOfFuel] only says that the recursion bound handed to the
    model was too small. *)
Inductive result (A : Type) : Type :=
| Ok (a : A)
| Fault
| OutOfFuel.
Arguments Ok {A} a.
Arguments Fault {A}.
Arguments OutOfFuel {A}.

#[global] Instance result_ret : MRet result := λ A a, Ok a.
#[global] Instance result_bind : MBind result := λ A B k r,
  match r with
  | Ok a => k a
  | Fault => Fault
  | OutOfFuel => OutOfFuel
  end.

(** The exceptions that [Tree::load] tells apart: the two it catches and
    any other one. *)
Inductive exn : Type :=
| archive_exception
| int_exception (ex : Z)
| other_exception.

(** Reading from an archive: a value, or a thrown exception. *)
Inductive outcome (A : Type) : Type :=
| Done (a : A)
| Throw (e : exn).
Arguments Done {A} a.
Arguments Throw {A} e.

#[global] Instance outcome_ret : MRet outcome := λ A a, Done a.
#[global] Instance outcome_bind : MBind outcome := λ A B k r,
  match r with
  | Done a => k a
  | Throw e => Throw e
  end.

(** The computation returns, and its result satisfies [P]. *)
Definition returns {A : Type} (r : result A) (P : A → Prop) : Prop :=
  match r with
  | Ok a => P a
  | Fault | OutOfFuel => False
  end.

(** ** Machine integers *)

Definition INT_MIN : Z := - 2 ^ 31.
Definition INT_MAX : Z := 2 ^ 31 - 1.

Definition in_int (z : Z) : bool := (INT_MIN <=? z) && (z <=? INT_MAX).

(** The value of an [int] expression whose mathematical result is [z]. *)
Definition int_check (z : Z) : result Z := if in_int z then Ok z else Fault.

(** [static_cast<int>(v.size())]: reduction modulo 2^32 into the signed range. *)
Definition int_of_size (n : nat) : Z :=
  let r := Z.of_nat n mod 2 ^ 32 in
  if r <? 2 ^ 31 then r else r - 2 ^ 32.

(** ** Single and double precision *)

Definition f32_of_int (z : Z) : spec_float := binary_normalize 24 128 z 0 false.
Definition f64_of_int (z : Z) : spec_float := binary_normalize 53 1024 z 0 false.

(** [powf(2.0f, e)] for an [int] exponent [e]: the power of two itself when it
    is representable, infinity above the range and zero below it. *)
Definition powf2 (e : Z) : spec_float := binary_normalize 24 128 1 e false.

(** Truncation toward zero of a finite number. *)
Definition trunc_Z (f : spec_float) : option Z :=
  match f with
  | S754_zero _ => Some 0
  | S754_finite s m e =>
      Some (cond_Zopp s (if 0 <=? e then Zpos m * 2 ^ e else Zpos m / 2 ^ (- e)))
  | S754_infinity _ | S754_nan => None
  end.

(** [static_cast<int>(f)]. *)
Definition int_of_float (f : spec_float) : result Z :=
  match trunc_Z f with
  | Some z => int_check z
  | None => Fault
  end.

(** [round(f)]: nearest integer, halfway cases away from zero. *)
Definition round_Z (f : spec_float) : option Z :=
  match f with
  | S754_zero _ => Some 0
  | S754_finite s m e =>
      Some (cond_Zopp s
              (if 0 <=? e then Zpos m * 2 ^ e
               else (Zpos m + 2 ^ (- e - 1)) / 2 ^ (- e)))
  | S754_infinity _ | S754_nan => None
  end.

(** The [float] expression [powf(2.0f, e) - 1]. *)
Definition pow2m1 (e : Z) : spec_float := SFsub 24 128 (powf2 e) (f32_of_int 1).

(** [i += x] for an [int i] and a [float x]: the sum is formed in [float]
    and converted back. *)
Definition add_assign_float (i : Z) (x : spec_float) : result Z :=
  int_of_float (SFadd 24 128 (f32_of_int i) x).

(** [boost::numeric::bounds<double>::lowest()] and [highest()]. *)
Definition lowest : spec_float := S754_finite true (2 ^ 53 - 1) 971.
Definition highest : spec_float := S754_finite false (2 ^ 53 - 1) 971.

(** [v] shifted left by [n] bits. *)
Fixpoint shl_nat (v : positive) (n : nat) : positive :=
  match n with
  | O => v
  | S n' => xO (shl_nat v n')
  end.

(** The binary32 number of value [v], for [v] below [2^24]: the mantissa is
    filled up to 24 bits. *)
Definition canon32 (v : positive) : spec_float :=
  S754_finite false (shl_nat v (Z.to_nat (24 - Zpos (digits2_pos v))))
    (Zpos (digits2_pos v) - 24).

(** ** Constants.hpp: the forest parameters *)

Record ForestParam : Type := mkForestParam {
  max_depth : Z;
  min_patches : Z;
  ntests : Z;
  ntrees : Z;
  nimages : Z;
  npatches : Z;
  face_size : Z;
  patch_size_ratio : spec_float;
  tree_path : string;
  image_path : string;
  features : list Z
}.

(** [static_cast<int>(round(face_size*patch_size_ratio))] *)
Definition getPatchSize (p : ForestParam) : result Z :=
  match round_Z (SFmul 24 128 (f32_of_int (face_size p)) (patch_size_ratio p)) with
  | Some z => int_check z
  | None => Fault
  end.

(** ** Split descriptors and collaborators *)

(** Modelled from the spec: the type [Sample::Split] is declared outside the
    two source files. The spec gives a split descriptor the four fields
    [threshold], [margin], [info] and [oob]; [info] and [oob] are compared
    with and assigned from [double] bounds in [findOptimalSplit]. *)
Record Split : Type := mkSplit {
  threshold : Z;
  margin : Z;
  info : spec_float;
  oob : spec_float
}.

Definition set_info_oob (s : Split) (i o : spec_float) : Split :=
  mkSplit (threshold s) (margin s) i o.

(** One element of a serialized archive. *)
Inductive item : Type :=
| IInt (z : Z)
| IFloat (f : spec_float)
| IDouble (f : spec_float)
| IString (s : string)
| INull
| IObject.

(** [std::pair<int, unsigned int>]: a test value and the position of its sample. *)
Definition IntIndex : Type := (Z * nat)%type.

(** The template parameter [Sample] with its nested types, the split
    generator [SplitGen<Sample>], the random generator and the archive
    format of a leaf payload. *)
Class Collaborators : Type := {
  Sample : Type;
  Leaf : Type;
  (** state of the [boost::mt19937] behind [m_rng] *)
  Rng : Type;
  (** [Split()] *)
  default_split : Split;
  (** [sample->evalTest(split)] *)
  evalTest : Sample → Split → Z;
  (** [Sample::makeLeaf], reached through [node->createLeaf(samples)] *)
  makeLeaf : list Sample → Leaf;
  (** one draw of [boost::uniform_int<>(lo, hi)] from the generator *)
  uniform_int : Z → Z → Rng → Z * Rng;
  (** [SplitGen(samples, splits, rng, patch_size, depth, split_mode).generate()]:
      the candidate vector after generation and the generator state *)
  generate : list Sample → list Split → Rng → Z → Z → Z → list Split * Rng;
  (** [SplitGen::splitSamples(samples, val_set, sets, threshold, margin)]:
      the two subsets [sets[0]] and [sets[1]] *)
  splitSamples : list Sample → list IntIndex → Z → Z → list Sample * list Sample;
  (** archive format of [Sample::Leaf] *)
  save_leaf : Leaf → list item;
  load_leaf : list item → outcome (Leaf * list item)
}.

(** Range of the library distribution [boost::uniform_int<>(lo, hi)]. *)
Class UniformIntContract `{Collaborators} : Prop := {
  uniform_int_range : ∀ lo hi g,
    lo <= hi → lo <= (uniform_int lo hi g).1 <= hi
}.


(** The archive reads back a leaf payload it has written. *)
Class LeafArchiveContract `{Collaborators} : Prop := {
  load_save_leaf : ∀ lf rest, load_leaf (save_leaf lf ++ rest) = Done (lf, rest)
}.

(** ** The environment of a tree: files and the tick counter *)

Record World : Type := mkWorld {
  (** content of the readable files *)
  files : gmap string (list item);
  (** paths that cannot be opened for writing *)
  locked : gset string;
  (** successive readings of [cv::getTickCount()] *)
  tick_source : nat → Z;
  tick_reads : nat;
  (** [cv::getTickFrequency()] *)
  tick_frequency : spec_float
}.

Definition getTickCount (w : World) : Z * World :=
  (tick_source w (tick_reads w),
   mkWorld (files w) (locked w) (tick_source w) (S (tick_reads w)) (tick_frequency w)).

Definition write_file (path : string) (content : list item) (w : World) : World :=
  mkWorld (<[path := content]> (files w)) (locked w)
          (tick_source w) (tick_reads w) (tick_frequency w).

(** ** Archive format of the parameters *)

Definition save_param (p : ForestParam) : list item :=
  [IInt (max_depth p); IInt (min_patches p); IInt (ntests p); IInt (ntrees p);
   IInt (nimages p); IInt (npatches p); IInt (face_size p);
   IFloat (patch_size_ratio p); IString (tree_path p); IString (image_path p);
   IInt (Z.of_nat (length (features p)))] ++ (IInt <$> features p).

(** Reading a primitive: an item of another kind, or the end of the
    stream, makes the archive throw [archive_exception]. *)
Definition load_int (l : list item) : outcome (Z * list item) :=
  match l with
  | IInt z :: r => Done (z, r)
  | _ => Throw archive_exception
  end.

Definition load_float (l : list item) : outcome (spec_float * list item) :=
  match l with
  | IFloat f :: r => Done (f, r)
  | _ => Throw archive_exception
  end.

Definition load_string (l : list item) : outcome (string * list item) :=
  match l with
  | IString s :: r => Done (s, r)
  | _ => Throw archive_exception
  end.

Fixpoint load_ints (n : nat) (l : list item) : outcome (list Z * list item) :=
  match n with
  | O => Done ([], l)
  | S n' =>
      '(z, r) ← load_int l;
      '(zs, r') ← load_ints n' r;
      Done (z :: zs, r')
  end.

(** [std::vector<int>]: the element count, then the elements. *)
Definition load_int_vector (l : list item) : outcome (list Z * list item) :=
  '(count, r) ← load_int l;
  if count <? 0 then Throw archive_exception else load_ints (Z.to_nat count) r.

(** [ForestParam::serialize], reading. *)
Definition load_param (l : list item) : outcome (ForestParam * list item) :=
  '(a, l) ← load_int l;
  '(b, l) ← load_int l;
  '(c, l) ← load_int l;
  '(d, l) ← load_int l;
  '(e, l) ← load_int l;
  '(f, l) ← load_int l;
  '(g, l) ← load_int l;
  '(h, l) ← load_float l;
  '(i, l) ← load_string l;
  '(j, l) ← load_string l;
  '(k, l) ← load_int_vector l;
  Done (mkForestParam a b c d e f g h i j k, l).

Section Tree.
Context `{Collaborators}.

(** ** Tree nodes *)

(** Modelled from the spec: [TreeNode.hpp] is not among the source files.
    A node has a fixed depth and is unresolved, a leaf holding a payload, or
    internal, holding a split descriptor and its two owned children. *)
Inductive TreeNode : Type :=
| Unresolved (depth : Z)
| LeafNode (depth : Z) (payload : Leaf)
| Internal (depth : Z) (split : Split) (lchild rchild : TreeNode).

(** Modelled from the spec: the depth accessor of a node. *)
Definition getDepth (n : TreeNode) : Z :=
  match n with
  | Unresolved d | LeafNode d _ | Internal d _ _ _ => d
  end.

(** Modelled from the spec: the leaf state query of a node. *)
Definition isLeaf (n : TreeNode) : bool :=
  match n with
  | LeafNode _ _ => true
  | _ => false
  end.

(** Modelled from the spec: the internal state query of a node. *)
Definition hasSplit (n : TreeNode) : bool :=
  match n with
  | Internal _ _ _ _ => true
  | _ => false
  end.

(** Modelled from the spec: [node->createLeaf(samples)] turns the node into
    a leaf whose payload summarises the samples. *)
Definition createLeaf (n : TreeNode) (samples : list Sample) : TreeNode :=
  LeafNode (getDepth n) (makeLeaf samples).

(** Modelled from the spec: [node->setSplit(s)] followed by the attachment
    of two fresh children [new TreeNode(depth+1)] makes the node internal. *)
Definition setSplit_with_children (n : TreeNode) (s : Split) : TreeNode :=
  Internal (getDepth n) s (Unresolved (getDepth n + 1)) (Unresolved (getDepth n + 1)).

(** Modelled from the spec: the persisted form of a node is its depth, its
    state tag, the split fields and the children, recursively. *)
Fixpoint save_node (n : TreeNode) : list item :=
  match n with
  | Unresolved d => [IInt d; IInt 0]
  | LeafNode d lf => [IInt d; IInt 1] ++ save_leaf lf
  | Internal d s l r =>
      [IInt d; IInt 2; IInt (threshold s); IInt (margin s);
       IDouble (info s); IDouble (oob s)]
      ++ (IObject :: save_node l) ++ (IObject :: save_node r)
  end.

(** Modelled from the spec: reading a node back from its persisted form.
    [fuel] bounds the nesting of children. *)
Fixpoint load_node (fuel : nat) (l : list item) : outcome (TreeNode * list item) :=
  match fuel with
  | O => Throw archive_exception
  | S fuel' =>
      match l with
      | IInt d :: IInt 0 :: r => Done (Unresolved d, r)
      | IInt d :: IInt 1 :: r =>
          '(lf, r') ← load_leaf r;
          Done (LeafNode d lf, r')
      | IInt d :: IInt 2 :: IInt th :: IInt mg :: IDouble i :: IDouble o
          :: IObject :: r =>
          '(a, r1) ← load_node fuel' r;
          match r1 with
          | IObject :: r2 =>
              '(b, r3) ← load_node fuel' r2;
              Done (Internal d (mkSplit th mg i o) a b, r3)
          | _ => Throw archive_exception
          end
      | _ => Throw archive_exception
      end
  end.

(** A [TreeNode*]: the null pointer or an owned node. *)
Definition save_node_ptr (o : option TreeNode) : list item :=
  match o with
  | None => [INull]
  | Some n => IObject :: save_node n
  end.

Definition load_node_ptr (l : list item) : outcome (option TreeNode * list item) :=
  match l with
  | INull :: r => Done (None, r)
  | IObject :: r =>
      '(n, r') ← load_node (length r) r;
      Done (Some n, r')
  | _ => Throw archive_exception
  end.

(** ** The tree object *)

Record Tree : Type := mkTree {
  m_rng : Rng;
  m_ticks : spec_float;
  m_num_nodes : Z;
  i_node : Z;
  i_leaf : Z;
  m_param : ForestParam;
  m_save_path : string;
  root : option TreeNode
}.

Definition set_m_rng (g : Rng) (t : Tree) : Tree :=
  mkTree g (m_ticks t) (m_num_nodes t) (i_node t) (i_leaf t)
         (m_param t) (m_save_path t) (root t).

Definition set_m_ticks (k : spec_float) (t : Tree) : Tree :=
  mkTree (m_rng t) k (m_num_nodes t) (i_node t) (i_leaf t)
         (m_param t) (m_save_path t) (root t).

Definition set_i_node (i : Z) (t : Tree) : Tree :=
  mkTree (m_rng t) (m_ticks t) (m_num_nodes t) i (i_leaf t)
         (m_param t) (m_save_path t) (root t).

Definition set_i_leaf (i : Z) (t : Tree) : Tree :=
  mkTree (m_rng t) (m_ticks t) (m_num_nodes t) (i_node t) i
         (m_param t) (m_save_path t) (root t).

Definition set_root (r : option TreeNode) (t : Tree) : Tree :=
  mkTree (m_rng t) (m_ticks t) (m_num_nodes t) (i_node t) (i_leaf t)
         (m_param t) (m_save_path t) r.

(** [Tree::isFinished] *)
Definition isFinished (t : Tree) : bool :=
  if m_num_nodes t =? 0 then false else i_node t =? m_num_nodes t.

(** [Tree::serialize], writing: [m_num_nodes], [i_node], [m_param],
    [m_save_path], [root]. *)
Definition serialize_out (t : Tree) : list item :=
  [IInt (m_num_nodes t); IInt (i_node t)] ++ save_param (m_param t)
  ++ [IString (m_save_path t)] ++ save_node_ptr (root t).

(** [Tree::serialize], reading into the object [t0]; the members that
    [serialize] does not list keep what [t0] holds. *)
Definition serialize_in (t0 : Tree) (l : list item) : outcome Tree :=
  '(n, l) ← load_int l;
  '(i, l) ← load_int l;
  '(p, l) ← load_param l;
  '(s, l) ← load_string l;
  '(r, l) ← load_node_ptr l;
  Done (mkTree (m_rng t0) (m_ticks t0) n i (i_leaf t0) p s r).

(** [Tree::save]: a stream that cannot be opened makes the archive throw,
    the exception is caught and the file system stays as it is. *)
Definition save (t : Tree) (w : World) : World :=
  if decide (m_save_path t ∈ locked w) then w
  else write_file (m_save_path t) (serialize_out t) w.

(** [Tree::load]. The argument [fresh] is the object made by [new Tree()],
    whose members the default constructor leaves unset. The result is the
    returned flag and the tree stored through the out-parameter, if any.
    [archive_exception] and [int] are caught; any other exception leaves
    the function. *)
Definition load (fresh : Tree) (path : string) (w : World)
    : result (bool * option Tree) :=
  match files w !! path with
  | None => Ok (false, None)
  | Some content =>
      match serialize_in fresh content with
      | Done t => Ok (true, Some t)
      | Throw archive_exception => Ok (false, None)
      | Throw (int_exception _) => Ok (false, None)
      | Throw other_exception => Fault
      end
  end.

(** ** Split selection *)

(** One round of the selection loop: [if (splits[i].info > best.info) best = splits[i]]. *)
Definition better (best s : Split) : Split :=
  if SFltb (info best) (info s) then s else best.

Definition select_best (splits : list Split) (best : Split) : Split :=
  fold_left better splits best.

(** First half of [Tree::findOptimalSplit] (lines 269-275): the candidate
    vector, the split mode drawn from [m_rng] and the generation.
    [std::vector<Split> splits(ntests)] throws for a negative [ntests]. *)
Definition generate_candidates (samples : list Sample) (depth : Z) (t : Tree)
    : result (list Split * Rng) :=
  if ntests (m_param t) <? 0 then Fault
  else
    let splits := replicate (Z.to_nat (ntests (m_param t))) default_split in
    let '(split_mode, g1) := uniform_int 0 100 (m_rng t) in
    patch_size ← getPatchSize (m_param t);
    Ok (generate samples splits g1 patch_size depth split_mode).

(** [Tree::findOptimalSplit]: the returned flag, [best_split] and the tree,
    whose generator has advanced. *)
Definition findOptimalSplit (samples : list Sample) (best_split : Split)
    (depth : Z) (t : Tree) : result (bool * Split * Tree) :=
  '(splits, g2) ← generate_candidates samples depth t;
  let best := select_best splits (set_info_oob best_split lowest highest) in
  Ok (negb (SFeqb (info best) lowest), best, set_m_rng g2 t).

(** ** Routing *)

(** [operator<] of [std::pair], as the non-strict order used for sorting. *)
Definition IntIndex_le (a b : IntIndex) : Prop :=
  a.1 < b.1 ∨ (a.1 = b.1 ∧ (a.2 <= b.2)%nat).

#[global] Instance IntIndex_le_dec : RelDecision IntIndex_le.
Proof. intros a b. unfold IntIndex_le. apply _. Defined.

(** The vector [val_set] after the loop: test value and position of every sample. *)
Definition val_set (samples : list Sample) (s : Split) : list IntIndex :=
  imap (λ i x, (evalTest x s, i)) samples.

(** [std::sort(val_set.begin(), val_set.end())]. The positions are pairwise
    different, so no two elements are equivalent and the sorted vector does
    not depend on the sorting algorithm. *)
Definition sorted_val_set (samples : list Sample) (s : Split) : list IntIndex :=
  merge_sort IntIndex_le (val_set samples s).

(** [Tree::applyOptimalSplit]: the two sets handed back by the split generator. *)
Definition applyOptimalSplit (samples : list Sample) (best_split : Split)
    : list Sample * list Sample :=
  splitSamples samples (sorted_val_set samples best_split)
               (threshold best_split) (margin best_split).

(** ** Checkpoints *)

(** [Tree::saveAuto]: [time = (ticks - m_ticks)/cv::getTickFrequency()],
    saved when [time > 600]. *)
Definition saveAuto (st : Tree * World) : Tree * World :=
  let '(tk, w) := getTickCount st.2 in
  let ticks := f64_of_int tk in
  let time := SFdiv 53 1024 (SFsub 53 1024 ticks (m_ticks st.1)) (tick_frequency w) in
  if SFltb (f64_of_int 600) time
  then let t := set_m_ticks ticks st.1 in (t, save t w)
  else (st.1, w).

(** ** Growth *)

(** The stopping test of [grow]:
    [nelements < min_patches || depth >= max_depth || node->isLeaf()]. *)
Definition must_stop (p : ForestParam) (node : TreeNode) (samples : list Sample) : bool :=
  (int_of_size (length samples) <? min_patches p)
  || (max_depth p <=? getDepth node)
  || isLeaf node.

(** The leaf blocks of [grow] (lines 113-115 and 162-164):
    [node->createLeaf(samples); i_node += powf(2.0f, max_depth-depth) - 1; i_leaf++].
    [ctx] rebuilds the root of the tree from the node. *)
Definition make_leaf (ctx : TreeNode → TreeNode) (node : TreeNode)
    (samples : list Sample) (st : Tree * World) : result (TreeNode * (Tree * World)) :=
  let node' := createLeaf node samples in
  e ← int_check (max_depth (m_param st.1) - getDepth node);
  i ← add_assign_float (i_node st.1) (pow2m1 e);
  l ← int_check (i_leaf st.1 + 1);
  Ok (node', (set_root (Some (ctx node')) (set_i_leaf l (set_i_node i st.1)), st.2)).

(** The reload block of [grow] (lines 124-127): the stored split routes the
    current samples, then [i_node++]. *)
Definition resume_split (s : Split) (samples : list Sample) (t : Tree)
    : result (list Sample * list Sample * Tree) :=
  let sets := applyOptimalSplit samples s in
  i ← int_check (i_node t + 1);
  Ok (sets, set_i_node i t).

(** The split block of [grow] (lines 140-151): routing, [setSplit],
    [i_node++], two fresh children [new TreeNode(depth+1)] and [saveAuto]. *)
Definition assign_split (ctx : TreeNode → TreeNode) (node : TreeNode) (best : Split)
    (samples : list Sample) (st : Tree * World)
    : result (list Sample * list Sample * (Tree * World)) :=
  let sets := applyOptimalSplit samples best in
  let node' := setSplit_with_children node best in
  i ← int_check (i_node st.1 + 1);
  Ok (sets, saveAuto (set_root (Some (ctx node')) (set_i_node i st.1), st.2)).

(** [Tree::grow]. The node is given with the context [ctx] that rebuilds the
    root from it, so that a checkpoint taken inside the recursion writes
    the whole tree. The result is the node after growth and the state. *)
Fixpoint grow (fuel : nat) (ctx : TreeNode → TreeNode) (node : TreeNode)
    (samples : list Sample) (st : Tree * World)
    : result (TreeNode * (Tree * World)) :=
  match fuel with
  | O => OutOfFuel
  | S fuel' =>
      if must_stop (m_param st.1) node samples then make_leaf ctx node samples st
      else
        match node with
        | Internal d s l r =>
            '(sets, t) ← resume_split s samples st.1;
            '(l', st1) ← grow fuel' (λ x, ctx (Internal d s x r)) l sets.1 (t, st.2);
            '(r', st2) ← grow fuel' (λ x, ctx (Internal d s l' x)) r sets.2 st1;
            Ok (Internal d s l' r', st2)
        | _ =>
            '(found, best, t) ← findOptimalSplit samples default_split (getDepth node) st.1;
            if (found : bool) then
              '(sets, st0) ← assign_split ctx node best samples (t, st.2);
              let d := getDepth node in
              let l := Unresolved (d + 1) in
              let r := Unresolved (d + 1) in
              '(l', st1) ← grow fuel' (λ x, ctx (Internal d best x r)) l sets.1 st0;
              '(r', st2) ← grow fuel' (λ x, ctx (Internal d best l' x)) r sets.2 st1;
              Ok (Internal d best l' r', st2)
            else make_leaf ctx node samples (t, st.2)
        end
  end.

(** The constructor [Tree(samples, param, rng, save_path)] up to the call of
    [grow]: the members are set and the root is a fresh node of depth 0. *)
Definition construct_init (param : ForestParam) (rng : Rng) (save_path : string)
    (w : World) : result (Tree * World) :=
  n ← int_of_float (pow2m1 (max_depth param));
  let '(tk, w1) := getTickCount w in
  Ok (mkTree rng (f64_of_int tk) n 0 0 param save_path (Some (Unresolved 0)), w1).

(** The constructor [Tree(samples, param, rng, save_path)]. *)
Definition construct (samples : list Sample) (param : ForestParam) (rng : Rng)
    (save_path : string) (fuel : nat) (w : World) : result (Tree * World) :=
  st0 ← construct_init param rng save_path w;
  '(_, st) ← grow fuel id (Unresolved 0) samples st0;
  Ok (st.1, save st.1 st.2).

(** [Tree::update] *)
Definition update (samples : list Sample) (rng : Rng) (fuel : nat)
    (st : Tree * World) : result (Tree * World) :=
  let t := set_m_rng rng st.1 in
  if isFinished t then Ok (t, st.2)
  else
    let '(tk, w1) := getTickCount st.2 in
    let t1 := set_m_ticks (f64_of_int tk) (set_i_leaf 0 (set_i_node 0 t)) in
    match root t1 with
    | None => Fault
    | Some r =>
        '(_, st') ← grow fuel id r samples (t1, w1);
        Ok (st'.1, save st'.1 st'.2)
    end.

(** ** Sequences of calls on a tree *)

Inductive call : Type :=
| CallUpdate (samples : list Sample) (rng : Rng) (fuel : nat)
| CallGrow (samples : list Sample) (fuel : nat).

Definition is_update (c : call) : bool :=
  match c with
  | CallUpdate _ _ _ => true
  | CallGrow _ _ => false
  end.

(** One public call: [tree->update(samples, rng)] or [tree->grow(tree->root, samples)]. *)
Definition run_call (c : call) (st : Tree * World) : result (Tree * World) :=
  match c with
  | CallUpdate samples rng fuel => update samples rng fuel st
  | CallGrow samples fuel =>
      match root st.1 with
      | None => Fault
      | Some r =>
          '(_, st') ← grow fuel id r samples st;
          Ok st'
      end
  end.

Fixpoint run_calls (cs : list call) (st : Tree * World) : result (Tree * World) :=
  match cs with
  | [] => Ok st
  | c :: cs' => st' ← run_call c st; run_calls cs' st'
  end.

(** ** Shape of a node graph *)

(** Every node of the graph sits at its distance from the node of depth [d]. *)
Fixpoint wf_node (d : Z) (n : TreeNode) : Prop :=
  match n with
  | Unresolved d' | LeafNode d' _ => d' = d
  | Internal d' _ l r => d' = d ∧ wf_node (d + 1) l ∧ wf_node (d + 1) r
  end.

(** No unresolved node is left. *)
Fixpoint resolved (n : TreeNode) : bool :=
  match n with
  | Unresolved _ => false
  | LeafNode _ _ => true
  | Internal _ _ l r => resolved l && resolved r
  end.

Fixpoint leaves (n : TreeNode) : Z :=
  match n with
  | Unresolved _ => 0
  | LeafNode _ _ => 1
  | Internal _ _ l r => leaves l + leaves r
  end.

Fixpoint height (n : TreeNode) : nat :=
  match n with
  | Unresolved _ | LeafNode _ _ => 1
  | Internal _ _ l r => S (Nat.max (height l) (height r))
  end.

(** Parameters with which a split search neither throws nor is undefined. *)
Definition usable_param (p : ForestParam) : Prop :=
  0 <= ntests p ∧ ∃ ps, getPatchSize p = Ok ps.

(** The range in which [i_node += powf(2.0f, max_depth-depth) - 1] and
    [i_leaf++] are exact: at most 24 levels remain below the node and the
    counter stays below [2^24]. *)
Definition leaf_step_exact (node : TreeNode) (t : Tree) : Prop :=
  0 <= max_depth (m_param t) - getDepth node <= 24
  ∧ 0 <= i_node t
  ∧ i_node t + 2 ^ (max_depth (m_param t) - getDepth node) - 1 < 2 ^ 24
  ∧ INT_MIN <= i_leaf t + 1 <= INT_MAX.

(** The budget invariant: [i_node] does not exceed [m_num_nodes], and
    reaches it exactly when the tree is finished. *)
Definition budget_invariant (t : Tree) : Prop :=
  i_node t <= m_num_nodes t ∧ (i_node t = m_num_nodes t ↔ isFinished t = true).

(** The states a call of [grow] passes through: the state at its entry, the
    state at its exit, and those of the calls nested in it. *)
Inductive grow_visits :
  nat → (TreeNode → TreeNode) → TreeNode → list Sample →
  Tree * World → Tree * World → Prop :=
| visit_entry fuel ctx node samples st :
    grow_visits fuel ctx node samples st st
| visit_exit fuel ctx node samples st n' st' :
    grow fuel ctx node samples st = Ok (n', st') →
    grow_visits fuel ctx node samples st st'
| visit_resumed_left fuel ctx d s l r samples st sets t st_mid :
    must_stop (m_param st.1) (Internal d s l r) samples = false →
    resume_split s samples st.1 = Ok (sets, t) →
    grow_visits fuel (λ x, ctx (Internal d s x r)) l sets.1 (t, st.2) st_mid →
    grow_visits (S fuel) ctx (Internal d s l r) samples st st_mid
| visit_resumed_right fuel ctx d s l r samples st sets t l' st1 st_mid :
    must_stop (m_param st.1) (Internal d s l r) samples = false →
    resume_split s samples st.1 = Ok (sets, t) →
    grow fuel (λ x, ctx (Internal d s x r)) l sets.1 (t, st.2) = Ok (l', st1) →
    grow_visits fuel (λ x, ctx (Internal d s l' x)) r sets.2 st1 st_mid →
    grow_visits (S fuel) ctx (Internal d s l r) samples st st_mid
| visit_fresh_left fuel ctx node samples st best t sets st0 st_mid :
    must_stop (m_param st.1) node samples = false →
    hasSplit node = false →
    findOptimalSplit samples default_split (getDepth node) st.1 = Ok (true, best, t) →
    assign_split ctx node best samples (t, st.2) = Ok (sets, st0) →
    grow_visits fuel
      (λ x, ctx (Internal (getDepth node) best x (Unresolved (getDepth node + 1))))
      (Unresolved (getDepth node + 1)) sets.1 st0 st_mid →
    grow_visits (S fuel) ctx node samples st st_mid
| visit_fresh_right fuel ctx node samples st best t sets st0 l' st1 st_mid :
    must_stop (m_param st.1) node samples = false →
    hasSplit node = false →
    findOptimalSplit samples default_split (getDepth node) st.1 = Ok (true, best, t) →
    assign_split ctx node best samples (t, st.2) = Ok (sets, st0) →
    grow fuel
      (λ x, ctx (Internal (getDepth node) best x (Unresolved (getDepth node + 1))))
      (Unresolved (getDepth node + 1)) sets.1 st0 = Ok (l', st1) →
    grow_visits fuel (λ x, ctx (Internal (getDepth node) best l' x))
      (Unresolved (getDepth node + 1)) sets.2 st1 st_mid →
    grow_visits (S fuel) ctx node samples st st_mid.

(** The members that growth never writes. *)
Definition same_config (t t' : Tree) : Prop :=
  m_num_nodes t' = m_num_nodes t ∧ m_param t' = m_param t
  ∧ m_save_path t' = m_save_path t.

End Tree.

(** ** A small instance: integer samples

    Samples are integers and test themselves; the payload of a leaf is the
    number of its samples; the generator proposes the same candidate in
    every slot, with the score 4 and the middle position as threshold, and
    proposes nothing usable for a batch of fewer than two samples. *)
Module IntSamples.

Definition score_four : spec_float := Eval vm_compute in f64_of_int 4.
Definition score_zero : spec_float := S754_zero false.

Definition candidate (samples : list Z) (mode : Z) : Split :=
  if (length samples <? 2)%nat
  then mkSplit 0 0 lowest highest
  else mkSplit (Z.of_nat (length samples) / 2) 0 score_four score_zero.

#[global] Instance collaborators : Collaborators := {|
  Sample := Z;
  Leaf := nat;
  Rng := nat;
  default_split := mkSplit 0 0 (S754_zero false) (S754_zero false);
  evalTest := λ x _, x;
  makeLeaf := λ samples, length samples;
  uniform_int := λ lo hi g, (lo + Z.of_nat g mod (hi - lo + 1), S g);
  generate := λ samples splits g _ _ mode,
                ((λ _, candidate samples mode) <$> splits, S g);
  splitSamples := λ samples _ th _,
                    (filter (λ x, x < th) samples, filter (λ x, ¬ x < th) samples);
  save_leaf := λ n, [IInt (Z.of_nat n)];
  load_leaf := λ l, match l with
                    | IInt z :: r => if z <? 0 then Throw archive_exception
                                     else Done (Z.to_nat z, r)
                    | _ => Throw archive_exception
                    end
|}.

Definition param (depth patches : Z) : ForestParam :=
  mkForestParam depth patches 3 1 1 1 100 (f32_of_int 1) "trees" "images" [0; 1].

Definition world : World :=
  mkWorld ∅ ∅ (λ n, Z.of_nat n) 0 (f64_of_int 1000).

(** A finished tree of depth 1: a split root over two leaves. *)
Definition stored_split : Split := mkSplit 2 0 score_four score_zero.

Definition leaf_child : TreeNode := LeafNode 1 2%nat.

Definition split_root : TreeNode := Internal 0 stored_split leaf_child leaf_child.

Definition finished_tree : Tree :=
  mkTree 0%nat (f64_of_int 0) 1 1 2 (param 1 0) "tree.txt" (Some split_root).

(** The same tree as a reloaded snapshot, counters reset. *)
Definition reloaded_tree : Tree :=
  mkTree 0%nat (f64_of_int 0) 1 0 0 (param 1 0) "tree.txt" (Some split_root).

(** A tree of depth 1 before growth, every batch allowed to split. *)
Definition fresh_tree : Tree :=
  mkTree 0%nat (f64_of_int 0) 1 0 0 (param 1 1) "tree.txt" (Some (Unresolved 0)).

(** The same tree after one split search. *)
Definition searched_tree : Tree := set_m_rng 2%nat fresh_tree.


End IntSamples.

(** ** Evaluation traversal *)

(** Modelled from the spec: [node->eval(sample)], the boolean test of an
    internal node, evaluated against the sample and the split of the node. *)
Class NodeTest `{Collaborators} : Type := {
  eval : Sample → Split → bool
}.

Section Traversal.
Context `{Collaborators} `{!NodeTest}.

(** [Tree::evaluateMT]: a leaf hands out its payload, an internal node
    descends to the left when its test holds and to the right otherwise.
    An unresolved node is no leaf and has no children: the recursive call
    goes through a null pointer. *)
Fixpoint evaluateMT (sample : Sample) (node : TreeNode) : result Leaf :=
  match node with
  | LeafNode _ lf => Ok lf
  | Internal _ s l r =>
      if eval sample s then evaluateMT sample l else evaluateMT sample r
  | Unresolved _ => Fault
  end.

(** The number of node tests [node->eval(sample)] that [Tree::evaluateMT]
    makes on its way down. *)
Fixpoint tests_made (sample : Sample) (node : TreeNode) : nat :=
  match node with
  | Internal _ s l r =>
      S (if eval sample s then tests_made sample l else tests_made sample r)
  | _ => 0%nat
  end.

(** The payloads of the leaves of a node graph, left to right. *)
Fixpoint payloads (n : TreeNode) : list Leaf :=
  match n with
  | Unresolved _ => []
  | LeafNode _ lf => [lf]
  | Internal _ _ l r => payloads l ++ payloads r
  end.

(** The splits of a node graph with the depths they sit at, in preorder. *)
Fixpoint splits_of (n : TreeNode) : list (Z * Split) :=
  match n with
  | Unresolved _ | LeafNode _ _ => []
  | Internal d s l r => (d, s) :: splits_of l ++ splits_of r
  end.

(** [n'] is what growth may make of [n]: an unresolved node becomes
    anything of its depth, a leaf stays a leaf, and an internal node
    either keeps its split over children of the same kind or becomes a
    leaf. *)
Fixpoint refines (n n' : TreeNode) : Prop :=
  match n, n' with
  | Unresolved d, _ => getDepth n' = d
  | LeafNode d _, LeafNode d' _ => d' = d
  | Internal d _ _ _, LeafNode d' _ => d' = d
  | Internal d s l r, Internal d' s' l' r' =>
      d' = d ∧ s' = s ∧ refines l l' ∧ refines r r'
  | _, _ => False
  end.

End Traversal.

(** The test of the integer samples: below the threshold goes left. *)
#[global] Instance int_samples_test : @NodeTest IntSamples.collaborators :=
  @Build_NodeTest IntSamples.collaborators (λ (x : Z) s, x <? threshold s).

(** A score that is not a number. *)
Definition is_nan (f : spec_float) : bool :=
  match f with
  | S754_nan => true
  | _ => false
  end.




(** The tree that [Tree::load] builds from the archive of [t] in the
    object [fresh]. *)
Definition snapshot_of `{Collaborators} (fresh t : Tree) : Tree :=
  mkTree (m_rng fresh) (m_ticks fresh) (m_num_nodes t) (i_node t)
         (i_leaf fresh) (m_param t) (m_save_path t) (root t).

(** The test of [Tree::saveAuto]: more than 600 seconds lie between the
    checkpoint time of the tree and the next reading of the tick counter. *)
Definition checkpoint_due `{Collaborators} (st : Tree * World) : bool :=
  SFltb (f64_of_int 600)
    (SFdiv 53 1024
       (SFsub 53 1024 (f64_of_int (getTickCount st.2).1) (m_ticks st.1))
       (tick_frequency st.2)).

(** An environment whose tick counter advances by 1000 seconds from one
    reading to the next. *)
Definition late_world : World :=
  mkWorld ∅ ∅ (λ n, Z.of_nat n * 1000000) 1 (f64_of_int 1000).

(** A snapshot from which growth can be resumed: the archive of a tree
    with the parameters [p], their budget, the save path [path] and a
    well-shaped node graph. *)
Definition resumable `{Collaborators} (p : ForestParam) (path : string)
    (content : list item) : Prop :=
  ∃ t r, content = serialize_out t
         ∧ m_param t = p ∧ m_save_path t = path
         ∧ m_num_nodes t = 2 ^ max_depth p - 1
         ∧ root t = Some r ∧ wf_node 0 r.

(** The members that a resumable snapshot fixes. *)
Definition tree_ok `{Collaborators} (p : ForestParam) (path : string) (t : Tree) : Prop :=
  m_param t = p ∧ m_save_path t = path ∧ m_num_nodes t = 2 ^ max_depth p - 1.

(** The file at [path] is as in [w0], or holds a resumable snapshot. *)
Definition file_ok `{Collaborators} (p : ForestParam) (path : string) (w0 w : World) : Prop :=
  files w !! path = files w0 !! path
  ∨ ∃ c, files w !! path = Some c ∧ resumable p path c.

(** The context rebuilds a well-shaped root from a well-shaped node. *)
Definition ctx_ok `{Collaborators} (d : Z) (ctx : TreeNode → TreeNode) : Prop :=
  ∀ x, wf_node d x → wf_node 0 (ctx x).

(** What a tree may do to its environment: only the file at [path]
    changes, and the tick counter is only read. *)
Definition same_world_except (path : string) (w w' : World) : Prop :=
  (∀ p, p ≠ path → files w' !! p = files w !! p)
  ∧ locked w' = locked w
  ∧ tick_source w' = tick_source w
  ∧ tick_frequency w' = tick_frequency w
  ∧ (tick_reads w <= tick_reads w')%nat.

(** * Properties *)

(** Closes an equation between closed terms by evaluation. *)
Ltac by_evaluation :=
  match goal with |- ?l = ?r => exact (@eq_refl _ r <: l = r) end.

(** ** Exact single-precision arithmetic on small integers *)

Section Binary32.

Lemma shl_nat_iter v d : Pos.iter xO v d = shl_nat v (Pos.to_nat d).
Proof.
  rewrite Pos2Nat.inj_iter. induction (Pos.to_nat d); simpl; congruence.
Qed.

Lemma digits_shl_nat v n :
  Zpos (digits2_pos (shl_nat v n)) = Zpos (digits2_pos v) + Z.of_nat n.
Proof. induction n; simpl shl_nat; simpl digits2_pos; lia. Qed.

Lemma shl_nat_add v a b : shl_nat v (a + b) = shl_nat (shl_nat v b) a.
Proof. induction a; simpl; congruence. Qed.

Lemma shl_nat_val v n : Zpos (shl_nat v n) = Zpos v * 2 ^ Z.of_nat n.
Proof.
  induction n; [simpl; lia|].
  cbn [shl_nat]. rewrite Pos2Z.inj_xO, IHn, Nat2Z.inj_succ, Z.pow_succ_r by lia. lia.
Qed.

Lemma shl_nat_plus a b n : (shl_nat a n + shl_nat b n)%positive = shl_nat (a + b) n.
Proof. apply Pos2Z.inj. rewrite Pos2Z.inj_add, !shl_nat_val, Pos2Z.inj_add. lia. Qed.

Lemma iter_pos_nat {A} (f : A → A) p x :
  iter_pos f p x = Nat.iter (Pos.to_nat p) f x.
Proof.
  revert x. induction p; intros x; cbn [iter_pos].
  - rewrite !IHp, Pos2Nat.inj_xI.
    replace (S (2 * Pos.to_nat p))%nat
      with (Pos.to_nat p + (Pos.to_nat p + 1))%nat by lia.
    rewrite !Nat.iter_add. reflexivity.
  - rewrite !IHp, Pos2Nat.inj_xO.
    replace (2 * Pos.to_nat p)%nat with (Pos.to_nat p + Pos.to_nat p)%nat by lia.
    rewrite Nat.iter_add. reflexivity.
  - reflexivity.
Qed.

(** Shifting right over zero bits loses nothing. *)
Lemma shr_shl_nat v n :
  Nat.iter n shr_1 (Build_shr_record (Zpos (shl_nat v n)) false false)
  = Build_shr_record (Zpos v) false false.
Proof.
  induction n; [reflexivity|].
  rewrite Nat.iter_succ_r. simpl. exact IHn.
Qed.

Lemma digits2_pos_bounds v :
  2 ^ (Zpos (digits2_pos v) - 1) <= Zpos v < 2 ^ Zpos (digits2_pos v).
Proof.
  induction v as [v IH|v IH|]; cbn [digits2_pos].
  - rewrite Pos2Z.inj_succ.
    replace (Z.succ (Zpos (digits2_pos v)) - 1)
      with (Z.succ (Zpos (digits2_pos v) - 1)) by lia.
    rewrite !Z.pow_succ_r by lia. lia.
  - rewrite Pos2Z.inj_succ.
    replace (Z.succ (Zpos (digits2_pos v)) - 1)
      with (Z.succ (Zpos (digits2_pos v) - 1)) by lia.
    rewrite !Z.pow_succ_r by lia. lia.
  - simpl. lia.
Qed.

Lemma digits2_pos_le24 v : Zpos v < 2 ^ 24 → Zpos (digits2_pos v) <= 24.
Proof.
  intros Hv. destruct (digits2_pos_bounds v) as [Hlo _].
  destruct (Z_le_gt_dec (Zpos (digits2_pos v)) 24) as [|Hgt]; [assumption|].
  assert (2 ^ 24 <= 2 ^ (Zpos (digits2_pos v) - 1)) by (apply Z.pow_le_mono_r; lia).
  lia.
Qed.

(** Rounding a number that fits into 24 bits returns it, whatever the
    exponent it is presented with. *)
Lemma binary_round_exact v n :
  Zpos (digits2_pos v) <= 24 →
  binary_round 24 128 false (shl_nat v n) (- Z.of_nat n) = canon32 v.
Proof.
  intros Hd. unfold binary_round, canon32.
  set (dv := Zpos (digits2_pos v)) in *.
  assert (Hdv : 1 <= dv) by (unfold dv; lia).
  rewrite digits_shl_nat. fold dv.
  replace (dv + Z.of_nat n + - Z.of_nat n) with dv by lia.
  assert (Hfe : fexp 24 128 dv = dv - 24) by (unfold fexp, emin; lia).
  rewrite Hfe. unfold shl_align.
  destruct (dv - 24 - - Z.of_nat n) as [|p|p] eqn:Hs.
  - assert (Hn : Z.to_nat (24 - dv) = n) by lia. rewrite Hn.
    unfold binary_round_aux, shr_fexp. simpl Zdigits2.
    rewrite digits_shl_nat. fold dv.
    replace (dv + Z.of_nat n + - Z.of_nat n) with dv by lia.
    rewrite Hfe. replace (dv - 24 - - Z.of_nat n) with 0 by lia.
    simpl. rewrite digits_shl_nat. fold dv.
    replace (dv + Z.of_nat n + - Z.of_nat n) with dv by lia.
    rewrite Hfe. replace (dv - 24 - - Z.of_nat n) with 0 by lia.
    simpl. replace (- Z.of_nat n) with (dv - 24) by lia.
    change (128 - 24) with 104.
    destruct (dv - 24 <=? 104) eqn:E; [reflexivity | lia].
  - unfold binary_round_aux, shr_fexp. simpl Zdigits2.
    rewrite digits_shl_nat. fold dv.
    replace (dv + Z.of_nat n + - Z.of_nat n) with dv by lia.
    rewrite Hfe, Hs. unfold shr, shr_record_of_loc.
    rewrite iter_pos_nat.
    assert (Hn : n = (Pos.to_nat p + Z.to_nat (24 - dv))%nat) by lia.
    assert (Hit : Nat.iter (Pos.to_nat p) shr_1
              (Build_shr_record (Zpos (shl_nat v n)) false false)
            = Build_shr_record (Zpos (shl_nat v (Z.to_nat (24 - dv)))) false false).
    { rewrite Hn at 1. rewrite shl_nat_add. apply shr_shl_nat. }
    rewrite Hit.
    cbn [loc_of_shr_record shr_m round_nearest_even Zdigits2].
    rewrite digits_shl_nat. fold dv.
    replace (dv + Z.of_nat (Z.to_nat (24 - dv)) + (- Z.of_nat n + Z.pos p))
      with dv by lia.
    rewrite Hfe. replace (dv - 24 - (- Z.of_nat n + Z.pos p)) with 0 by lia.
    simpl. replace (- Z.of_nat n + Z.pos p) with (dv - 24) by lia.
    change (128 - 24) with 104.
    destruct (dv - 24 <=? 104) eqn:E; [reflexivity | lia].
  - rewrite shl_nat_iter. rewrite <- shl_nat_add.
    assert (Hn : (Pos.to_nat p + n)%nat = Z.to_nat (24 - dv)) by lia. rewrite Hn.
    unfold binary_round_aux, shr_fexp. simpl Zdigits2.
    rewrite digits_shl_nat. fold dv.
    replace (dv + Z.of_nat (Z.to_nat (24 - dv)) + (dv - 24)) with dv by lia.
    rewrite Hfe. replace (dv - 24 - (dv - 24)) with 0 by lia.
    simpl. rewrite digits_shl_nat. fold dv.
    replace (dv + Z.of_nat (Z.to_nat (24 - dv)) + (dv - 24)) with dv by lia.
    rewrite Hfe. replace (dv - 24 - (dv - 24)) with 0 by lia.
    simpl. change (128 - 24) with 104.
    destruct (dv - 24 <=? 104) eqn:E; [reflexivity | lia].
Qed.

Lemma f32_of_int_pos v : Zpos v < 2 ^ 24 → f32_of_int (Zpos v) = canon32 v.
Proof.
  intros Hv. unfold f32_of_int, binary_normalize.
  apply (binary_round_exact v 0). now apply digits2_pos_le24.
Qed.

Lemma trunc_canon32 v : Zpos v < 2 ^ 24 → trunc_Z (canon32 v) = Some (Zpos v).
Proof.
  intros Hv. apply digits2_pos_le24 in Hv. unfold canon32, trunc_Z, cond_Zopp.
  set (dv := Zpos (digits2_pos v)) in *. f_equal.
  rewrite shl_nat_val. rewrite Z2Nat.id by lia.
  destruct (0 <=? dv - 24) eqn:E.
  - replace (24 - dv) with 0 by lia. replace (dv - 24) with 0 by lia. simpl. lia.
  - replace (- (dv - 24)) with (24 - dv) by lia.
    apply Z.div_mul. apply Z.pow_nonzero; lia.
Qed.

Lemma shl_align_canon v n :
  let k := Z.to_nat (24 - Zpos (digits2_pos v)) in
  Zpos (digits2_pos v) <= 24 → (k <= n)%nat →
  fst (shl_align (shl_nat v k) (Zpos (digits2_pos v) - 24) (- Z.of_nat n))
  = shl_nat v n.
Proof.
  intros k Hd Hk. subst k. unfold shl_align.
  destruct (- Z.of_nat n - (Zpos (digits2_pos v) - 24)) as [|p|p] eqn:Hs; cbn [fst].
  - replace n with (Z.to_nat (24 - Z.pos (digits2_pos v))) by lia. reflexivity.
  - lia.
  - rewrite shl_nat_iter, <- shl_nat_add.
    replace n with (Pos.to_nat p + Z.to_nat (24 - Z.pos (digits2_pos v)))%nat by lia.
    reflexivity.
Qed.

Lemma f32_add_canon a b :
  Zpos a + Zpos b < 2 ^ 24 →
  SFadd 24 128 (canon32 a) (canon32 b) = canon32 (a + b).
Proof.
  intros Hab.
  assert (Ha : Zpos (digits2_pos a) <= 24) by (apply digits2_pos_le24; lia).
  assert (Hb : Zpos (digits2_pos b) <= 24) by (apply digits2_pos_le24; lia).
  assert (Hs : Zpos (digits2_pos (a + b)) <= 24)
    by (apply digits2_pos_le24; rewrite Pos2Z.inj_add; lia).
  unfold canon32 at 1 2. cbn [SFadd cond_Zopp].
  set (ka := Z.to_nat (24 - Zpos (digits2_pos a))).
  set (kb := Z.to_nat (24 - Zpos (digits2_pos b))).
  set (n := Nat.max ka kb).
  replace (Z.min (Zpos (digits2_pos a) - 24) (Zpos (digits2_pos b) - 24))
    with (- Z.of_nat n) by (unfold n, ka, kb; lia).
  assert (Ea := shl_align_canon a n Ha). cbv zeta in Ea. fold ka in Ea.
  assert (Eb := shl_align_canon b n Hb). cbv zeta in Eb. fold kb in Eb.
  rewrite Ea, Eb by (unfold n; lia).
  rewrite <- Pos2Z.inj_add, shl_nat_plus. cbn [binary_normalize].
  now apply binary_round_exact.
Qed.

(** The sum of two small non-negative integers is formed exactly. *)
Lemma f32_add_exact i x :
  0 <= i → 0 <= x → i + x < 2 ^ 24 →
  trunc_Z (SFadd 24 128 (f32_of_int i) (f32_of_int x)) = Some (i + x).
Proof.
  intros Hi Hx Hsum.
  destruct i as [|a|a]; [|clear Hi|lia]; (destruct x as [|b|b]; [|clear Hx|lia]).
  - reflexivity.
  - rewrite f32_of_int_pos by lia. change (f32_of_int 0) with (S754_zero false).
    cbn [SFadd]. unfold canon32 at 1. fold (canon32 b).
    now rewrite trunc_canon32 by lia.
  - rewrite f32_of_int_pos by lia. change (f32_of_int 0) with (S754_zero false).
    unfold canon32 at 1. cbn [SFadd]. fold (canon32 a).
    rewrite trunc_canon32 by lia. reflexivity.
  - rewrite !f32_of_int_pos by lia. rewrite f32_add_canon by lia.
    rewrite trunc_canon32 by (rewrite Pos2Z.inj_add; lia). reflexivity.
Qed.

(** [powf(2.0f, e) - 1] is the integer [2^e - 1] up to [e = 24]. *)
Lemma pow2m1_exact e : 0 <= e <= 24 → pow2m1 e = f32_of_int (2 ^ e - 1).
Proof.
  intros He.
  assert (Hcases : e = 0 ∨ e = 1 ∨ e = 2 ∨ e = 3 ∨ e = 4 ∨ e = 5 ∨ e = 6 ∨ e = 7
                   ∨ e = 8 ∨ e = 9 ∨ e = 10 ∨ e = 11 ∨ e = 12 ∨ e = 13 ∨ e = 14
                   ∨ e = 15 ∨ e = 16 ∨ e = 17 ∨ e = 18 ∨ e = 19 ∨ e = 20
                   ∨ e = 21 ∨ e = 22 ∨ e = 23 ∨ e = 24) by lia.
  repeat (destruct Hcases as [->|Hcases]; [vm_compute; reflexivity|]).
  subst e. vm_compute. reflexivity.
Qed.

Lemma pow2_bounds e : 0 <= e <= 24 → 1 <= 2 ^ e <= 2 ^ 24.
Proof.
  intros He. split.
  - change 1 with (2 ^ 0). apply Z.pow_le_mono_r; lia.
  - apply Z.pow_le_mono_r; lia.
Qed.

(** The counter update [i_node += powf(2.0f, e) - 1] in its exact range. *)
Lemma add_assign_float_exact i e :
  0 <= e <= 24 → 0 <= i → i + 2 ^ e - 1 < 2 ^ 24 →
  add_assign_float i (pow2m1 e) = Ok (i + (2 ^ e - 1)).
Proof.
  intros He Hi Hsum. pose proof (pow2_bounds e He) as Hp.
  unfold add_assign_float, int_of_float.
  rewrite pow2m1_exact by assumption.
  rewrite f32_add_exact by lia.
  unfold int_check, in_int, INT_MIN, INT_MAX.
  destruct ((- 2 ^ 31 <=? i + (2 ^ e - 1)) && (i + (2 ^ e - 1) <=? 2 ^ 31 - 1)) eqn:E;
    [reflexivity | lia].
Qed.

(** The budget [m_num_nodes = powf(2.0f, max_depth) - 1] in its exact range. *)
Lemma int_of_float_pow2m1 e :
  0 <= e <= 24 → int_of_float (pow2m1 e) = Ok (2 ^ e - 1).
Proof.
  intros He. pose proof (pow2_bounds e He) as Hp.
  rewrite pow2m1_exact by assumption. unfold int_of_float.
  assert (Ht : trunc_Z (f32_of_int (2 ^ e - 1)) = Some (2 ^ e - 1)).
  { destruct (2 ^ e - 1) as [|v|v] eqn:Ev; [reflexivity| |lia].
    rewrite f32_of_int_pos by lia. apply trunc_canon32. lia. }
  rewrite Ht. unfold int_check, in_int, INT_MIN, INT_MAX.
  destruct ((- 2 ^ 31 <=? 2 ^ e - 1) && (2 ^ e - 1 <=? 2 ^ 31 - 1)) eqn:E;
    [reflexivity | lia].
Qed.

End Binary32.

(** ** Building blocks of growth *)

Section Blocks.
Context `{Collaborators}.

Lemma int_check_Ok z z' : int_check z = Ok z' → z' = z ∧ INT_MIN <= z <= INT_MAX.
Proof.
  unfold int_check, in_int. destruct (INT_MIN <=? z) eqn:E1;
    destruct (z <=? INT_MAX) eqn:E2; simpl; intros Hc; inversion Hc; subst.
  lia.
Qed.

Lemma int_check_in_range z : INT_MIN <= z <= INT_MAX → int_check z = Ok z.
Proof.
  intros Hz. unfold int_check, in_int.
  destruct (INT_MIN <=? z) eqn:E1; destruct (z <=? INT_MAX) eqn:E2; simpl;
    first [reflexivity | lia].
Qed.

Lemma bind_Ok {A B} (r : result A) (k : A → result B) b :
  r ≫= k = Ok b → ∃ a, r = Ok a ∧ k a = Ok b.
Proof. destruct r; simpl; intros Hb; try discriminate. eauto. Qed.

Lemma same_config_refl t : same_config t t.
Proof. repeat split. Qed.

Lemma same_config_trans t1 t2 t3 :
  same_config t1 t2 → same_config t2 t3 → same_config t1 t3.
Proof. unfold same_config. intros (?&?&?) (?&?&?). repeat split; congruence. Qed.

(** The split search writes the generator and nothing else. *)
Lemma findOptimalSplit_frame samples b d t found best t' :
  findOptimalSplit samples b d t = Ok (found, best, t') →
  ∃ g, t' = set_m_rng g t.
Proof.
  unfold findOptimalSplit. intros Hf.
  apply bind_Ok in Hf as ([splits g2] & _ & Hf).
  inversion Hf; subst. eauto.
Qed.

(** A checkpoint writes the checkpoint time and the file system. *)
Lemma saveAuto_frame st :
  (saveAuto st).1 = st.1 ∨ ∃ k, (saveAuto st).1 = set_m_ticks k st.1.
Proof.
  unfold saveAuto. destruct (getTickCount st.2) as [tk w].
  destruct (SFltb _ _); simpl; eauto.
Qed.

Lemma saveAuto_fields st :
  i_node (saveAuto st).1 = i_node st.1 ∧ i_leaf (saveAuto st).1 = i_leaf st.1
  ∧ root (saveAuto st).1 = root st.1 ∧ m_rng (saveAuto st).1 = m_rng st.1
  ∧ same_config st.1 (saveAuto st).1.
Proof.
  destruct (saveAuto_frame st) as [->|[k ->]]; repeat split.
Qed.

Lemma make_leaf_Ok ctx node samples st n' st' :
  make_leaf ctx node samples st = Ok (n', st') →
  ∃ e i l,
    int_check (max_depth (m_param st.1) - getDepth node) = Ok e
    ∧ add_assign_float (i_node st.1) (pow2m1 e) = Ok i
    ∧ int_check (i_leaf st.1 + 1) = Ok l
    ∧ n' = createLeaf node samples
    ∧ st' = (set_root (Some (ctx n')) (set_i_leaf l (set_i_node i st.1)), st.2).
Proof.
  unfold make_leaf. intros Hm.
  apply bind_Ok in Hm as (e & He & Hm).
  apply bind_Ok in Hm as (i & Hi & Hm).
  apply bind_Ok in Hm as (l & Hl & Hm).
  inversion Hm; subst. eauto 10.
Qed.

Lemma resume_split_Ok s samples t sets t' :
  resume_split s samples t = Ok (sets, t') →
  sets = applyOptimalSplit samples s ∧ t' = set_i_node (i_node t + 1) t
  ∧ i_node t + 1 <= INT_MAX.
Proof.
  unfold resume_split. intros Hr.
  apply bind_Ok in Hr as (i & Hi & Hr). apply int_check_Ok in Hi as [-> Hi].
  inversion Hr; subst. repeat split. lia.
Qed.

Lemma assign_split_Ok ctx node best samples st sets st' :
  assign_split ctx node best samples st = Ok (sets, st') →
  sets = applyOptimalSplit samples best
  ∧ st' = saveAuto (set_root (Some (ctx (setSplit_with_children node best)))
                     (set_i_node (i_node st.1 + 1) st.1), st.2)
  ∧ i_node st.1 + 1 <= INT_MAX.
Proof.
  unfold assign_split. intros Hr.
  apply bind_Ok in Hr as (i & Hi & Hr). apply int_check_Ok in Hi as [-> Hi].
  inversion Hr; subst. repeat split. lia.
Qed.

(** One unfolding of [grow], by the branch taken. *)
Lemma grow_stop fuel ctx node samples st :
  must_stop (m_param st.1) node samples = true →
  grow (S fuel) ctx node samples st = make_leaf ctx node samples st.
Proof. intros Hs. cbn [grow]. now rewrite Hs. Qed.

Lemma grow_resume fuel ctx d s l r samples st :
  must_stop (m_param st.1) (Internal d s l r) samples = false →
  grow (S fuel) ctx (Internal d s l r) samples st =
    ('(sets, t) ← resume_split s samples st.1;
     '(l', st1) ← grow fuel (λ x, ctx (Internal d s x r)) l sets.1 (t, st.2);
     '(r', st2) ← grow fuel (λ x, ctx (Internal d s l' x)) r sets.2 st1;
     Ok (Internal d s l' r', st2)).
Proof. intros Hs. cbn [grow]. now rewrite Hs. Qed.

Lemma grow_search fuel ctx node samples st :
  must_stop (m_param st.1) node samples = false →
  hasSplit node = false →
  grow (S fuel) ctx node samples st =
    ('(found, best, t) ← findOptimalSplit samples default_split (getDepth node) st.1;
     if (found : bool) then
       '(sets, st0) ← assign_split ctx node best samples (t, st.2);
       let d := getDepth node in
       '(l', st1) ← grow fuel (λ x, ctx (Internal d best x (Unresolved (d + 1))))
                      (Unresolved (d + 1)) sets.1 st0;
       '(r', st2) ← grow fuel (λ x, ctx (Internal d best l' x))
                      (Unresolved (d + 1)) sets.2 st1;
       Ok (Internal d best l' r', st2)
     else make_leaf ctx node samples (t, st.2)).
Proof.
  intros Hs Hn. cbn [grow]. rewrite Hs.
  destruct node; simpl in Hn; [reflexivity | reflexivity | discriminate].
Qed.

End Blocks.

(** ** Growth as a whole *)

Section Growth.
Context `{Collaborators}.

(** Growth never writes the budget, the parameters or the save path. *)
Lemma grow_config fuel : ∀ ctx node samples st n' st',
  grow fuel ctx node samples st = Ok (n', st') → same_config st.1 st'.1.
Proof.
  induction fuel as [|fuel IH]; intros ctx node samples st n' st' Hg;
    [discriminate|].
  destruct (must_stop (m_param st.1) node samples) eqn:Hs.
  - rewrite grow_stop in Hg by assumption.
    apply make_leaf_Ok in Hg as (e & i & l & _ & _ & _ & _ & ->).
    repeat split.
  - destruct (hasSplit node) eqn:Hn.
    + destruct node as [d|d lf|d s l r]; try discriminate.
      rewrite grow_resume in Hg by assumption.
      apply bind_Ok in Hg as ([sets t] & Hr & Hg).
      apply bind_Ok in Hg as ([l' st1] & Hl & Hg).
      apply bind_Ok in Hg as ([r' st2] & Hr' & Hg).
      inversion Hg; subst. apply resume_split_Ok in Hr as (_ & -> & _).
      apply IH in Hl. apply IH in Hr'.
      eapply same_config_trans; [|exact Hr'].
      eapply same_config_trans; [|exact Hl]. repeat split.
    + rewrite grow_search in Hg by assumption.
      apply bind_Ok in Hg as ([[found best] t] & Hf & Hg).
      apply findOptimalSplit_frame in Hf as [g ->].
      destruct found.
      * apply bind_Ok in Hg as ([sets st0] & Ha & Hg).
        apply bind_Ok in Hg as ([l' st1] & Hl & Hg).
        apply bind_Ok in Hg as ([r' st2] & Hr' & Hg).
        inversion Hg; subst. apply assign_split_Ok in Ha as (_ & -> & _).
        apply IH in Hl. apply IH in Hr'.
        eapply same_config_trans; [|exact Hr'].
        eapply same_config_trans; [|exact Hl].
        match goal with |- same_config _ (saveAuto ?x).1 =>
          destruct (saveAuto_fields x) as (_ & _ & _ & _ & Hc) end.
        eapply same_config_trans; [|exact Hc]. repeat split.
      * apply make_leaf_Ok in Hg as (e & i & l & _ & _ & _ & _ & ->).
        repeat split.
Qed.

(** The stopping test holds at the depth bound. *)
Lemma must_stop_at_depth p node samples :
  max_depth p <= getDepth node → must_stop p node samples = true.
Proof.
  intros Hd. unfold must_stop.
  destruct (max_depth p <=? getDepth node) eqn:E; [|lia].
  now rewrite orb_true_r.
Qed.

Lemma pow2_step k : 0 <= k → 2 ^ (k + 1) = 2 * 2 ^ k.
Proof. intros Hk. rewrite Z.pow_add_r by lia. lia. Qed.

(** What a call of [grow] on a well-shaped node adds to the counters: the
    whole budget [2^(max_depth - d) - 1] of the subtree and one leaf count
    per leaf, within the exact range of the counter arithmetic. *)
Lemma grow_counters fuel : ∀ ctx node d D samples st n' st',
  wf_node d node →
  max_depth (m_param st.1) = D →
  d <= D <= d + 24 →
  0 <= i_node st.1 →
  i_node st.1 + 2 ^ (D - d) - 1 < 2 ^ 24 →
  grow fuel ctx node samples st = Ok (n', st') →
  i_node st'.1 = i_node st.1 + (2 ^ (D - d) - 1)
  ∧ i_leaf st'.1 = i_leaf st.1 + leaves n'
  ∧ 1 <= leaves n' <= 2 ^ (D - d)
  ∧ wf_node d n' ∧ resolved n' = true
  ∧ root st'.1 = Some (ctx n').
Proof.
  induction fuel as [|fuel IH];
    intros ctx node d D samples st n' st' Hwf HD Hd Hi Hb Hg; [discriminate|].
  assert (Hdepth : getDepth node = d) by (destruct node; simpl in *; tauto).
  assert (Hpow : 1 <= 2 ^ (D - d) <= 2 ^ 24) by (apply pow2_bounds; lia).
  assert (Hleaf : ∀ t w, m_param t = m_param st.1 → i_node t = i_node st.1 →
            i_leaf t = i_leaf st.1 →
            make_leaf ctx node samples (t, w) = Ok (n', st') →
            i_node st'.1 = i_node st.1 + (2 ^ (D - d) - 1)
            ∧ i_leaf st'.1 = i_leaf st.1 + leaves n'
            ∧ 1 <= leaves n' <= 2 ^ (D - d)
            ∧ wf_node d n' ∧ resolved n' = true ∧ root st'.1 = Some (ctx n')).
  { intros t w Hp Hin Hil Hm.
    apply make_leaf_Ok in Hm as (e & i & l & He & Hadd & Hl & -> & ->).
    simpl in He, Hadd, Hl. rewrite Hp, Hdepth, HD in He.
    apply int_check_Ok in He as [-> _]. apply int_check_Ok in Hl as [-> _].
    rewrite Hin, add_assign_float_exact in Hadd by lia.
    inversion Hadd; subst i. simpl. rewrite Hil, Hdepth.
    repeat split; try reflexivity; lia. }
  destruct (must_stop (m_param st.1) node samples) eqn:Hs.
  - rewrite grow_stop in Hg by assumption. destruct st as [t w].
    now apply (Hleaf t w).
  - assert (Hlt : d < D).
    { destruct (Z_lt_ge_dec d D) as [|Hge]; [assumption|].
      rewrite must_stop_at_depth in Hs by (rewrite Hdepth, HD; lia).
      discriminate. }
    assert (Hhalf : 2 ^ (D - d) = 2 * 2 ^ (D - (d + 1))).
    { replace (D - d) with (D - (d + 1) + 1) by lia. apply pow2_step. lia. }
    assert (Hpow' : 1 <= 2 ^ (D - (d + 1)) <= 2 ^ 24) by (apply pow2_bounds; lia).
    destruct (hasSplit node) eqn:Hn.
    + destruct node as [d0|d0 lf|d0 s l r]; try discriminate.
      simpl in Hwf. destruct Hwf as (-> & Hwl & Hwr).
      rewrite grow_resume in Hg by assumption.
      apply bind_Ok in Hg as ([sets t] & Hr & Hg).
      apply bind_Ok in Hg as ([l' st1] & Hl & Hg).
      apply bind_Ok in Hg as ([r' st2] & Hr' & Hg).
      inversion Hg; subst n' st2. apply resume_split_Ok in Hr as (_ & -> & _).
      pose proof (grow_config _ _ _ _ _ _ _ Hl) as (_ & Hp1 & _). simpl in Hp1.
      destruct (IH _ _ (d + 1) D _ (set_i_node (i_node st.1 + 1) st.1, st.2) _ _
                  Hwl HD ltac:(lia) ltac:(simpl; lia) ltac:(simpl; lia) Hl)
        as (Hl1 & Hl2 & Hl3 & Hl4 & Hl5 & Hl6). simpl in Hl1, Hl2.
      assert (HD1 : max_depth (m_param st1.1) = D) by (rewrite Hp1; exact HD).
      destruct (IH _ _ (d + 1) D _ _ _ _ Hwr HD1
                  ltac:(lia) ltac:(lia) ltac:(lia) Hr')
        as (Hr1 & Hr2 & Hr3 & Hr4 & Hr5 & Hr6).
      simpl. rewrite Hl5, Hr5. repeat split; try assumption; try reflexivity; lia.
    + rewrite grow_search in Hg by assumption.
      apply bind_Ok in Hg as ([[found best] t] & Hf & Hg).
      apply findOptimalSplit_frame in Hf as [g ->].
      destruct found.
      * apply bind_Ok in Hg as ([sets st0] & Ha & Hg).
        apply bind_Ok in Hg as ([l' st1] & Hl & Hg).
        apply bind_Ok in Hg as ([r' st2] & Hr' & Hg).
        inversion Hg; subst n' st2. apply assign_split_Ok in Ha as (_ & -> & _).
        match type of Hl with context [saveAuto ?x] =>
          destruct (saveAuto_fields x) as (Hs1 & Hs2 & _ & _ & (_ & Hs3 & _));
          set (st0 := saveAuto x) in * end.
        simpl in Hs1, Hs2, Hs3. rewrite Hdepth in *.
        pose proof (grow_config _ _ _ _ _ _ _ Hl) as (_ & Hp1 & _).
        assert (HD0 : max_depth (m_param st0.1) = D) by (rewrite Hs3; exact HD).
        destruct (IH _ (Unresolved (d + 1)) (d + 1) D _ _ _ _ eq_refl HD0
                    ltac:(lia) ltac:(lia) ltac:(lia) Hl)
          as (Hl1 & Hl2 & Hl3 & Hl4 & Hl5 & Hl6).
        assert (HD1 : max_depth (m_param st1.1) = D) by (rewrite Hp1; exact HD0).
        destruct (IH _ (Unresolved (d + 1)) (d + 1) D _ _ _ _ eq_refl HD1
                    ltac:(lia) ltac:(lia) ltac:(lia) Hr')
          as (Hr1 & Hr2 & Hr3 & Hr4 & Hr5 & Hr6).
        simpl. rewrite Hl5, Hr5.
        repeat split; try assumption; try reflexivity; lia.
      * destruct st as [t w]. simpl in *. now apply (Hleaf (set_m_rng g t) w).
Qed.

Lemma generate_candidates_returns samples d t :
  usable_param (m_param t) →
  ∃ splits g, generate_candidates samples d t = Ok (splits, g).
Proof.
  intros (Hn & ps & Hps). unfold generate_candidates.
  destruct (ntests (m_param t) <? 0) eqn:E; [lia|].
  destruct (uniform_int 0 100 (m_rng t)) as [mode g1].
  rewrite Hps. simpl.
  destruct (generate _ _ _ _ _ _) as [splits g2]. eauto.
Qed.

Lemma findOptimalSplit_returns samples b d t :
  usable_param (m_param t) →
  ∃ found best g, findOptimalSplit samples b d t = Ok (found, best, set_m_rng g t).
Proof.
  intros Hp. unfold findOptimalSplit.
  destruct (generate_candidates_returns samples d t Hp) as (splits & g & ->).
  simpl. eauto.
Qed.

(** A leaf block in the exact range of the counter arithmetic. *)
Lemma make_leaf_exact ctx node samples st e :
  max_depth (m_param st.1) - getDepth node = e →
  0 <= e <= 24 → 0 <= i_node st.1 → i_node st.1 + 2 ^ e - 1 < 2 ^ 24 →
  INT_MIN <= i_leaf st.1 + 1 <= INT_MAX →
  make_leaf ctx node samples st =
    Ok (createLeaf node samples,
        (set_root (Some (ctx (createLeaf node samples)))
           (set_i_leaf (i_leaf st.1 + 1)
              (set_i_node (i_node st.1 + (2 ^ e - 1)) st.1)), st.2)).
Proof.
  intros He Hr Hi Hb Hl. unfold make_leaf. rewrite He.
  rewrite (int_check_in_range e) by (unfold INT_MIN, INT_MAX; lia). simpl.
  rewrite add_assign_float_exact by lia. simpl.
  rewrite (int_check_in_range (i_leaf st.1 + 1)) by assumption. reflexivity.
Qed.

Lemma make_leaf_returns ctx node samples st e :
  max_depth (m_param st.1) - getDepth node = e →
  0 <= e <= 24 → 0 <= i_node st.1 → i_node st.1 + 2 ^ e - 1 < 2 ^ 24 →
  INT_MIN <= i_leaf st.1 + 1 <= INT_MAX →
  ∃ st', make_leaf ctx node samples st = Ok (createLeaf node samples, st').
Proof.
  intros He Hr Hi Hb Hl. erewrite make_leaf_exact by eassumption. eauto.
Qed.

(** With a recursion bound above the remaining depth, growth of a
    well-shaped node returns. *)
Lemma grow_returns fuel : ∀ ctx node d D samples st,
  wf_node d node →
  max_depth (m_param st.1) = D →
  d <= D <= d + 24 →
  0 <= i_node st.1 →
  i_node st.1 + 2 ^ (D - d) - 1 < 2 ^ 24 →
  0 <= i_leaf st.1 →
  i_leaf st.1 + 2 ^ (D - d) <= INT_MAX →
  usable_param (m_param st.1) →
  (Z.to_nat (D - d) < fuel)%nat →
  ∃ n' st', grow fuel ctx node samples st = Ok (n', st').
Proof.
  induction fuel as [|fuel IH];
    intros ctx node d D samples st Hwf HD Hd Hi Hb Hl Hlb Hp Hfuel; [lia|].
  assert (Hdepth : getDepth node = d) by (destruct node; simpl in *; tauto).
  assert (Hpow : 1 <= 2 ^ (D - d) <= 2 ^ 24) by (apply pow2_bounds; lia).
  assert (Hleaf : ∀ t w, m_param t = m_param st.1 → i_node t = i_node st.1 →
            i_leaf t = i_leaf st.1 →
            ∃ n' st', make_leaf ctx node samples (t, w) = Ok (n', st')).
  { intros t w Hpt Hin Hil.
    destruct (make_leaf_returns ctx node samples (t, w) (D - d)) as [st' Hm];
      simpl; rewrite ?Hpt, ?Hin, ?Hil, ?Hdepth, ?HD;
      unfold INT_MIN, INT_MAX in *; try lia.
    eauto. }
  destruct (must_stop (m_param st.1) node samples) eqn:Hs.
  - rewrite grow_stop by assumption. destruct st as [t w]. now apply Hleaf.
  - assert (Hlt : d < D).
    { destruct (Z_lt_ge_dec d D) as [|Hge]; [assumption|].
      rewrite must_stop_at_depth in Hs by (rewrite Hdepth, HD; lia).
      discriminate. }
    assert (Hhalf : 2 ^ (D - d) = 2 * 2 ^ (D - (d + 1))).
    { replace (D - d) with (D - (d + 1) + 1) by lia. apply pow2_step. lia. }
    assert (Hpow' : 1 <= 2 ^ (D - (d + 1)) <= 2 ^ 24) by (apply pow2_bounds; lia).
    assert (Hrec : ∀ ctx1 ctx2 l r sets st0,
              wf_node (d + 1) l → wf_node (d + 1) r →
              m_param st0.1 = m_param st.1 → i_node st0.1 = i_node st.1 + 1 →
              i_leaf st0.1 = i_leaf st.1 →
              ∃ l' st1 r' st2,
                grow fuel ctx1 l sets.1 st0 = Ok (l', st1)
                ∧ grow fuel (ctx2 l') r sets.2 st1 = Ok (r', st2)).
    { intros ctx1 ctx2 l r sets st0 Hwl Hwr Hp0 Hi0 Hl0.
      assert (HD0 : max_depth (m_param st0.1) = D) by (rewrite Hp0; exact HD).
      destruct (IH ctx1 l (d + 1) D sets.1 st0) as (l' & st1 & Hgl);
        rewrite ?Hp0; unfold INT_MAX in *; try assumption; try lia.
      pose proof (grow_config _ _ _ _ _ _ _ Hgl) as (_ & Hp1 & _).
      destruct (grow_counters _ _ _ (d + 1) D _ _ _ _ Hwl HD0
                  ltac:(lia) ltac:(lia) ltac:(lia) Hgl)
        as (Hl1 & Hl2 & Hl3 & _).
      destruct (IH (ctx2 l') r (d + 1) D sets.2 st1) as (r' & st2 & Hgr);
        rewrite ?Hp1, ?Hp0; unfold INT_MAX in *; try assumption; try lia.
      eauto 10. }
    destruct (hasSplit node) eqn:Hn.
    + destruct node as [d0|d0 lf|d0 s l r]; try discriminate.
      simpl in Hwf. destruct Hwf as (-> & Hwl & Hwr).
      rewrite grow_resume by assumption.
      unfold resume_split.
      rewrite (int_check_in_range (i_node st.1 + 1))
        by (unfold INT_MIN, INT_MAX; lia). simpl.
      destruct (Hrec (λ x, ctx (Internal d s x r)) (λ l' x, ctx (Internal d s l' x))
                  l r (applyOptimalSplit samples s)
                  (set_i_node (i_node st.1 + 1) st.1, st.2))
        as (l' & st1 & r' & st2 & Hgl & Hgr); try assumption; try reflexivity.
      rewrite Hgl. simpl. rewrite Hgr. simpl. eauto.
    + rewrite grow_search by assumption.
      destruct (findOptimalSplit_returns samples default_split (getDepth node)
                  st.1 Hp) as (found & best & g & ->). simpl.
      destruct found.
      * unfold assign_split. simpl.
        rewrite (int_check_in_range (i_node st.1 + 1))
          by (unfold INT_MIN, INT_MAX; lia). simpl.
        match goal with |- context [saveAuto ?x] =>
          destruct (saveAuto_fields x) as (Hs1 & Hs2 & _ & _ & (_ & Hs3 & _));
          set (st0 := saveAuto x) in * end.
        simpl in Hs1, Hs2, Hs3. rewrite Hdepth.
        destruct (Hrec (λ x, ctx (Internal d best x (Unresolved (d + 1))))
                    (λ l' x, ctx (Internal d best l' x))
                    (Unresolved (d + 1)) (Unresolved (d + 1))
                    (applyOptimalSplit samples best) st0)
          as (l' & st1 & r' & st2 & Hgl & Hgr); try assumption; try reflexivity.
        rewrite Hgl. simpl. rewrite Hgr. simpl. eauto.
      * destruct st as [t w]. now apply Hleaf.
Qed.

End Growth.

(** ** Order of double-precision scores *)

Section ScoreOrder.

Ltac cmp_cases :=
  repeat match goal with
  | H : context [Z.compare ?x ?y] |- _ => destruct (Z.compare_spec x y)
  | |- context [Z.compare ?x ?y] => destruct (Z.compare_spec x y)
  | H : context [Pos.compare ?x ?y] |- _ => destruct (Pos.compare_spec x y)
  | |- context [Pos.compare ?x ?y] => destruct (Pos.compare_spec x y)
  end.


Lemma SFcompare_lt_asym a b :
  SFcompare a b = Some Lt → SFcompare b a = Some Gt.
Proof.
  destruct a as [[]|[]| |[] ma ea], b as [[]|[]| |[] mb eb];
    cbn [SFcompare]; intros Hab; try discriminate; try reflexivity;
    change (Pos.compare_cont Eq) with Pos.compare in *;
    cmp_cases; simpl in *; try discriminate; try reflexivity; try lia.
Qed.

Lemma SFltb_Lt a b : SFltb a b = true ↔ SFcompare a b = Some Lt.
Proof.
  unfold SFltb. destruct (SFcompare a b) as [[]|]; split; intros Hc;
    first [reflexivity | discriminate].
Qed.




Lemma SFltb_not_leb a b : SFltb a b = true → SFleb b a = false.
Proof.
  rewrite SFltb_Lt. intros Hab. apply SFcompare_lt_asym in Hab.
  unfold SFleb. now rewrite Hab.
Qed.


Lemma SFltb_irrefl a : SFltb a a = false.
Proof.
  destruct (SFltb a a) eqn:E; [|reflexivity].
  pose proof (SFltb_not_leb _ _ E) as Hn.
  apply SFltb_Lt in E. unfold SFleb in Hn. now rewrite E in Hn.
Qed.

End ScoreOrder.

(** ** The selection loop *)

Section Selection.


End Selection.

(** ** The integer-sample instance meets the contracts *)

Section IntSamplesContracts.
Import IntSamples.

#[global] Instance int_samples_uniform : UniformIntContract.
Proof.
  constructor. intros lo hi g Hle. simpl.
  pose proof (Z.mod_pos_bound (Z.of_nat g) (hi - lo + 1) ltac:(lia)). lia.
Qed.


#[global] Instance int_samples_archive : LeafArchiveContract.
Proof.
  constructor. intros lf rest. cbn [load_leaf save_leaf collaborators app].
  destruct (Z.ltb_spec (Z.of_nat lf) 0) as [Hneg|_]; [lia|]. now rewrite Nat2Z.id.
Qed.

End IntSamplesContracts.

(** ** Completion test and budget (C5) *)

Section Completion.
Context `{Collaborators}.

Lemma isFinished_set_m_rng g t : isFinished (set_m_rng g t) = isFinished t.
Proof. reflexivity. Qed.

Lemma isFinished_iff t :
  isFinished t = true ↔ i_node t = m_num_nodes t ∧ m_num_nodes t ≠ 0.
Proof.
  unfold isFinished. destruct (m_num_nodes t =? 0) eqn:E0.
  - split; [discriminate | lia].
  - destruct (i_node t =? m_num_nodes t) eqn:E1; split; intros Hf;
      first [discriminate | lia | reflexivity].
Qed.

Lemma isFinished_false_of_zero_budget t : m_num_nodes t = 0 → isFinished t = false.
Proof. intros Hz. unfold isFinished. now rewrite Hz. Qed.

Lemma update_config samples rng fuel st st' :
  update samples rng fuel st = Ok st' → same_config st.1 st'.1.
Proof.
  unfold update. destruct (isFinished (set_m_rng rng st.1)).
  - intros Hu. inversion Hu; subst. repeat split.
  - destruct (getTickCount st.2) as [tk w1]. cbn [root set_m_ticks set_i_leaf set_i_node set_m_rng].
    destruct (root st.1) as [r|]; [|discriminate].
    intros Hu. apply bind_Ok in Hu as ([n' st1] & Hg & Hu).
    inversion Hu; subst. apply grow_config in Hg. exact Hg.
Qed.

Lemma run_call_config c st st' :
  run_call c st = Ok st' → same_config st.1 st'.1.
Proof.
  destruct c as [samples rng fuel|samples fuel]; simpl.
  - apply update_config.
  - destruct (root st.1) as [r|]; [|discriminate].
    intros Hu. apply bind_Ok in Hu as ([n' st1] & Hg & Hu).
    inversion Hu; subst. now apply grow_config in Hg.
Qed.

Lemma run_calls_config cs : ∀ st st',
  run_calls cs st = Ok st' → same_config st.1 st'.1.
Proof.
  induction cs as [|c cs IH]; intros st st' Hr; simpl in Hr.
  - inversion Hr; subst. apply same_config_refl.
  - apply bind_Ok in Hr as (st1 & Hc & Hr).
    eapply same_config_trans; [eapply run_call_config | eapply IH]; eauto.
Qed.

Lemma construct_init_Ok p rng path w st0 :
  construct_init p rng path w = Ok st0 →
  int_of_float (pow2m1 (max_depth p)) = Ok (m_num_nodes st0.1)
  ∧ m_param st0.1 = p ∧ m_save_path st0.1 = path
  ∧ i_node st0.1 = 0 ∧ i_leaf st0.1 = 0 ∧ root st0.1 = Some (Unresolved 0).
Proof.
  unfold construct_init. intros Hc.
  apply bind_Ok in Hc as (n & Hn & Hc).
  destruct (getTickCount w) as [tk w1]. inversion Hc; subst. simpl. auto 10.
Qed.

Lemma construct_config samples p rng path fuel w t w' :
  construct samples p rng path fuel w = Ok (t, w') →
  int_of_float (pow2m1 (max_depth p)) = Ok (m_num_nodes t)
  ∧ m_param t = p ∧ m_save_path t = path.
Proof.
  unfold construct. intros Hc.
  apply bind_Ok in Hc as (st0 & H0 & Hc).
  apply bind_Ok in Hc as ([n' st] & Hg & Hc).
  inversion Hc; subst. apply grow_config in Hg as (H1 & H2 & H3).
  apply construct_init_Ok in H0 as (Hn & Hp & Hs & _).
  rewrite H1, H2, H3. auto.
Qed.

(** C5: [isFinished()] returns true exactly when [i_node] equals
    [m_num_nodes] and [m_num_nodes] is not zero. A tree constructed with
    [max_depth = 0] is returned with [m_num_nodes = 0], and [isFinished()]
    is false for it and stays false after any further [update] and [grow]
    calls. *)
Theorem isFinished_budget_met :
  (∀ t : Tree,
      isFinished t = true ↔ i_node t = m_num_nodes t ∧ m_num_nodes t ≠ 0)
  ∧ (∀ samples p rng path fuel w,
        max_depth p = 0 →
        ∃ t w',
          construct samples p rng path (S fuel) w = Ok (t, w')
          ∧ m_num_nodes t = 0 ∧ isFinished t = false
          ∧ ∀ cs st, run_calls cs (t, w') = Ok st →
                     m_num_nodes st.1 = 0 ∧ isFinished st.1 = false).
Proof.
  split; [exact isFinished_iff|].
  intros samples p rng path fuel w Hp.
  unfold construct, construct_init. rewrite Hp.
  change (int_of_float (pow2m1 0)) with (Ok 0 : result Z).
  cbn [mbind result_bind]. destruct (getTickCount w) as [tk w1].
  cbn [mbind result_bind].
  rewrite grow_stop by (apply must_stop_at_depth; simpl; lia).
  rewrite (make_leaf_exact _ _ _ _ 0)
    by (simpl; rewrite ?Hp; unfold INT_MIN, INT_MAX; lia).
  cbn [mbind result_bind fst snd].
  eexists _, _. split; [reflexivity|]. split; [reflexivity|].
  split; [reflexivity|].
  intros cs st Hr. apply run_calls_config in Hr as (Hn & _ & _). simpl in Hn.
  split; [assumption | now apply isFinished_false_of_zero_budget].
Qed.

End Completion.

Lemma isFinished_budget_met_witness :
  ∃ t w',
    @construct IntSamples.collaborators [1; 2; 3] (IntSamples.param 0 1)
               0%nat "tree.txt" 1 IntSamples.world = Ok (t, w')
    ∧ m_num_nodes t = 0 ∧ isFinished t = false
    ∧ ∀ cs st, run_calls cs (t, w') = Ok st →
               m_num_nodes st.1 = 0 ∧ isFinished st.1 = false.
Proof.
  apply (proj2 (@isFinished_budget_met IntSamples.collaborators)
           [1; 2; 3] (IntSamples.param 0 1) 0%nat "tree.txt" 0%nat
           IntSamples.world).
  reflexivity.
Defined.

(** ** Update of a finished tree (C7) *)

Section UpdateFinished.
Context `{Collaborators}.

Lemma update_finished samples rng fuel st :
  isFinished st.1 = true →
  update samples rng fuel st = Ok (set_m_rng rng st.1, st.2).
Proof.
  intros Hf. unfold update. now rewrite isFinished_set_m_rng, Hf.
Qed.

(** C7, amended: [update(samples, rng)] on a finished tree leaves the
    counters, the node graph, the budget, the parameters, the save path,
    the checkpoint time and the file system as they are; the one member
    it writes is [m_rng], which becomes the generator passed in. *)
Theorem update_finished_keeps_all_but_rng samples rng fuel (st : Tree * World) :
  isFinished st.1 = true →
  ∃ t', update samples rng fuel st = Ok (t', st.2)
        ∧ m_rng t' = rng
        ∧ i_node t' = i_node st.1 ∧ i_leaf t' = i_leaf st.1
        ∧ root t' = root st.1 ∧ m_num_nodes t' = m_num_nodes st.1
        ∧ m_param t' = m_param st.1 ∧ m_save_path t' = m_save_path st.1
        ∧ m_ticks t' = m_ticks st.1.
Proof.
  intros Hf. exists (set_m_rng rng st.1).
  split; [now apply update_finished | repeat split].
Qed.

End UpdateFinished.

Lemma update_finished_keeps_all_but_rng_witness :
  ∃ t', @update IntSamples.collaborators [1; 2] 7%nat 0
          (IntSamples.finished_tree, IntSamples.world)
        = Ok (t', IntSamples.world)
        ∧ m_rng t' = 7%nat
        ∧ i_node t' = 1 ∧ i_leaf t' = 2
        ∧ root t' = Some IntSamples.split_root ∧ m_num_nodes t' = 1
        ∧ m_param t' = IntSamples.param 1 0 ∧ m_save_path t' = "tree.txt"
        ∧ m_ticks t' = f64_of_int 0.
Proof.
  apply (@update_finished_keeps_all_but_rng IntSamples.collaborators [1; 2] 7%nat
           0%nat (IntSamples.finished_tree, IntSamples.world)).
  reflexivity.
Defined.

(** C7 as stated fails: the tree is finished, and the call changes the
    member [m_rng] of the tree. *)
Lemma update_finished_writes_rng :
  isFinished IntSamples.finished_tree = true
  ∧ ∃ t', @update IntSamples.collaborators [1; 2] 7%nat 0
          (IntSamples.finished_tree, IntSamples.world)
          = Ok (t', IntSamples.world)
          ∧ t' ≠ IntSamples.finished_tree.
Proof.
  split; [reflexivity|].
  exists (@set_m_rng IntSamples.collaborators 7%nat IntSamples.finished_tree).
  split; [now apply (@update_finished IntSamples.collaborators)|].
  intros Heq. apply (f_equal m_rng) in Heq. discriminate Heq.
Qed.

(** ** The split mode (C10) *)

Section SplitMode.
Context `{Collaborators} `{!UniformIntContract}.

(** C10: a split search draws the split mode once from the generator of
    the tree, by [boost::uniform_int<>(0, 100)], so that it lies between 0
    and 100; the draw comes first, and the split generator receives that
    mode together with the generator as the draw left it. *)
Theorem split_mode_drawn_once_before_generation samples depth (t : Tree) :
  0 <= ntests (m_param t) →
  ∃ mode g1,
    uniform_int 0 100 (m_rng t) = (mode, g1)
    ∧ 0 <= mode <= 100
    ∧ generate_candidates samples depth t =
        (patch_size ← getPatchSize (m_param t);
         Ok (generate samples
               (replicate (Z.to_nat (ntests (m_param t))) default_split)
               g1 patch_size depth mode))
    ∧ ∀ b, findOptimalSplit samples b depth t =
        ('(splits, g2) ← generate_candidates samples depth t;
         let best := select_best splits (set_info_oob b lowest highest) in
         Ok (negb (SFeqb (info best) lowest), best, set_m_rng g2 t)).
Proof.
  intros Hn. pose proof (uniform_int_range 0 100 (m_rng t) ltac:(lia)) as Hr.
  destruct (uniform_int 0 100 (m_rng t)) as [mode g1] eqn:Hu.
  exists mode, g1. split; [reflexivity|]. split; [exact Hr|]. split.
  - unfold generate_candidates. rewrite Hu.
    destruct (ntests (m_param t) <? 0) eqn:E; [lia | reflexivity].
  - reflexivity.
Qed.

End SplitMode.

Lemma split_mode_drawn_once_before_generation_witness :
  ∃ mode g1,
    @uniform_int IntSamples.collaborators 0 100 (m_rng IntSamples.reloaded_tree)
      = (mode, g1)
    ∧ 0 <= mode <= 100
    ∧ generate_candidates [1; 2; 3] 0 IntSamples.reloaded_tree =
        (patch_size ← getPatchSize (m_param IntSamples.reloaded_tree);
         Ok (generate [1; 2; 3]
               (replicate (Z.to_nat (ntests (m_param IntSamples.reloaded_tree)))
                          default_split)
               g1 patch_size 0 mode))
    ∧ ∀ b, findOptimalSplit [1; 2; 3] b 0 IntSamples.reloaded_tree =
        ('(splits, g2) ← generate_candidates [1; 2; 3] 0 IntSamples.reloaded_tree;
         let best := select_best splits (set_info_oob b lowest highest) in
         Ok (negb (SFeqb (info best) lowest), best,
             set_m_rng g2 IntSamples.reloaded_tree)).
Proof.
  apply (@split_mode_drawn_once_before_generation IntSamples.collaborators
           int_samples_uniform [1; 2; 3] 0 IntSamples.reloaded_tree).
  vm_compute. discriminate.
Defined.

(** ** Choice of the split (C6) *)

Section SplitChoice.
Context `{Collaborators}.

Lemma findOptimalSplit_Ok samples b d t found best t' :
  findOptimalSplit samples b d t = Ok (found, best, t') →
  ∃ splits g2,
    generate_candidates samples d t = Ok (splits, g2)
    ∧ best = select_best splits (set_info_oob b lowest highest)
    ∧ found = negb (SFeqb (info best) lowest)
    ∧ t' = set_m_rng g2 t.
Proof.
  unfold findOptimalSplit. intros Hf.
  apply bind_Ok in Hf as ([splits g2] & Hg & Hf).
  inversion Hf; subst. eauto 10.
Qed.




End SplitChoice.


(** ** Resumption at a split node (C2) *)

Section Resumption.
Context `{Collaborators}.

(** C2, amended: on a node that already carries a split and is not
    stopped, [grow] routes the current samples through the stored split,
    counts the split by adding exactly 1 to [i_node] and nothing else,
    and recurses into the two existing children with the two subsets. *)
Theorem grow_resumes_stored_split fuel ctx d s l r samples (st : Tree * World) :
  must_stop (m_param st.1) (Internal d s l r) samples = false →
  i_node st.1 < INT_MAX → INT_MIN <= i_node st.1 →
  resume_split s samples st.1
    = Ok (applyOptimalSplit samples s, set_i_node (i_node st.1 + 1) st.1)
  ∧ grow (S fuel) ctx (Internal d s l r) samples st =
      ('(l', st1) ← grow fuel (λ x, ctx (Internal d s x r)) l
                      (applyOptimalSplit samples s).1
                      (set_i_node (i_node st.1 + 1) st.1, st.2);
       '(r', st2) ← grow fuel (λ x, ctx (Internal d s l' x)) r
                      (applyOptimalSplit samples s).2 st1;
       Ok (Internal d s l' r', st2)).
Proof.
  intros Hs Hmax Hmin.
  assert (Hr : resume_split s samples st.1
               = Ok (applyOptimalSplit samples s, set_i_node (i_node st.1 + 1) st.1)).
  { unfold resume_split.
    rewrite (int_check_in_range (i_node st.1 + 1)) by (unfold INT_MAX in *; lia).
    reflexivity. }
  split; [exact Hr|].
  rewrite grow_resume by assumption. rewrite Hr. reflexivity.
Qed.

End Resumption.

Lemma grow_resumes_stored_split_witness :
  resume_split IntSamples.stored_split [0; 1; 2; 3] IntSamples.reloaded_tree
    = Ok (applyOptimalSplit [0; 1; 2; 3] IntSamples.stored_split,
          set_i_node (i_node IntSamples.reloaded_tree + 1) IntSamples.reloaded_tree)
  ∧ @grow IntSamples.collaborators 2 id
      (Internal 0 IntSamples.stored_split IntSamples.leaf_child IntSamples.leaf_child)
      [0; 1; 2; 3] (IntSamples.reloaded_tree, IntSamples.world) =
      ('(l', st1) ← grow 1
           (λ x, id (Internal 0 IntSamples.stored_split x IntSamples.leaf_child))
           IntSamples.leaf_child
           (applyOptimalSplit [0; 1; 2; 3] IntSamples.stored_split).1
           (set_i_node (i_node IntSamples.reloaded_tree + 1)
              IntSamples.reloaded_tree, IntSamples.world);
       '(r', st2) ← grow 1
           (λ x, id (Internal 0 IntSamples.stored_split l' x))
           IntSamples.leaf_child
           (applyOptimalSplit [0; 1; 2; 3] IntSamples.stored_split).2 st1;
       Ok (Internal 0 IntSamples.stored_split l' r', st2)).
Proof.
  apply (@grow_resumes_stored_split IntSamples.collaborators 1 id 0
           IntSamples.stored_split IntSamples.leaf_child IntSamples.leaf_child
           [0; 1; 2; 3] (IntSamples.reloaded_tree, IntSamples.world)).
  - vm_compute. reflexivity.
  - vm_compute. reflexivity.
  - vm_compute. discriminate.
Defined.

(** C2 as stated fails: the reload block of [grow] itself moves [i_node]
    from 0 to 1; both children are leaves at the depth bound and add 0. *)
Lemma resumed_split_is_counted :
  must_stop (m_param IntSamples.reloaded_tree) IntSamples.split_root [0; 1; 2; 3]
    = false
  ∧ i_node IntSamples.reloaded_tree = 0
  ∧ returns (resume_split IntSamples.stored_split [0; 1; 2; 3]
                          IntSamples.reloaded_tree)
      (λ r, i_node r.2 = 1)
  ∧ returns (@grow IntSamples.collaborators 2 id IntSamples.split_root [0; 1; 2; 3]
               (IntSamples.reloaded_tree, IntSamples.world))
      (λ r, i_node r.2.1 = 1).
Proof. vm_compute. repeat split. Qed.

(** ** Counter steps of growth (C4) *)

Section CounterSteps.
Context `{Collaborators}.

Lemma make_leaf_counters ctx node samples (st : Tree * World) :
  leaf_step_exact node st.1 →
  ∃ st', make_leaf ctx node samples st
         = Ok (LeafNode (getDepth node) (makeLeaf samples), st')
    ∧ i_node st'.1
      = i_node st.1 + (2 ^ (max_depth (m_param st.1) - getDepth node) - 1)
    ∧ i_leaf st'.1 = i_leaf st.1 + 1.
Proof.
  intros (He & Hi & Hb & Hl).
  rewrite (make_leaf_exact ctx node samples st _ eq_refl) by assumption.
  eexists. split; [reflexivity|]. split; reflexivity.
Qed.

(** C4, amended: within the exact range of the counter arithmetic
    ([0 <= max_depth - d <= 24], [0 <= i_node],
    [i_node + 2^(max_depth - d) - 1 < 2^24], [i_leaf + 1] an [int]), a
    call of [grow] that makes a leaf at depth [d], because the stopping
    test holds or because the split search fails, adds exactly
    [2^(max_depth - d) - 1] to [i_node] and exactly 1 to [i_leaf]; a call
    that assigns a fresh split, with [i_node] below [INT_MAX], adds
    exactly 1 to [i_node] before it descends into the two new children. *)
Theorem grow_counter_steps fuel ctx node samples (st : Tree * World) :
  (must_stop (m_param st.1) node samples = true →
   leaf_step_exact node st.1 →
   ∃ st', grow (S fuel) ctx node samples st
          = Ok (LeafNode (getDepth node) (makeLeaf samples), st')
     ∧ i_node st'.1
       = i_node st.1 + (2 ^ (max_depth (m_param st.1) - getDepth node) - 1)
     ∧ i_leaf st'.1 = i_leaf st.1 + 1)
  ∧ (∀ best t,
       must_stop (m_param st.1) node samples = false →
       hasSplit node = false →
       findOptimalSplit samples default_split (getDepth node) st.1
         = Ok (false, best, t) →
       leaf_step_exact node st.1 →
       ∃ st', grow (S fuel) ctx node samples st
              = Ok (LeafNode (getDepth node) (makeLeaf samples), st')
         ∧ i_node st'.1
           = i_node st.1 + (2 ^ (max_depth (m_param st.1) - getDepth node) - 1)
         ∧ i_leaf st'.1 = i_leaf st.1 + 1)
  ∧ (∀ best t,
       must_stop (m_param st.1) node samples = false →
       hasSplit node = false →
       findOptimalSplit samples default_split (getDepth node) st.1
         = Ok (true, best, t) →
       INT_MIN <= i_node st.1 < INT_MAX →
       ∃ st0, assign_split ctx node best samples (t, st.2)
              = Ok (applyOptimalSplit samples best, st0)
         ∧ i_node st0.1 = i_node st.1 + 1
         ∧ i_leaf st0.1 = i_leaf st.1
         ∧ grow (S fuel) ctx node samples st =
             (let d := getDepth node in
              '(l', st1) ← grow fuel (λ x, ctx (Internal d best x (Unresolved (d + 1))))
                             (Unresolved (d + 1)) (applyOptimalSplit samples best).1 st0;
              '(r', st2) ← grow fuel (λ x, ctx (Internal d best l' x))
                             (Unresolved (d + 1)) (applyOptimalSplit samples best).2 st1;
              Ok (Internal d best l' r', st2))).
Proof.
  split; [|split].
  - intros Hs Hx. rewrite grow_stop by assumption. now apply make_leaf_counters.
  - intros best t Hs Hn Hf Hx. rewrite grow_search by assumption. rewrite Hf.
    cbn [mbind result_bind].
    apply findOptimalSplit_frame in Hf as [g ->].
    apply (make_leaf_counters ctx node samples (set_m_rng g st.1, st.2)).
    exact Hx.
  - intros best t Hs Hn Hf Hi. rewrite grow_search by assumption. rewrite Hf.
    cbn [mbind result_bind].
    apply findOptimalSplit_frame in Hf as [g ->].
    unfold assign_split.
    rewrite (int_check_in_range (i_node (set_m_rng g st.1, st.2).1 + 1))
      by (simpl; unfold INT_MAX in *; lia).
    cbn [mbind result_bind].
    match goal with |- context [saveAuto ?x] =>
      destruct (saveAuto_fields x) as (Hs1 & Hs2 & _) end.
    eexists. split; [reflexivity|]. split; [exact Hs1|]. split; [exact Hs2|].
    reflexivity.
Qed.

End CounterSteps.

Lemma grow_counter_steps_witness :
  let st := (IntSamples.fresh_tree, IntSamples.world) in
  let best := IntSamples.stored_split in
  (∃ st', @grow IntSamples.collaborators 1 id (Unresolved 0) [] st
          = Ok (LeafNode 0 (makeLeaf []), st')
     ∧ i_node st'.1 = 0 + (2 ^ (1 - 0) - 1) ∧ i_leaf st'.1 = 0 + 1)
  ∧ (∃ st', @grow IntSamples.collaborators 1 id (Unresolved 0) [5] st
            = Ok (LeafNode 0 (makeLeaf [5]), st')
       ∧ i_node st'.1 = 0 + (2 ^ (1 - 0) - 1) ∧ i_leaf st'.1 = 0 + 1)
  ∧ (∃ st0, assign_split id (Unresolved 0) best [0; 1; 2; 3]
              (IntSamples.searched_tree, IntSamples.world)
            = Ok (applyOptimalSplit [0; 1; 2; 3] best, st0)
       ∧ i_node st0.1 = 0 + 1
       ∧ i_leaf st0.1 = 0
       ∧ @grow IntSamples.collaborators 2 id (Unresolved 0) [0; 1; 2; 3] st =
           ('(l', st1) ← grow 1 (λ x, id (Internal 0 best x (Unresolved (0 + 1))))
                          (Unresolved (0 + 1))
                          (applyOptimalSplit [0; 1; 2; 3] best).1 st0;
            '(r', st2) ← grow 1 (λ x, id (Internal 0 best l' x))
                          (Unresolved (0 + 1))
                          (applyOptimalSplit [0; 1; 2; 3] best).2 st1;
            Ok (Internal 0 best l' r', st2))).
Proof.
  intros st best. split; [|split].
  - apply (proj1 (@grow_counter_steps IntSamples.collaborators 0%nat id
                    (Unresolved 0) [] st)).
    + vm_compute. reflexivity.
    + unfold leaf_step_exact. vm_compute. repeat split; discriminate.
  - apply (proj1 (proj2 (@grow_counter_steps IntSamples.collaborators 0%nat id
                    (Unresolved 0) [5] st))
             (mkSplit 0 0 lowest highest)
             IntSamples.searched_tree).
    + vm_compute. reflexivity.
    + reflexivity.
    + vm_compute. reflexivity.
    + unfold leaf_step_exact. vm_compute. repeat split; discriminate.
  - apply (proj2 (proj2 (@grow_counter_steps IntSamples.collaborators 1%nat id
                    (Unresolved 0) [0; 1; 2; 3] st))
             best IntSamples.searched_tree).
    + vm_compute. reflexivity.
    + reflexivity.
    + vm_compute. reflexivity.
    + vm_compute. split; [discriminate | reflexivity].
Defined.

(** C4 as stated fails outside that range: with 25 levels below the node
    the leaf block adds [2^25] to [i_node], one more than
    [2^(max_depth - d) - 1]: [powf(2.0f, 25) - 1] has no single-precision
    representation and rounds up. *)
Lemma leaf_at_25_levels_adds_a_power_of_two :
  let t := @mkTree IntSamples.collaborators 0%nat (f64_of_int 0) 33554432 0 0
                   (IntSamples.param 25 1) "tree.txt" (Some (Unresolved 0)) in
  let t' := @mkTree IntSamples.collaborators 0%nat (f64_of_int 0) 33554432
                    33554432 1 (IntSamples.param 25 1) "tree.txt"
                    (Some (LeafNode 0 0%nat)) in
  must_stop (m_param t) (Unresolved 0) [] = true
  ∧ grow 1 id (Unresolved 0) [] (t, IntSamples.world)
    = Ok (LeafNode 0 (makeLeaf []), (t', IntSamples.world))
  ∧ i_node t' = i_node t + 2 ^ (max_depth (m_param t) - 0)
  ∧ i_node t' ≠ i_node t + (2 ^ (max_depth (m_param t) - 0) - 1)
  ∧ i_leaf t' = i_leaf t + 1.
Proof.
  intros t t'. split; [by_evaluation|]. split; [by_evaluation|].
  split; [reflexivity|]. split; [|reflexivity].
  vm_compute. discriminate.
Qed.

(** ** Routing through a split (C8) *)

Section Routing.
Context `{Collaborators}.

#[global] Instance IntIndex_le_total : Total IntIndex_le.
Proof. intros [v1 i1] [v2 i2]. unfold IntIndex_le. simpl. lia. Qed.

#[global] Instance IntIndex_le_trans : Transitive IntIndex_le.
Proof. intros [v1 i1] [v2 i2] [v3 i3]. unfold IntIndex_le. simpl. lia. Qed.

#[global] Instance IntIndex_le_antisym : AntiSymm (=) IntIndex_le.
Proof.
  intros [v1 i1] [v2 i2]. unfold IntIndex_le. simpl. intros H1 H2.
  f_equal; lia.
Qed.



Lemma sorted_val_set_perm samples s : sorted_val_set samples s ≡ₚ val_set samples s.
Proof. apply merge_sort_Permutation. Qed.

Lemma sorted_val_set_sorted samples s :
  StronglySorted IntIndex_le (sorted_val_set samples s).
Proof. apply StronglySorted_merge_sort; apply _. Qed.

(** The result of [std::sort] is fixed by the vector: every sorted
    arrangement of [val_set] is the one of the model. *)
Lemma sorted_val_set_unique samples s vs :
  StronglySorted IntIndex_le vs → vs ≡ₚ val_set samples s →
  vs = sorted_val_set samples s.
Proof.
  intros Hs Hp. apply (StronglySorted_unique IntIndex_le); try assumption.
  - apply sorted_val_set_sorted.
  - now rewrite sorted_val_set_perm.
Qed.




End Routing.


(** ** Saving and loading (C1) *)

Section RoundTrip.
Context `{Collaborators} `{!LeafArchiveContract}.

Lemma load_ints_save zs rest :
  load_ints (length zs) ((IInt <$> zs) ++ rest) = Done (zs, rest).
Proof.
  induction zs as [|z zs IH]; [reflexivity|].
  cbn [length load_ints fmap list_fmap app load_int]. simpl.
  change (list_fmap Z item IInt zs) with (IInt <$> zs). now rewrite IH.
Qed.

Lemma load_param_save p rest : load_param (save_param p ++ rest) = Done (p, rest).
Proof.
  destruct p as [a b c d e f g h i j k]. unfold save_param, load_param.
  cbn [max_depth min_patches ntests ntrees nimages npatches face_size
       patch_size_ratio tree_path image_path features app].
  cbn [load_int load_float load_string mbind outcome_bind].
  unfold load_int_vector. cbn [load_int mbind outcome_bind].
  destruct (Z.ltb_spec (Z.of_nat (length k)) 0) as [Hneg|_]; [lia|].
  rewrite Nat2Z.id, load_ints_save. reflexivity.
Qed.

Lemma load_node_save n : ∀ fuel rest,
  (height n <= fuel)%nat → load_node fuel (save_node n ++ rest) = Done (n, rest).
Proof.
  induction n as [d|d lf|d s l IHl r IHr]; intros fuel rest Hf;
    (destruct fuel as [|fuel]; [simpl in Hf; lia|]).
  - reflexivity.
  - cbn [save_node load_node app]. rewrite load_save_leaf. reflexivity.
  - cbn [save_node load_node app height] in *.
    rewrite <- !app_assoc. rewrite IHl by lia.
    cbn [mbind outcome_bind app]. rewrite IHr by lia.
    destruct s. reflexivity.
Qed.

Lemma height_le_saved n : (height n <= length (save_node n))%nat.
Proof.
  induction n as [d|d lf|d s l IHl r IHr]; cbn [height save_node app length].
  - lia.
  - lia.
  - rewrite length_app. cbn [length]. lia.
Qed.

Lemma load_node_ptr_save o rest :
  load_node_ptr (save_node_ptr o ++ rest) = Done (o, rest).
Proof.
  destruct o as [n|]; [|reflexivity].
  cbn [save_node_ptr load_node_ptr app].
  rewrite load_node_save; [reflexivity|].
  rewrite length_app. pose proof (height_le_saved n). lia.
Qed.

(** Reading back what [serialize] wrote restores the five listed members. *)
Lemma serialize_in_out fresh t :
  serialize_in fresh (serialize_out t)
  = Done (mkTree (m_rng fresh) (m_ticks fresh) (m_num_nodes t) (i_node t)
                 (i_leaf fresh) (m_param t) (m_save_path t) (root t)).
Proof.
  unfold serialize_in, serialize_out.
  cbn [app load_int mbind outcome_bind].
  rewrite load_param_save.
  cbn [app load_string mbind outcome_bind].
  rewrite <- (app_nil_r (save_node_ptr (root t))), load_node_ptr_save.
  reflexivity.
Qed.

Lemma save_writes t w :
  m_save_path t ∉ locked w →
  files (save t w) !! m_save_path t = Some (serialize_out t).
Proof.
  intros Hl. unfold save. destruct (decide (m_save_path t ∈ locked w));
    [contradiction|].
  apply lookup_insert_eq.
Qed.

Lemma load_after_save fresh t w :
  m_save_path t ∉ locked w →
  load fresh (m_save_path t) (save t w)
  = Ok (true, Some (mkTree (m_rng fresh) (m_ticks fresh) (m_num_nodes t) (i_node t)
                           (i_leaf fresh) (m_param t) (m_save_path t) (root t))).
Proof.
  intros Hl. unfold load. rewrite save_writes by assumption.
  now rewrite serialize_in_out.
Qed.

(** C1, amended: for every tree, finished or not, whose save path can be
    written, [save()] followed by [load()] of that path succeeds and gives
    a tree with the same node graph, the same [i_node], [m_num_nodes],
    parameters and save path, and the same [isFinished()] value. The
    counter [i_leaf], the generator and the checkpoint time are not part
    of the snapshot: the loaded tree holds what the default-constructed
    object held. *)
Theorem save_then_load_restores_snapshot (fresh t : Tree) (w : World) :
  m_save_path t ∉ locked w →
  ∃ t', load fresh (m_save_path t) (save t w) = Ok (true, Some t')
    ∧ root t' = root t
    ∧ i_node t' = i_node t
    ∧ m_num_nodes t' = m_num_nodes t
    ∧ m_param t' = m_param t
    ∧ m_save_path t' = m_save_path t
    ∧ isFinished t' = isFinished t
    ∧ i_leaf t' = i_leaf fresh ∧ m_rng t' = m_rng fresh ∧ m_ticks t' = m_ticks fresh.
Proof.
  intros Hl. eexists. split; [now apply load_after_save|]. repeat split.
Qed.

End RoundTrip.

Lemma save_then_load_restores_snapshot_witness :
  ∃ t', load IntSamples.reloaded_tree (m_save_path IntSamples.finished_tree)
          (save IntSamples.finished_tree IntSamples.world) = Ok (true, Some t')
    ∧ root t' = root IntSamples.finished_tree
    ∧ i_node t' = i_node IntSamples.finished_tree
    ∧ m_num_nodes t' = m_num_nodes IntSamples.finished_tree
    ∧ m_param t' = m_param IntSamples.finished_tree
    ∧ m_save_path t' = m_save_path IntSamples.finished_tree
    ∧ isFinished t' = isFinished IntSamples.finished_tree
    ∧ i_leaf t' = i_leaf IntSamples.reloaded_tree
    ∧ m_rng t' = m_rng IntSamples.reloaded_tree
    ∧ m_ticks t' = m_ticks IntSamples.reloaded_tree.
Proof.
  apply (@save_then_load_restores_snapshot IntSamples.collaborators
           int_samples_archive IntSamples.reloaded_tree IntSamples.finished_tree
           IntSamples.world).
  simpl. apply not_elem_of_empty.
Defined.

(** C1 as stated fails: the saved tree has counted two leaves, the tree
    loaded from its snapshot into an object holding [i_leaf = 0] has not. *)
Lemma load_does_not_restore_leaf_count :
  ∃ t', load IntSamples.reloaded_tree (m_save_path IntSamples.finished_tree)
          (save IntSamples.finished_tree IntSamples.world) = Ok (true, Some t')
    ∧ i_leaf IntSamples.finished_tree = 2
    ∧ i_leaf t' = 0.
Proof.
  eexists. split.
  - apply (@load_after_save IntSamples.collaborators int_samples_archive).
    simpl. apply not_elem_of_empty.
  - split; reflexivity.
Qed.

(** ** Outcomes of loading (C9) *)

Section LoadOutcomes.
Context `{Collaborators}.







End LoadOutcomes.




(** ** The budget invariant (C3) *)

Section BudgetInvariant.
Context `{Collaborators}.

(** Inside a call of [grow] on a well-shaped node the counter moves between
    its value at entry and that value plus the budget of the subtree. *)
Lemma grow_visits_counters fuel ctx node samples st st_mid :
  grow_visits fuel ctx node samples st st_mid →
  ∀ d D,
    wf_node d node →
    max_depth (m_param st.1) = D →
    d <= D <= d + 24 →
    0 <= i_node st.1 →
    i_node st.1 + 2 ^ (D - d) - 1 < 2 ^ 24 →
    i_node st.1 <= i_node st_mid.1 <= i_node st.1 + (2 ^ (D - d) - 1)
    ∧ same_config st.1 st_mid.1.
Proof.
  induction 1 as
    [ fuel ctx node samples st
    | fuel ctx node samples st n' st' Hg
    | fuel ctx d0 s l r samples st sets t st_mid Hs Hr Hv IH
    | fuel ctx d0 s l r samples st sets t l' st1 st_mid Hs Hr Hgl Hv IH
    | fuel ctx node samples st best t sets st0 st_mid Hs Hn Hf Ha Hv IH
    | fuel ctx node samples st best t sets st0 l' st1 st_mid Hs Hn Hf Ha Hgl Hv IH ];
    intros d D Hwf HD Hd Hi Hb;
    assert (Hpow : 1 <= 2 ^ (D - d) <= 2 ^ 24) by (apply pow2_bounds; lia).
  - split; [lia | apply same_config_refl].
  - pose proof (grow_config _ _ _ _ _ _ _ Hg) as Hc.
    destruct (grow_counters _ _ _ _ _ _ _ _ _ Hwf HD Hd Hi Hb Hg) as (Hn & _).
    split; [lia | exact Hc].
  - simpl in Hwf. destruct Hwf as (-> & Hwl & Hwr).
    assert (Hlt : d < D).
    { destruct (Z_lt_ge_dec d D) as [|Hge]; [assumption|].
      rewrite must_stop_at_depth in Hs by (simpl; rewrite HD; lia). discriminate. }
    assert (Hhalf : 2 ^ (D - d) = 2 * 2 ^ (D - (d + 1))).
    { replace (D - d) with (D - (d + 1) + 1) by lia. apply pow2_step. lia. }
    assert (Hpow' : 1 <= 2 ^ (D - (d + 1)) <= 2 ^ 24) by (apply pow2_bounds; lia).
    apply resume_split_Ok in Hr as (_ & -> & _).
    destruct (IH (d + 1) D Hwl HD ltac:(lia) ltac:(simpl; lia) ltac:(simpl; lia))
      as (Hm & Hc).
    simpl in Hm. split; [lia|]. exact Hc.
  - simpl in Hwf. destruct Hwf as (-> & Hwl & Hwr).
    assert (Hlt : d < D).
    { destruct (Z_lt_ge_dec d D) as [|Hge]; [assumption|].
      rewrite must_stop_at_depth in Hs by (simpl; rewrite HD; lia). discriminate. }
    assert (Hhalf : 2 ^ (D - d) = 2 * 2 ^ (D - (d + 1))).
    { replace (D - d) with (D - (d + 1) + 1) by lia. apply pow2_step. lia. }
    assert (Hpow' : 1 <= 2 ^ (D - (d + 1)) <= 2 ^ 24) by (apply pow2_bounds; lia).
    apply resume_split_Ok in Hr as (_ & -> & _).
    pose proof (grow_config _ _ _ _ _ _ _ Hgl) as Hc1.
    destruct (grow_counters _ _ _ (d + 1) D _
                (set_i_node (i_node st.1 + 1) st.1, st.2) _ _ Hwl HD
                ltac:(lia) ltac:(simpl; lia) ltac:(simpl; lia) Hgl) as (Hn1 & _).
    simpl in Hn1, Hc1. destruct Hc1 as (Hc1a & Hc1b & Hc1c).
    assert (HD1 : max_depth (m_param st1.1) = D) by (rewrite Hc1b; exact HD).
    destruct (IH (d + 1) D Hwr HD1 ltac:(lia) ltac:(lia) ltac:(lia)) as (Hm & Hc).
    split; [lia|].
    eapply same_config_trans; [|exact Hc]. repeat split; assumption.
  - assert (Hnd : getDepth node = d) by (destruct node; simpl in *; tauto).
    assert (Hlt : d < D).
    { destruct (Z_lt_ge_dec d D) as [|Hge]; [assumption|].
      rewrite must_stop_at_depth in Hs by (rewrite Hnd, HD; lia). discriminate. }
    assert (Hhalf : 2 ^ (D - d) = 2 * 2 ^ (D - (d + 1))).
    { replace (D - d) with (D - (d + 1) + 1) by lia. apply pow2_step. lia. }
    assert (Hpow' : 1 <= 2 ^ (D - (d + 1)) <= 2 ^ 24) by (apply pow2_bounds; lia).
    apply findOptimalSplit_frame in Hf as [g ->].
    apply assign_split_Ok in Ha as (_ & -> & _).
    match type of Hv with context [saveAuto ?x] =>
      destruct (saveAuto_fields x) as (Hs1 & Hs2 & _ & _ & Hs3);
      set (st0 := saveAuto x) in * end.
    simpl in Hs1, Hs2, Hs3. destruct Hs3 as (Hs3a & Hs3b & Hs3c).
    rewrite Hnd in *.
    assert (HD0 : max_depth (m_param st0.1) = D) by (rewrite Hs3b; exact HD).
    destruct (IH (d + 1) D eq_refl HD0 ltac:(lia) ltac:(lia) ltac:(lia)) as (Hm & Hc).
    split; [lia|].
    eapply same_config_trans; [|exact Hc]. repeat split; assumption.
  - assert (Hnd : getDepth node = d) by (destruct node; simpl in *; tauto).
    assert (Hlt : d < D).
    { destruct (Z_lt_ge_dec d D) as [|Hge]; [assumption|].
      rewrite must_stop_at_depth in Hs by (rewrite Hnd, HD; lia). discriminate. }
    assert (Hhalf : 2 ^ (D - d) = 2 * 2 ^ (D - (d + 1))).
    { replace (D - d) with (D - (d + 1) + 1) by lia. apply pow2_step. lia. }
    assert (Hpow' : 1 <= 2 ^ (D - (d + 1)) <= 2 ^ 24) by (apply pow2_bounds; lia).
    apply findOptimalSplit_frame in Hf as [g ->].
    apply assign_split_Ok in Ha as (_ & -> & _).
    match type of Hgl with context [saveAuto ?x] =>
      destruct (saveAuto_fields x) as (Hs1 & Hs2 & _ & _ & Hs3);
      set (st0 := saveAuto x) in * end.
    simpl in Hs1, Hs2, Hs3. destruct Hs3 as (Hs3a & Hs3b & Hs3c).
    rewrite Hnd in *.
    assert (HD0 : max_depth (m_param st0.1) = D) by (rewrite Hs3b; exact HD).
    pose proof (grow_config _ _ _ _ _ _ _ Hgl) as (Hc1a & Hc1b & Hc1c).
    destruct (grow_counters _ _ (Unresolved (d + 1)) (d + 1) D _ _ _ _ eq_refl HD0
                ltac:(lia) ltac:(lia) ltac:(lia) Hgl) as (Hn1 & _).
    assert (HD1 : max_depth (m_param st1.1) = D) by (rewrite Hc1b; exact HD0).
    destruct (IH (d + 1) D eq_refl HD1 ltac:(lia) ltac:(lia) ltac:(lia)) as (Hm & Hc).
    split; [lia|].
    eapply same_config_trans; [|exact Hc].
    eapply same_config_trans; [|exact (conj Hc1a (conj Hc1b Hc1c))].
    repeat split; assumption.
Qed.

Lemma budget_invariant_of_bound t :
  m_num_nodes t ≠ 0 → i_node t <= m_num_nodes t → budget_invariant t.
Proof.
  intros Hn Hle. split; [assumption|]. rewrite isFinished_iff. tauto.
Qed.

(** A constructed tree is finished. *)
Lemma construct_finished samples p rng path fuel w st :
  1 <= max_depth p <= 24 →
  construct samples p rng path fuel w = Ok st →
  m_num_nodes st.1 = 2 ^ max_depth p - 1 ∧ i_node st.1 = m_num_nodes st.1
  ∧ isFinished st.1 = true.
Proof.
  intros Hd Hc. unfold construct in Hc.
  apply bind_Ok in Hc as (st0 & H0 & Hc).
  apply bind_Ok in Hc as ([n' st1] & Hg & Hc). inversion Hc; subst st. simpl.
  apply construct_init_Ok in H0 as (Hn & Hp & _ & Hi & _ & _).
  rewrite int_of_float_pow2m1 in Hn by lia. inversion Hn as [Hn'].
  pose proof (pow2_bounds (max_depth p) ltac:(lia)) as Hpow.
  assert (Hpow1 : 2 <= 2 ^ max_depth p).
  { change 2 with (2 ^ 1) at 1. apply Z.pow_le_mono_r; lia. }
  pose proof (grow_config _ _ _ _ _ _ _ Hg) as (Hc1 & _ & _).
  assert (HD : max_depth (m_param st0.1) = max_depth p) by (now rewrite Hp).
  destruct (grow_counters _ _ (Unresolved 0) 0 (max_depth p) _ st0 _ _ eq_refl
              HD ltac:(lia) ltac:(lia)
              ltac:(rewrite Hi, Z.sub_0_r; lia) Hg) as (Hn1 & _).
  rewrite Hi, Z.sub_0_r in Hn1.
  assert (Heq : i_node st1.1 = m_num_nodes st1.1) by lia.
  split; [lia|]. split; [exact Heq|]. apply isFinished_iff. split; [exact Heq | lia].
Qed.

Lemma run_updates_finished cs : ∀ st st',
  forallb is_update cs = true → isFinished st.1 = true →
  run_calls cs st = Ok st' →
  isFinished st'.1 = true ∧ i_node st'.1 = i_node st.1
  ∧ m_num_nodes st'.1 = m_num_nodes st.1.
Proof.
  induction cs as [|c cs IH]; intros st st' Hall Hf Hr; simpl in Hr.
  - inversion Hr; subst. auto.
  - simpl in Hall. apply andb_true_iff in Hall as [Hc Hall].
    destruct c as [samples rng fuel|]; [|discriminate]. simpl in Hr.
    rewrite update_finished in Hr by assumption. simpl in Hr.
    apply IH in Hr as (H1 & H2 & H3); auto.
Qed.

(** C3, amended: with [1 <= max_depth <= 24], the range in which the
    single-precision budget arithmetic is exact, every state returned by
    the constructor and by any sequence of [update] calls after it, and
    every state that the [grow] calls made by the constructor pass
    through, has [i_node <= m_num_nodes], with equality exactly when
    [isFinished()] holds. *)
Theorem budget_invariant_of_construct_and_update
    samples p rng path fuel w :
  1 <= max_depth p <= 24 →
  (∀ cs st, forallb is_update cs = true →
            construct samples p rng path fuel w ≫= run_calls cs = Ok st →
            budget_invariant st.1)
  ∧ (∀ st0 st_mid,
        construct_init p rng path w = Ok st0 →
        grow_visits fuel id (Unresolved 0) samples st0 st_mid →
        budget_invariant st_mid.1).
Proof.
  intros Hd.
  pose proof (pow2_bounds (max_depth p) ltac:(lia)) as Hpow.
  assert (Hpow1 : 2 <= 2 ^ max_depth p).
  { change 2 with (2 ^ 1) at 1. apply Z.pow_le_mono_r; lia. }
  split.
  - intros cs st Hall Hr. apply bind_Ok in Hr as (st1 & Hc & Hr).
    destruct (construct_finished _ _ _ _ _ _ _ Hd Hc) as (Hn & Hi & Hf).
    apply run_updates_finished in Hr as (Hf' & Hi' & Hn'); try assumption.
    apply budget_invariant_of_bound; lia.
  - intros st0 st_mid H0 Hv.
    apply construct_init_Ok in H0 as (Hn & Hp & _ & Hi & _ & _).
    rewrite int_of_float_pow2m1 in Hn by lia. inversion Hn as [Hn'].
    assert (HD : max_depth (m_param st0.1) = max_depth p) by (now rewrite Hp).
    destruct (grow_visits_counters _ _ _ _ _ _ Hv 0 (max_depth p) eq_refl
                HD ltac:(lia) ltac:(lia)
                ltac:(rewrite Hi, Z.sub_0_r; lia)) as (Hm & (Hc & _)).
    rewrite Hi, Z.sub_0_r in Hm.
    apply budget_invariant_of_bound; lia.
Qed.

(** Resumption: [update] on a reloaded snapshot with a well-shaped node
    graph recounts the whole tree and ends on the budget. *)
Lemma update_reaches_budget samples rng fuel st st' r :
  1 <= max_depth (m_param st.1) <= 24 →
  m_num_nodes st.1 = 2 ^ max_depth (m_param st.1) - 1 →
  root st.1 = Some r → wf_node 0 r →
  update samples rng fuel st = Ok st' →
  isFinished st'.1 = true ∧ i_node st'.1 = m_num_nodes st'.1.
Proof.
  intros Hd Hn Hroot Hwf Hu.
  pose proof (pow2_bounds (max_depth (m_param st.1)) ltac:(lia)) as Hpow.
  assert (Hpow1 : 2 <= 2 ^ max_depth (m_param st.1)).
  { change 2 with (2 ^ 1) at 1. apply Z.pow_le_mono_r; lia. }
  unfold update in Hu. rewrite isFinished_set_m_rng in Hu.
  destruct (isFinished st.1) eqn:Hf.
  - inversion Hu; subst st'. simpl. split; [exact Hf|].
    now apply isFinished_iff in Hf.
  - destruct (getTickCount st.2) as [tk w1].
    cbn [root set_m_ticks set_i_leaf set_i_node set_m_rng] in Hu.
    rewrite Hroot in Hu.
    apply bind_Ok in Hu as ([n' st1] & Hg & Hu). inversion Hu; subst st'. simpl.
    pose proof (grow_config _ _ _ _ _ _ _ Hg) as (Hc1 & _ & _). simpl in Hc1.
    assert (Hb : 0 + 2 ^ (max_depth (m_param st.1) - 0) - 1 < 2 ^ 24)
      by (rewrite Z.sub_0_r; lia).
    destruct (grow_counters _ _ r 0 (max_depth (m_param st.1)) _
                (set_m_ticks (f64_of_int tk)
                   (set_i_leaf 0 (set_i_node 0 (set_m_rng rng st.1))), w1)
                _ _ Hwf eq_refl ltac:(lia) (Z.le_refl 0) Hb Hg) as (Hn1 & _).
    simpl in Hn1. rewrite Z.sub_0_r in Hn1.
    assert (Heq : i_node st1.1 = m_num_nodes st1.1) by lia.
    split; [|exact Heq]. apply isFinished_iff. split; [exact Heq | lia].
Qed.

(** With a recursion bound above [max_depth] and usable parameters the
    constructor returns. *)
Lemma construct_returns samples p rng path fuel w :
  0 <= max_depth p <= 24 → usable_param p → (Z.to_nat (max_depth p) < fuel)%nat →
  ∃ st, construct samples p rng path fuel w = Ok st.
Proof.
  intros Hd Hu Hfuel. pose proof (pow2_bounds (max_depth p) Hd) as Hpow.
  unfold construct, construct_init.
  rewrite int_of_float_pow2m1 by assumption. cbn [mbind result_bind].
  destruct (getTickCount w) as [tk w1]. cbn [mbind result_bind].
  set (st0 := (mkTree rng (f64_of_int tk) (2 ^ max_depth p - 1) 0 0 p path
                      (Some (Unresolved 0)), w1)).
  destruct (grow_returns fuel id (Unresolved 0) 0 (max_depth p) samples st0)
    as (n' & st' & Hg).
  - reflexivity.
  - reflexivity.
  - lia.
  - simpl. lia.
  - simpl. rewrite Z.sub_0_r. lia.
  - simpl. lia.
  - simpl. rewrite Z.sub_0_r. unfold INT_MAX. lia.
  - exact Hu.
  - rewrite Z.sub_0_r. exact Hfuel.
  - rewrite Hg. cbn [mbind result_bind]. eauto.
Qed.

End BudgetInvariant.

Lemma budget_invariant_of_construct_and_update_witness :
  (∀ cs st, forallb is_update cs = true →
            @construct IntSamples.collaborators [0; 1; 2; 3] (IntSamples.param 1 1)
                       0%nat "tree.txt" 3 IntSamples.world ≫= run_calls cs = Ok st →
            budget_invariant st.1)
  ∧ (∀ st0 st_mid,
        @construct_init IntSamples.collaborators (IntSamples.param 1 1) 0%nat
                        "tree.txt" IntSamples.world = Ok st0 →
        grow_visits 3 id (Unresolved 0) [0; 1; 2; 3] st0 st_mid →
        budget_invariant st_mid.1).
Proof.
  apply (@budget_invariant_of_construct_and_update IntSamples.collaborators
           [0; 1; 2; 3] (IntSamples.param 1 1) 0%nat "tree.txt" 3%nat
           IntSamples.world).
  vm_compute. split; discriminate.
Defined.

(** A depth-1 tree over four samples: the constructor returns, and the tree
    is finished after a further update. *)
Lemma constructed_and_updated_tree_finished :
  returns (@construct IntSamples.collaborators [0; 1; 2; 3] (IntSamples.param 1 1)
                      0%nat "tree.txt" 3 IntSamples.world
           ≫= run_calls [CallUpdate [0; 1] 5%nat 3])
    (λ st, i_node st.1 = 1 ∧ m_num_nodes st.1 = 1 ∧ i_leaf st.1 = 2
           ∧ isFinished st.1 = true).
Proof. vm_compute. repeat split. Qed.

(** C3 as stated fails: [grow] is a public member, and a call of it on the
    root of a finished tree counts the root leaf a second time; [i_node]
    is then 2 with a budget of 1. *)
Lemma direct_grow_exceeds_budget :
  returns (@construct IntSamples.collaborators [] (IntSamples.param 1 1)
                      0%nat "tree.txt" 1 IntSamples.world
           ≫= run_calls [CallGrow [] 1])
    (λ st, 1 <= max_depth (m_param st.1)
           ∧ i_node st.1 = 2 ∧ m_num_nodes st.1 = 1
           ∧ ¬ budget_invariant st.1).
Proof.
  vm_compute. split; [discriminate|]. split; [reflexivity|].
  split; [reflexivity|]. intros [Hle _]. apply Hle. reflexivity.
Qed.

(** ** Worked scenarios *)

Section Scenarios.
Import IntSamples.

(** Depth 2, every batch allowed to split: the root and both nodes of depth
    1 split, the four nodes of depth 2 become leaves and add nothing. *)
Lemma scenario_every_node_splits :
  returns (construct [0; 1; 2; 3; 4; 5; 6; 7] (param 2 1) 0%nat "tree.txt" 3 world)
    (λ st, i_node st.1 = 3 ∧ m_num_nodes st.1 = 3 ∧ i_leaf st.1 = 4
           ∧ isFinished st.1 = true).
Proof. vm_compute. repeat split. Qed.

(** Depth 2, at least five samples to split: the root splits eight samples
    into four and four, and each child is forced to a leaf of depth 1 that
    adds [2^(2-1) - 1 = 1]. *)
Lemma scenario_small_batches_become_leaves :
  returns (construct [0; 1; 2; 3; 4; 5; 6; 7] (param 2 5) 0%nat "tree.txt" 3 world)
    (λ st, i_node st.1 = 3 ∧ m_num_nodes st.1 = 3 ∧ i_leaf st.1 = 2
           ∧ isFinished st.1 = true).
Proof. vm_compute. repeat split. Qed.

(** A recursion bound below the depth of the tree only exhausts the model. *)
Lemma scenario_bound_too_small :
  construct [0; 1; 2; 3; 4; 5; 6; 7] (param 2 1) 0%nat "tree.txt" 2 world = OutOfFuel.
Proof. vm_compute. reflexivity. Qed.

(** Outside the exact range the single-precision sum rounds: with 25 levels
    below the node, [powf(2.0f, 25) - 1] is [2^25] and not [2^25 - 1]. *)
Lemma pow2m1_rounds_at_25_levels :
  int_of_float (pow2m1 25) = Ok (2 ^ 25)
  ∧ add_assign_float 0 (pow2m1 25) = Ok (2 ^ 25).
Proof. split; vm_compute; reflexivity. Qed.

End Scenarios.

(** * Further properties of the tree *)

(** ** What growth returns *)

Section Shape.
Context `{Collaborators}.

Lemma refines_createLeaf node samples : refines node (createLeaf node samples).
Proof. destruct node; simpl; reflexivity. Qed.

Lemma must_stop_false p node samples :
  must_stop p node samples = false →
  isLeaf node = false ∧ getDepth node < max_depth p
  ∧ min_patches p <= int_of_size (length samples).
Proof.
  unfold must_stop. intros Hs.
  apply orb_false_iff in Hs as [Hs Hl]. apply orb_false_iff in Hs as [Hn Hd].
  repeat split; [assumption | lia | lia].
Qed.

(** What growth returns, whatever the state it starts from: a graph without
    unresolved nodes, of the depth of the node it was called on, that keeps
    the stored splits; the root of the tree is rebuilt around it. *)
Lemma grow_shape fuel : ∀ ctx node samples st n' st',
  grow fuel ctx node samples st = Ok (n', st') →
  resolved n' = true ∧ getDepth n' = getDepth node ∧ refines node n'
  ∧ root st'.1 = Some (ctx n')
  ∧ Forall (λ ds, ds.1 < max_depth (m_param st.1)) (splits_of n')
  ∧ (∀ d, wf_node d node → wf_node d n').
Proof.
  induction fuel as [|fuel IH]; intros ctx node samples st n' st' Hg;
    [discriminate|].
  destruct (must_stop (m_param st.1) node samples) eqn:Hs.
  - rewrite grow_stop in Hg by assumption.
    apply make_leaf_Ok in Hg as (e & i & l & _ & _ & _ & -> & ->).
    split; [reflexivity|]. split; [reflexivity|].
    split; [apply refines_createLeaf|]. split; [reflexivity|].
    split; [constructor|].
    intros d Hwf. destruct node; simpl in *; tauto.
  - apply must_stop_false in Hs as Hs'. destruct Hs' as (Hleaf & Hdepth & _).
    destruct (hasSplit node) eqn:Hn.
    + destruct node as [d0|d0 lf|d0 s l r]; try discriminate.
      rewrite grow_resume in Hg by assumption.
      apply bind_Ok in Hg as ([sets t] & Hr & Hg).
      apply bind_Ok in Hg as ([l' st1] & Hl & Hg).
      apply bind_Ok in Hg as ([r' st2] & Hr' & Hg).
      inversion Hg; subst n' st2. apply resume_split_Ok in Hr as (_ & -> & _).
      pose proof (grow_config _ _ _ _ _ _ _ Hl) as (_ & Hp1 & _). simpl in Hp1.
      apply IH in Hl as (Hl1 & Hl2 & Hl3 & Hl4 & Hl5 & Hl6).
      apply IH in Hr' as (Hr1 & Hr2 & Hr3 & Hr4 & Hr5 & Hr6).
      simpl in *. rewrite Hl1, Hr1. rewrite Hp1 in Hr5.
      split; [reflexivity|]. split; [reflexivity|]. split; [auto|].
      split; [assumption|]. split.
      * constructor; [exact Hdepth|]. apply Forall_app. auto.
      * intros d (-> & Hwl & Hwr). auto.
    + assert (Hun : node = Unresolved (getDepth node)).
      { destruct node; simpl in *; try discriminate. reflexivity. }
      rewrite grow_search in Hg by assumption.
      apply bind_Ok in Hg as ([[found best] t] & Hf & Hg).
      apply findOptimalSplit_frame in Hf as [g ->].
      destruct found.
      * apply bind_Ok in Hg as ([sets st0] & Ha & Hg).
        apply bind_Ok in Hg as ([l' st1] & Hl & Hg).
        apply bind_Ok in Hg as ([r' st2] & Hr' & Hg).
        inversion Hg; subst n' st2. apply assign_split_Ok in Ha as (_ & -> & _).
        match type of Hl with context [saveAuto ?x] =>
          destruct (saveAuto_fields x) as (_ & _ & _ & _ & (_ & Hs3 & _));
          set (st0 := saveAuto x) in * end.
        simpl in Hs3.
        pose proof (grow_config _ _ _ _ _ _ _ Hl) as (_ & Hp1 & _).
        apply IH in Hl as (Hl1 & Hl2 & Hl3 & Hl4 & Hl5 & Hl6).
        apply IH in Hr' as (Hr1 & Hr2 & Hr3 & Hr4 & Hr5 & Hr6).
        rewrite Hp1, Hs3 in Hr5. rewrite Hs3 in Hl5.
        simpl in *. rewrite Hl1, Hr1.
        split; [reflexivity|]. split; [reflexivity|]. split.
        { rewrite Hun. reflexivity. }
        split; [assumption|]. split.
        { constructor; [exact Hdepth|]. apply Forall_app. auto. }
        intros d Hwf. rewrite Hun in Hwf. simpl in Hwf. subst d.
        split; [reflexivity|]. split; [apply Hl6 | apply Hr6]; reflexivity.
      * apply make_leaf_Ok in Hg as (e & i & l & _ & _ & _ & -> & ->).
        split; [reflexivity|]. split; [reflexivity|].
        split; [apply refines_createLeaf|]. split; [reflexivity|].
        split; [constructor|].
        intros d Hwf. destruct node; simpl in *; tauto.
Qed.

End Shape.

(** ** Height and leaves of a node graph *)

Section Depth.
Context `{Collaborators}.

Lemma height_bound D : ∀ n d,
  wf_node d n → Forall (λ ds : Z * Split, ds.1 < D) (splits_of n) →
  (height n <= S (Z.to_nat (D - d)))%nat.
Proof.
  induction n as [d0|d0 lf|d0 s l IHl r IHr]; intros d Hwf Hall;
    cbn [height]; try lia.
  simpl in Hwf. destruct Hwf as (-> & Hwl & Hwr).
  simpl in Hall. apply Forall_cons in Hall as [Hd Hall]. simpl in Hd.
  apply Forall_app in Hall as [Hal Har].
  specialize (IHl (d + 1) Hwl Hal). specialize (IHr (d + 1) Hwr Har).
  assert (S (Z.to_nat (D - (d + 1))) = Z.to_nat (D - d)) by lia. lia.
Qed.

Lemma leaves_payloads n : leaves n = Z.of_nat (length (payloads n)).
Proof.
  induction n as [d0|d0 lf|d0 s l IHl r IHr]; cbn [leaves payloads length];
    try reflexivity.
  rewrite length_app, IHl, IHr. lia.
Qed.

End Depth.

(** ** The descent of [evaluateMT] *)

Section Evaluation.
Context `{Collaborators} `{!NodeTest}.

Lemma evaluateMT_payload sample : ∀ n lf,
  evaluateMT sample n = Ok lf → lf ∈ payloads n.
Proof.
  induction n as [d0|d0 lf0|d0 s l IHl r IHr]; intros lf He; simpl in He.
  - discriminate.
  - inversion He; subst. simpl. apply list_elem_of_singleton. reflexivity.
  - simpl. apply elem_of_app. destruct (eval sample s); auto.
Qed.

Lemma evaluateMT_resolved sample : ∀ n,
  resolved n = true → ∃ lf, evaluateMT sample n = Ok lf.
Proof.
  induction n as [d0|d0 lf0|d0 s l IHl r IHr]; intros Hr; simpl in *.
  - discriminate.
  - eauto.
  - apply andb_true_iff in Hr as [Hl Hr]. destruct (eval sample s); auto.
Qed.

End Evaluation.

(** ** What growth leaves untouched in the environment *)

Section Frame.
Context `{Collaborators}.

Lemma same_world_except_refl path w : same_world_except path w w.
Proof. repeat split; auto. Qed.

Lemma same_world_except_trans path w1 w2 w3 :
  same_world_except path w1 w2 → same_world_except path w2 w3 →
  same_world_except path w1 w3.
Proof.
  intros (Hf1 & Hl1 & Hs1 & Hq1 & Hr1) (Hf2 & Hl2 & Hs2 & Hq2 & Hr2).
  repeat split; try congruence; [|lia].
  intros p Hp. rewrite Hf2, Hf1 by assumption. reflexivity.
Qed.

Lemma save_world t w : same_world_except (m_save_path t) w (save t w).
Proof.
  unfold save. destruct (decide (m_save_path t ∈ locked w));
    [apply same_world_except_refl|].
  repeat split; simpl; auto.
  intros p Hp. now apply lookup_insert_ne.
Qed.

Lemma getTickCount_world path w : same_world_except path w (getTickCount w).2.
Proof. repeat split; simpl; auto. Qed.

Lemma saveAuto_world st :
  same_world_except (m_save_path st.1) st.2 (saveAuto st).2.
Proof.
  unfold saveAuto.
  pose proof (getTickCount_world (m_save_path st.1) st.2) as Hw.
  destruct (getTickCount st.2) as [tk w]. simpl in Hw.
  destruct (SFltb _ _); simpl; [|exact Hw].
  eapply same_world_except_trans; [exact Hw|].
  apply (save_world (set_m_ticks (f64_of_int tk) st.1) w).
Qed.

(** Growth writes no file but the one at the save path of the tree. *)
Lemma grow_world fuel : ∀ ctx node samples st n' st',
  grow fuel ctx node samples st = Ok (n', st') →
  same_world_except (m_save_path st.1) st.2 st'.2.
Proof.
  induction fuel as [|fuel IH]; intros ctx node samples st n' st' Hg;
    [discriminate|].
  destruct (must_stop (m_param st.1) node samples) eqn:Hs.
  - rewrite grow_stop in Hg by assumption.
    apply make_leaf_Ok in Hg as (e & i & l & _ & _ & _ & _ & ->).
    apply same_world_except_refl.
  - destruct (hasSplit node) eqn:Hn.
    + destruct node as [d0|d0 lf|d0 s l r]; try discriminate.
      rewrite grow_resume in Hg by assumption.
      apply bind_Ok in Hg as ([sets t] & Hr & Hg).
      apply bind_Ok in Hg as ([l' st1] & Hl & Hg).
      apply bind_Ok in Hg as ([r' st2] & Hr' & Hg).
      inversion Hg; subst n' st2. apply resume_split_Ok in Hr as (_ & -> & _).
      pose proof (grow_config _ _ _ _ _ _ _ Hl) as (_ & _ & Hp1). simpl in Hp1.
      apply IH in Hl. apply IH in Hr'. rewrite Hp1 in Hr'. simpl in Hl.
      eapply same_world_except_trans; eassumption.
    + rewrite grow_search in Hg by assumption.
      apply bind_Ok in Hg as ([[found best] t] & Hf & Hg).
      apply findOptimalSplit_frame in Hf as [g ->].
      destruct found.
      * apply bind_Ok in Hg as ([sets st0] & Ha & Hg).
        apply bind_Ok in Hg as ([l' st1] & Hl & Hg).
        apply bind_Ok in Hg as ([r' st2] & Hr' & Hg).
        inversion Hg; subst n' st2. apply assign_split_Ok in Ha as (_ & -> & _).
        match type of Hl with context [saveAuto ?x] =>
          pose proof (saveAuto_world x) as Hw0;
          destruct (saveAuto_fields x) as (_ & _ & _ & _ & (_ & _ & Hs3));
          set (st0 := saveAuto x) in * end.
        simpl in Hs3, Hw0.
        pose proof (grow_config _ _ _ _ _ _ _ Hl) as (_ & _ & Hp1).
        apply IH in Hl. apply IH in Hr'. rewrite Hp1, Hs3 in Hr'. rewrite Hs3 in Hl.
        eapply same_world_except_trans; [exact Hw0|].
        eapply same_world_except_trans; eassumption.
      * apply make_leaf_Ok in Hg as (e & i & l & _ & _ & _ & _ & ->).
        apply same_world_except_refl.
Qed.

End Frame.

(** ** Evaluation of a sample *)

Section EvaluationResults.
Context `{Collaborators} `{!NodeTest}.

(** X1: on a node graph without unresolved nodes [evaluateMT] returns, for
    every sample, the payload of one of the leaves of the graph; and on any
    graph a payload it returns is the payload of a leaf of that graph. *)
Theorem evaluateMT_returns_a_leaf sample (n : TreeNode) :
  (resolved n = true → ∃ lf, evaluateMT sample n = Ok lf ∧ lf ∈ payloads n)
  ∧ (∀ lf, evaluateMT sample n = Ok lf → lf ∈ payloads n).
Proof.
  split.
  - intros Hr. destruct (evaluateMT_resolved sample n Hr) as [lf He].
    exists lf. split; [exact He | now apply evaluateMT_payload in He].
  - intros lf. apply evaluateMT_payload.
Qed.

Lemma construct_Ok samples p rng path fuel w t w' :
  construct samples p rng path fuel w = Ok (t, w') →
  ∃ st0 n' st1,
    construct_init p rng path w = Ok st0
    ∧ grow fuel id (Unresolved 0) samples st0 = Ok (n', st1)
    ∧ t = st1.1 ∧ w' = save st1.1 st1.2.
Proof.
  unfold construct. intros Hc.
  apply bind_Ok in Hc as (st0 & Hinit & Hc).
  apply bind_Ok in Hc as ([n' st1] & Hg & Hc).
  inversion Hc; subst. eauto 10.
Qed.

(** X2: with [0 <= max_depth <= 24], usable parameters and a recursion
    bound above [max_depth], the constructor returns a tree whose root
    graph has no unresolved node, and [evaluateMT] from that root returns
    a leaf payload of the tree for every sample. *)
Theorem constructed_tree_evaluates_every_sample samples p rng path fuel w :
  0 <= max_depth p <= 24 → usable_param p → (Z.to_nat (max_depth p) < fuel)%nat →
  ∃ t w' r,
    construct samples p rng path fuel w = Ok (t, w')
    ∧ root t = Some r ∧ resolved r = true
    ∧ ∀ sample, ∃ lf, evaluateMT sample r = Ok lf ∧ lf ∈ payloads r.
Proof.
  intros Hd Hu Hfuel.
  destruct (construct_returns samples p rng path fuel w Hd Hu Hfuel) as [[t w'] Hc].
  destruct (construct_Ok _ _ _ _ _ _ _ _ Hc) as (st0 & n' & st1 & _ & Hg & -> & ->).
  apply grow_shape in Hg as (Hres & _ & _ & Hroot & _).
  exists st1.1, (save st1.1 st1.2), n'.
  split; [exact Hc|]. split; [exact Hroot|]. split; [exact Hres|].
  intros sample. destruct (evaluateMT_resolved sample n' Hres) as [lf He].
  exists lf. split; [exact He | now apply evaluateMT_payload in He].
Qed.

End EvaluationResults.

Lemma constructed_tree_evaluates_every_sample_witness :
  ∃ t w' r,
    @construct IntSamples.collaborators [0; 1; 2; 3] (IntSamples.param 1 1)
               0%nat "tree.txt" 3 IntSamples.world = Ok (t, w')
    ∧ root t = Some r ∧ resolved r = true
    ∧ ∀ sample, ∃ lf, evaluateMT sample r = Ok lf ∧ lf ∈ payloads r.
Proof.
  apply (@constructed_tree_evaluates_every_sample IntSamples.collaborators
           int_samples_test [0; 1; 2; 3] (IntSamples.param 1 1) 0%nat
           "tree.txt" 3%nat IntSamples.world).
  - vm_compute. split; discriminate.
  - split; [vm_compute; discriminate|]. eexists. vm_compute. reflexivity.
  - vm_compute. lia.
Defined.

(** ** Shape of a grown graph *)

Section GrownShape.
Context `{Collaborators}.

(** X3: whatever [grow] returns has no unresolved node left, has the depth
    of the node it was called on and keeps what was stored: a leaf is
    still a leaf, and a node that had a split either carries the same
    split over children grown from its children or has become a leaf.
    The root of the tree is rebuilt around the grown node. *)
Theorem grow_keeps_stored_splits fuel ctx node samples (st : Tree * World) n' st' :
  grow fuel ctx node samples st = Ok (n', st') →
  refines node n' ∧ resolved n' = true ∧ getDepth n' = getDepth node
  ∧ root st'.1 = Some (ctx n').
Proof.
  intros Hg. apply grow_shape in Hg as (H1 & H2 & H3 & H4 & _). auto.
Qed.

(** X4: no split is ever stored at depth [max_depth] or below it. A graph
    grown from a well-shaped node of depth [d] is well-shaped, and its
    leaves lie at most [max_depth - d] levels below its root. *)
Theorem grow_respects_max_depth fuel ctx node samples (st : Tree * World) n' st' d :
  wf_node d node →
  grow fuel ctx node samples st = Ok (n', st') →
  wf_node d n'
  ∧ Forall (λ ds, ds.1 < max_depth (m_param st.1)) (splits_of n')
  ∧ (height n' <= S (Z.to_nat (max_depth (m_param st.1) - d)))%nat.
Proof.
  intros Hwf Hg. apply grow_shape in Hg as (_ & _ & _ & _ & Hall & Hw).
  specialize (Hw d Hwf). split; [exact Hw|]. split; [exact Hall|].
  now apply height_bound.
Qed.

End GrownShape.

Lemma grow_keeps_stored_splits_witness :
  @grow IntSamples.collaborators 2 id IntSamples.split_root [0; 1; 2; 3]
        (IntSamples.reloaded_tree, IntSamples.world)
  = Ok (IntSamples.split_root, (IntSamples.finished_tree, IntSamples.world))
  ∧ refines IntSamples.split_root IntSamples.split_root
  ∧ resolved IntSamples.split_root = true
  ∧ getDepth IntSamples.split_root = getDepth IntSamples.split_root
  ∧ root (IntSamples.finished_tree, IntSamples.world).1
    = Some (id IntSamples.split_root).
Proof.
  split; [by_evaluation|].
  apply (@grow_keeps_stored_splits IntSamples.collaborators 2%nat id
           IntSamples.split_root [0; 1; 2; 3]
           (IntSamples.reloaded_tree, IntSamples.world)
           IntSamples.split_root (IntSamples.finished_tree, IntSamples.world)).
  by_evaluation.
Defined.

Lemma grow_respects_max_depth_witness :
  @grow IntSamples.collaborators 3 id (Unresolved 0) [0; 1; 2; 3]
        (IntSamples.fresh_tree, IntSamples.world)
  = Ok (IntSamples.split_root,
        (@mkTree IntSamples.collaborators 2%nat (f64_of_int 0) 1 1 2
                 (IntSamples.param 1 1) "tree.txt" (Some IntSamples.split_root),
         (getTickCount IntSamples.world).2))
  ∧ wf_node 0 IntSamples.split_root
  ∧ Forall (λ ds, ds.1 < max_depth (m_param (IntSamples.fresh_tree, IntSamples.world).1))
      (splits_of IntSamples.split_root)
  ∧ (height IntSamples.split_root
     <= S (Z.to_nat (max_depth (m_param (IntSamples.fresh_tree, IntSamples.world).1) - 0)))%nat.
Proof.
  split; [by_evaluation|].
  apply (@grow_respects_max_depth IntSamples.collaborators 3%nat id
           (Unresolved 0) [0; 1; 2; 3]
           (IntSamples.fresh_tree, IntSamples.world)
           IntSamples.split_root
           (@mkTree IntSamples.collaborators 2%nat (f64_of_int 0) 1 1 2
                    (IntSamples.param 1 1) "tree.txt" (Some IntSamples.split_root),
            (getTickCount IntSamples.world).2)).
  - reflexivity.
  - by_evaluation.
Defined.

(** ** The leaf counter *)

Section LeafCounter.
Context `{Collaborators}.

(** X5: with [0 <= max_depth <= 24], usable parameters and a recursion
    bound above [max_depth], the constructor returns a tree whose [i_leaf]
    is the number of leaves of its node graph, between 1 and
    [2^max_depth], and whose [i_node] is the whole budget
    [2^max_depth - 1]. *)
Theorem construct_counts_leaves samples p rng path fuel w :
  0 <= max_depth p <= 24 → usable_param p → (Z.to_nat (max_depth p) < fuel)%nat →
  ∃ t w' r,
    construct samples p rng path fuel w = Ok (t, w')
    ∧ root t = Some r
    ∧ i_leaf t = Z.of_nat (length (payloads r))
    ∧ 1 <= i_leaf t <= 2 ^ max_depth p
    ∧ i_node t = 2 ^ max_depth p - 1
    ∧ m_num_nodes t = 2 ^ max_depth p - 1.
Proof.
  intros Hd Hu Hfuel.
  destruct (construct_returns samples p rng path fuel w Hd Hu Hfuel) as [[t w'] Hc].
  destruct (construct_Ok _ _ _ _ _ _ _ _ Hc) as (st0 & n' & st1 & Hinit & Hg & -> & ->).
  apply construct_init_Ok in Hinit as (Hn & Hp & _ & Hi & Hl & _).
  rewrite int_of_float_pow2m1 in Hn by assumption. inversion Hn as [Hn'].
  pose proof (pow2_bounds (max_depth p) Hd) as Hpow.
  pose proof (grow_config _ _ _ _ _ _ _ Hg) as (Hc1 & _ & _).
  assert (HD : max_depth (m_param st0.1) = max_depth p) by (now rewrite Hp).
  destruct (grow_counters _ _ (Unresolved 0) 0 (max_depth p) _ st0 _ _ eq_refl
              HD ltac:(lia) ltac:(lia)
              ltac:(rewrite Hi, Z.sub_0_r; lia) Hg)
    as (Hn1 & Hl1 & Hl2 & _ & _ & Hroot).
  rewrite Hi, Z.sub_0_r in *. rewrite Hl in Hl1.
  exists st1.1, (save st1.1 st1.2), n'.
  split; [exact Hc|]. split; [exact Hroot|].
  rewrite <- leaves_payloads. repeat split; lia.
Qed.

End LeafCounter.

Lemma construct_counts_leaves_witness :
  ∃ t w' r,
    @construct IntSamples.collaborators [0; 1; 2; 3] (IntSamples.param 1 1)
               0%nat "tree.txt" 3 IntSamples.world = Ok (t, w')
    ∧ root t = Some r
    ∧ i_leaf t = Z.of_nat (length (payloads r))
    ∧ 1 <= i_leaf t <= 2 ^ max_depth (IntSamples.param 1 1)
    ∧ i_node t = 2 ^ max_depth (IntSamples.param 1 1) - 1
    ∧ m_num_nodes t = 2 ^ max_depth (IntSamples.param 1 1) - 1.
Proof.
  apply (@construct_counts_leaves IntSamples.collaborators
           [0; 1; 2; 3] (IntSamples.param 1 1) 0%nat
           "tree.txt" 3%nat IntSamples.world).
  - vm_compute. split; discriminate.
  - split; [vm_compute; discriminate|]. exists 100. by_evaluation.
  - vm_compute. lia.
Defined.

(** ** Effects on the environment *)

Section Environment.
Context `{Collaborators}.

Lemma construct_init_world p rng path w st0 :
  construct_init p rng path w = Ok st0 → same_world_except path w st0.2.
Proof.
  unfold construct_init. intros Hc.
  apply bind_Ok in Hc as (n & Hn & Hc).
  pose proof (getTickCount_world path w) as Hw.
  destruct (getTickCount w) as [tk w1]. inversion Hc; subst. exact Hw.
Qed.

(** X6: the constructor, [update] and [grow] change no file other than
    the one at the save path of the tree; they leave the write locks, the
    tick source and the tick frequency as they are and only read the tick
    counter. *)
Theorem tree_writes_only_its_save_path :
  (∀ samples p rng path fuel w t w',
      construct samples p rng path fuel w = Ok (t, w') →
      same_world_except path w w')
  ∧ (∀ samples rng fuel (st st' : Tree * World),
        update samples rng fuel st = Ok st' →
        same_world_except (m_save_path st.1) st.2 st'.2)
  ∧ (∀ fuel ctx node samples (st : Tree * World) n' st',
        grow fuel ctx node samples st = Ok (n', st') →
        same_world_except (m_save_path st.1) st.2 st'.2).
Proof.
  split; [|split].
  - intros samples p rng path fuel w t w' Hc.
    destruct (construct_Ok _ _ _ _ _ _ _ _ Hc)
      as (st0 & n' & st1 & Hinit & Hg & -> & ->).
    pose proof (construct_init_world _ _ _ _ _ Hinit) as Hw0.
    apply construct_init_Ok in Hinit as (_ & _ & Hpath & _).
    pose proof (grow_config _ _ _ _ _ _ _ Hg) as (_ & _ & Hp1).
    apply grow_world in Hg. rewrite Hpath in *.
    eapply same_world_except_trans; [exact Hw0|].
    eapply same_world_except_trans; [exact Hg|].
    rewrite <- Hp1. apply save_world.
  - intros samples rng fuel st st'. unfold update.
    destruct (isFinished (set_m_rng rng st.1)).
    + intros Hu. inversion Hu; subst. apply same_world_except_refl.
    + pose proof (getTickCount_world (m_save_path st.1) st.2) as Hw.
      destruct (getTickCount st.2) as [tk w1].
      cbn [root set_m_ticks set_i_leaf set_i_node set_m_rng].
      destruct (root st.1) as [r|]; [|discriminate].
      intros Hu. apply bind_Ok in Hu as ([n' st1] & Hg & Hu).
      inversion Hu; subst.
      pose proof (grow_config _ _ _ _ _ _ _ Hg) as (_ & _ & Hp1).
      apply grow_world in Hg. simpl in *.
      eapply same_world_except_trans; [exact Hw|].
      eapply same_world_except_trans; [exact Hg|].
      rewrite <- Hp1. apply save_world.
  - intros fuel ctx node samples st n' st'. apply grow_world.
Qed.

(** X7: a call of [grow] on a graph without unresolved nodes draws no
    random number, takes no checkpoint and reads no tick: the generator,
    the checkpoint time and the whole environment are as before. *)
Theorem grow_of_resolved_graph_is_quiet fuel ctx node samples
    (st : Tree * World) n' st' :
  resolved node = true →
  grow fuel ctx node samples st = Ok (n', st') →
  m_rng st'.1 = m_rng st.1 ∧ m_ticks st'.1 = m_ticks st.1 ∧ st'.2 = st.2.
Proof.
  revert ctx node samples st n' st'.
  induction fuel as [|fuel IH]; intros ctx node samples st n' st' Hres Hg;
    [discriminate|].
  destruct (must_stop (m_param st.1) node samples) eqn:Hs.
  - rewrite grow_stop in Hg by assumption.
    apply make_leaf_Ok in Hg as (e & i & l & _ & _ & _ & _ & ->).
    repeat split.
  - destruct node as [d0|d0 lf|d0 s l r]; simpl in Hres; try discriminate.
    + unfold must_stop in Hs. simpl in Hs. rewrite orb_true_r in Hs. discriminate.
    + apply andb_true_iff in Hres as [Hrl Hrr].
      rewrite grow_resume in Hg by assumption.
      apply bind_Ok in Hg as ([sets t] & Hr & Hg).
      apply bind_Ok in Hg as ([l' st1] & Hl & Hg).
      apply bind_Ok in Hg as ([r' st2] & Hr' & Hg).
      inversion Hg; subst n' st2. apply resume_split_Ok in Hr as (_ & -> & _).
      apply IH in Hl as (Hl1 & Hl2 & Hl3); [|assumption].
      apply IH in Hr' as (Hr1 & Hr2 & Hr3); [|assumption].
      simpl in *. repeat split; congruence.
Qed.

End Environment.

Lemma grow_of_resolved_graph_is_quiet_witness :
  resolved IntSamples.split_root = true
  ∧ @grow IntSamples.collaborators 2 id IntSamples.split_root [0; 1; 2; 3]
          (IntSamples.reloaded_tree, IntSamples.world)
    = Ok (IntSamples.split_root, (IntSamples.finished_tree, IntSamples.world))
  ∧ m_rng (IntSamples.finished_tree, IntSamples.world).1
    = m_rng (IntSamples.reloaded_tree, IntSamples.world).1
  ∧ m_ticks (IntSamples.finished_tree, IntSamples.world).1
    = m_ticks (IntSamples.reloaded_tree, IntSamples.world).1
  ∧ (IntSamples.finished_tree, IntSamples.world).2
    = (IntSamples.reloaded_tree, IntSamples.world).2.
Proof.
  split; [reflexivity|]. split; [by_evaluation|].
  apply (@grow_of_resolved_graph_is_quiet IntSamples.collaborators 2%nat id
           IntSamples.split_root [0; 1; 2; 3]
           (IntSamples.reloaded_tree, IntSamples.world)
           IntSamples.split_root (IntSamples.finished_tree, IntSamples.world)).
  - reflexivity.
  - by_evaluation.
Defined.

(** ** Checkpoints and snapshots on disk *)

Section Snapshots.
Context `{Collaborators} `{!LeafArchiveContract}.

Lemma load_written fresh t w :
  files w !! m_save_path t = Some (serialize_out t) →
  load fresh (m_save_path t) w = Ok (true, Some (snapshot_of fresh t)).
Proof.
  intros Hf. unfold load. rewrite Hf, serialize_in_out. reflexivity.
Qed.

(** X9: [saveAuto] reads the tick counter once. When its test
    [time > 600] fails (no more than 600 seconds since the checkpoint
    time, or a quotient that is not a number), it changes neither the
    tree nor any file. When the test holds, it moves the checkpoint time
    to the tick just read and saves; the file then loads back as the
    tree of that moment: same node graph, [i_node], budget, parameters
    and save path. *)
Theorem saveAuto_checkpoint_reloads (st : Tree * World) :
  (checkpoint_due st = false →
     saveAuto st = (st.1, (getTickCount st.2).2)
     ∧ files (saveAuto st).2 = files st.2)
  ∧ (checkpoint_due st = true →
     (saveAuto st).1 = set_m_ticks (f64_of_int (getTickCount st.2).1) st.1
     ∧ (m_save_path st.1 ∉ locked st.2 →
        ∀ fresh, load fresh (m_save_path st.1) (saveAuto st).2
                 = Ok (true, Some (snapshot_of fresh st.1)))).
Proof.
  unfold checkpoint_due, saveAuto.
  destruct (getTickCount st.2) as [tk w] eqn:Hg.
  assert (Hw : w = mkWorld (files st.2) (locked st.2) (tick_source st.2)
                 (S (tick_reads st.2)) (tick_frequency st.2)).
  { unfold getTickCount in Hg. now inversion Hg. }
  cbn [fst snd]. assert (Hfq : tick_frequency w = tick_frequency st.2) by now subst w.
  rewrite Hfq. split; intros Hdue; rewrite Hdue.
  - split; [reflexivity|]. subst w. reflexivity.
  - split; [reflexivity|]. intros Hl fresh. cbn [fst snd].
    assert (Hl' : m_save_path (set_m_ticks (f64_of_int tk) st.1) ∉ locked w)
      by (subst w; exact Hl).
    pose proof (save_writes (set_m_ticks (f64_of_int tk) st.1) w Hl') as Hf.
    apply (load_written fresh) in Hf. exact Hf.
Qed.

(** X10: with [0 <= max_depth <= 24], usable parameters, a recursion bound
    above [max_depth] and a save path that can be written, the constructor
    returns and leaves at the save path a snapshot that [load] reads back
    as a tree with the node graph, [i_node], budget, parameters, save path
    and [isFinished()] value of the constructed tree. *)
Theorem constructor_leaves_a_loadable_snapshot samples p rng path fuel w fresh :
  0 <= max_depth p <= 24 → usable_param p → (Z.to_nat (max_depth p) < fuel)%nat →
  path ∉ locked w →
  ∃ t w' t',
    construct samples p rng path fuel w = Ok (t, w')
    ∧ load fresh path w' = Ok (true, Some t')
    ∧ root t' = root t ∧ i_node t' = i_node t
    ∧ m_num_nodes t' = m_num_nodes t ∧ m_param t' = p
    ∧ m_save_path t' = path ∧ isFinished t' = isFinished t.
Proof.
  intros Hd Hu Hfuel Hl.
  destruct (construct_returns samples p rng path fuel w Hd Hu Hfuel) as [[t w'] Hc].
  destruct (construct_config _ _ _ _ _ _ _ _ Hc) as (_ & Hp & Hpath).
  destruct (construct_Ok _ _ _ _ _ _ _ _ Hc)
    as (st0 & n' & st1 & Hinit & Hg & -> & ->).
  pose proof (construct_init_world _ _ _ _ _ Hinit) as (_ & Hl0 & _).
  apply construct_init_Ok in Hinit as (_ & _ & Hpath0 & _).
  apply grow_world in Hg as (_ & Hl1 & _).
  assert (Hl' : m_save_path st1.1 ∉ locked st1.2) by (rewrite Hpath, Hl1, Hl0; exact Hl).
  exists st1.1, (save st1.1 st1.2), (snapshot_of fresh st1.1).
  split; [exact Hc|]. split.
  - rewrite <- Hpath. apply load_written. now apply save_writes.
  - repeat split; assumption.
Qed.

(** X11: the archive of a tree determines the five members it lists: two
    trees with the same archive have the same node graph, [i_node],
    budget, parameters and save path. *)
Theorem serialize_determines_snapshot (t1 t2 : Tree) :
  serialize_out t1 = serialize_out t2 →
  root t1 = root t2 ∧ i_node t1 = i_node t2 ∧ m_num_nodes t1 = m_num_nodes t2
  ∧ m_param t1 = m_param t2 ∧ m_save_path t1 = m_save_path t2.
Proof.
  intros Heq. pose proof (serialize_in_out t1 t1) as H1.
  pose proof (serialize_in_out t1 t2) as H2. rewrite Heq, H2 in H1.
  inversion H1. auto.
Qed.

End Snapshots.

Lemma saveAuto_checkpoint_reloads_witness :
  (saveAuto (IntSamples.finished_tree, late_world)).1
  = set_m_ticks (f64_of_int (getTickCount (IntSamples.finished_tree, late_world).2).1)
      (IntSamples.finished_tree, late_world).1
  ∧ (m_save_path (IntSamples.finished_tree, late_world).1
       ∉ locked (IntSamples.finished_tree, late_world).2 →
     ∀ fresh, load fresh (m_save_path (IntSamples.finished_tree, late_world).1)
                (saveAuto (IntSamples.finished_tree, late_world)).2
              = Ok (true, Some (snapshot_of fresh
                                  (IntSamples.finished_tree, late_world).1))).
Proof.
  apply (proj2 (@saveAuto_checkpoint_reloads IntSamples.collaborators
                  int_samples_archive (IntSamples.finished_tree, late_world))).
  by_evaluation.
Defined.

Lemma constructor_leaves_a_loadable_snapshot_witness :
  ∃ t w' t',
    @construct IntSamples.collaborators [0; 1; 2; 3] (IntSamples.param 1 1)
               0%nat "tree.txt" 3 IntSamples.world = Ok (t, w')
    ∧ load IntSamples.reloaded_tree "tree.txt" w' = Ok (true, Some t')
    ∧ root t' = root t ∧ i_node t' = i_node t
    ∧ m_num_nodes t' = m_num_nodes t ∧ m_param t' = IntSamples.param 1 1
    ∧ m_save_path t' = "tree.txt" ∧ isFinished t' = isFinished t.
Proof.
  apply (@constructor_leaves_a_loadable_snapshot IntSamples.collaborators
           int_samples_archive [0; 1; 2; 3] (IntSamples.param 1 1) 0%nat
           "tree.txt" 3%nat IntSamples.world IntSamples.reloaded_tree).
  - vm_compute. split; discriminate.
  - split; [vm_compute; discriminate|]. exists 100. by_evaluation.
  - vm_compute. lia.
  - simpl. apply not_elem_of_empty.
Defined.

Lemma serialize_determines_snapshot_witness :
  root IntSamples.finished_tree = root (set_i_leaf 0 IntSamples.finished_tree)
  ∧ i_node IntSamples.finished_tree = i_node (set_i_leaf 0 IntSamples.finished_tree)
  ∧ m_num_nodes IntSamples.finished_tree
    = m_num_nodes (set_i_leaf 0 IntSamples.finished_tree)
  ∧ m_param IntSamples.finished_tree = m_param (set_i_leaf 0 IntSamples.finished_tree)
  ∧ m_save_path IntSamples.finished_tree
    = m_save_path (set_i_leaf 0 IntSamples.finished_tree).
Proof.
  apply (@serialize_determines_snapshot IntSamples.collaborators
           int_samples_archive IntSamples.finished_tree
           (set_i_leaf 0 IntSamples.finished_tree)).
  reflexivity.
Defined.

(** ** Resumption by [update] *)

Section Resume.
Context `{Collaborators}.

Lemma int_of_size_small n : Z.of_nat n < 2 ^ 31 → int_of_size n = Z.of_nat n.
Proof.
  intros Hn. unfold int_of_size.
  rewrite Z.mod_small by lia.
  destruct (Z.of_nat n <? 2 ^ 31) eqn:E; [reflexivity | lia].
Qed.

Lemma update_unfinished samples rng fuel st r :
  isFinished st.1 = false → root st.1 = Some r →
  update samples rng fuel st =
    ('(_, st') ← grow fuel id r samples
                   (set_m_ticks (f64_of_int (getTickCount st.2).1)
                      (set_i_leaf 0 (set_i_node 0 (set_m_rng rng st.1))),
                    (getTickCount st.2).2);
     Ok (st'.1, save st'.1 st'.2)).
Proof.
  intros Hf Hr. unfold update. rewrite isFinished_set_m_rng, Hf.
  destruct (getTickCount st.2) as [tk w1].
  cbn [root set_m_ticks set_i_leaf set_i_node set_m_rng fst snd].
  rewrite Hr. reflexivity.
Qed.

(** [update] of an unfinished tree with a well-shaped graph regrows it to
    a finished tree. *)
Lemma update_regrows samples rng fuel (st : Tree * World) r :
  isFinished st.1 = false → root st.1 = Some r → wf_node 0 r →
  1 <= max_depth (m_param st.1) <= 24 →
  m_num_nodes st.1 = 2 ^ max_depth (m_param st.1) - 1 →
  usable_param (m_param st.1) →
  (Z.to_nat (max_depth (m_param st.1)) < fuel)%nat →
  ∃ st' r',
    update samples rng fuel st = Ok st'
    ∧ root st'.1 = Some r' ∧ refines r r' ∧ resolved r' = true
    ∧ i_leaf st'.1 = leaves r'
    ∧ isFinished st'.1 = true
    ∧ (m_save_path st.1 ∉ locked st.2 →
       files st'.2 !! m_save_path st.1 = Some (serialize_out st'.1)).
Proof.
  intros Hf Hroot Hwf Hd Hn Hu Hfuel.
  pose proof (pow2_bounds (max_depth (m_param st.1)) ltac:(lia)) as Hpow.
  assert (Hpow1 : 2 <= 2 ^ max_depth (m_param st.1)).
  { change 2 with (2 ^ 1) at 1. apply Z.pow_le_mono_r; lia. }
  rewrite (update_unfinished _ _ _ _ r Hf Hroot).
  set (st0 := (set_m_ticks (f64_of_int (getTickCount st.2).1)
                 (set_i_leaf 0 (set_i_node 0 (set_m_rng rng st.1))),
               (getTickCount st.2).2)).
  destruct (grow_returns fuel id r 0 (max_depth (m_param st.1)) samples st0)
    as (n' & st1 & Hg); try (simpl; rewrite ?Z.sub_0_r; unfold INT_MAX; lia);
    try assumption; try reflexivity.
  rewrite Hg. cbn [mbind result_bind].
  pose proof (grow_config _ _ _ _ _ _ _ Hg) as (Hc1 & Hc2 & Hc3). simpl in Hc1, Hc2, Hc3.
  pose proof (grow_world _ _ _ _ _ _ _ Hg) as (_ & Hlk & _). simpl in Hlk.
  destruct (grow_shape _ _ _ _ _ _ _ Hg) as (Hres & _ & Href & Hr' & _).
  destruct (grow_counters _ _ r 0 (max_depth (m_param st.1)) _ st0 _ _ Hwf eq_refl
              ltac:(lia) (Z.le_refl 0) ltac:(simpl; rewrite Z.sub_0_r; lia) Hg)
    as (Hn1 & Hl1 & _).
  simpl in Hn1, Hl1. rewrite Z.sub_0_r in Hn1.
  exists (st1.1, save st1.1 st1.2), n'. cbn [fst snd].
  split; [reflexivity|]. split; [exact Hr'|]. split; [exact Href|].
  split; [exact Hres|]. split; [lia|]. split.
  { apply isFinished_iff. lia. }
  intros Hl. rewrite <- Hc3. apply save_writes. rewrite Hc3, Hlk. exact Hl.
Qed.

(** X12: [update] on an unfinished tree with a well-shaped node graph,
    [1 <= max_depth <= 24], the budget [2^max_depth - 1], usable
    parameters and a recursion bound above [max_depth] returns. The new
    graph has no unresolved node and keeps every stored split (or turns
    its node into a leaf), [i_leaf] is the number of its leaves, the tree
    is finished, and when the save path can be written the file holds the
    archive of the returned tree. *)
Theorem update_regrows_unfinished_tree samples rng fuel (st : Tree * World) r :
  isFinished st.1 = false → root st.1 = Some r → wf_node 0 r →
  1 <= max_depth (m_param st.1) <= 24 →
  m_num_nodes st.1 = 2 ^ max_depth (m_param st.1) - 1 →
  usable_param (m_param st.1) →
  (Z.to_nat (max_depth (m_param st.1)) < fuel)%nat →
  ∃ st' r',
    update samples rng fuel st = Ok st'
    ∧ root st'.1 = Some r' ∧ refines r r' ∧ resolved r' = true
    ∧ i_leaf st'.1 = leaves r'
    ∧ isFinished st'.1 = true
    ∧ (m_save_path st.1 ∉ locked st.2 →
       files st'.2 !! m_save_path st.1 = Some (serialize_out st'.1)).
Proof. apply update_regrows. Qed.

(** X13: [min_patches] is tested first. [update] of an unfinished tree with
    a batch of fewer than [min_patches] samples turns the root into a
    single leaf built from that batch, whatever splits were stored below
    it, counts one leaf and the budget of the whole tree, and so ends
    with a finished tree. *)
Theorem update_with_small_batch_collapses samples rng fuel (st : Tree * World) r :
  isFinished st.1 = false → root st.1 = Some r → getDepth r = 0 →
  1 <= max_depth (m_param st.1) <= 24 →
  m_num_nodes st.1 = 2 ^ max_depth (m_param st.1) - 1 →
  Z.of_nat (length samples) < 2 ^ 31 →
  Z.of_nat (length samples) < min_patches (m_param st.1) →
  ∃ st',
    update samples rng (S fuel) st = Ok st'
    ∧ root st'.1 = Some (LeafNode 0 (makeLeaf samples))
    ∧ i_leaf st'.1 = 1
    ∧ i_node st'.1 = 2 ^ max_depth (m_param st.1) - 1
    ∧ isFinished st'.1 = true.
Proof.
  intros Hf Hroot Hdepth Hd Hn Hlen Hmin.
  pose proof (pow2_bounds (max_depth (m_param st.1)) ltac:(lia)) as Hpow.
  assert (Hpow1 : 2 <= 2 ^ max_depth (m_param st.1)).
  { change 2 with (2 ^ 1) at 1. apply Z.pow_le_mono_r; lia. }
  rewrite (update_unfinished _ _ _ _ r Hf Hroot).
  rewrite grow_stop.
  2:{ unfold must_stop. cbn [fst m_param set_m_ticks set_i_leaf set_i_node set_m_rng].
      rewrite int_of_size_small by assumption.
      destruct (Z.of_nat (length samples) <? min_patches (m_param st.1)) eqn:E;
        [reflexivity | lia]. }
  rewrite (make_leaf_exact _ _ _ _ (max_depth (m_param st.1)))
    by (simpl; rewrite ?Hdepth; unfold INT_MIN, INT_MAX; lia).
  cbn [mbind result_bind fst snd].
  eexists. split; [reflexivity|]. cbn [fst snd].
  unfold createLeaf. rewrite Hdepth. simpl.
  split; [reflexivity|]. split; [reflexivity|]. split; [lia|].
  apply isFinished_iff. simpl. lia.
Qed.

End Resume.

Lemma update_regrows_unfinished_tree_witness :
  ∃ st' r',
    @update IntSamples.collaborators [0; 1; 2; 3] 7%nat 3
            (IntSamples.reloaded_tree, IntSamples.world) = Ok st'
    ∧ root st'.1 = Some r' ∧ refines IntSamples.split_root r'
    ∧ resolved r' = true
    ∧ i_leaf st'.1 = leaves r'
    ∧ isFinished st'.1 = true
    ∧ (m_save_path (IntSamples.reloaded_tree, IntSamples.world).1
         ∉ locked (IntSamples.reloaded_tree, IntSamples.world).2 →
       files st'.2 !! m_save_path (IntSamples.reloaded_tree, IntSamples.world).1
       = Some (serialize_out st'.1)).
Proof.
  apply (@update_regrows_unfinished_tree IntSamples.collaborators
           [0; 1; 2; 3] 7%nat 3%nat
           (IntSamples.reloaded_tree, IntSamples.world) IntSamples.split_root).
  - reflexivity.
  - reflexivity.
  - simpl. auto.
  - vm_compute. split; discriminate.
  - reflexivity.
  - split; [vm_compute; discriminate|]. exists 100. by_evaluation.
  - vm_compute. lia.
Defined.

Lemma update_with_small_batch_collapses_witness :
  ∃ st',
    @update IntSamples.collaborators [1; 2] 7%nat 1
      (@mkTree IntSamples.collaborators 0%nat (f64_of_int 0) 1 0 0
               (IntSamples.param 1 5) "tree.txt" (Some IntSamples.split_root),
       IntSamples.world) = Ok st'
    ∧ root st'.1 = Some (LeafNode 0 (makeLeaf [1; 2]))
    ∧ i_leaf st'.1 = 1
    ∧ i_node st'.1 = 2 ^ max_depth (IntSamples.param 1 5) - 1
    ∧ isFinished st'.1 = true.
Proof.
  apply (@update_with_small_batch_collapses IntSamples.collaborators
           [1; 2] 7%nat 0%nat
           (@mkTree IntSamples.collaborators 0%nat (f64_of_int 0) 1 0 0
                    (IntSamples.param 1 5) "tree.txt" (Some IntSamples.split_root),
            IntSamples.world) IntSamples.split_root).
  - reflexivity.
  - reflexivity.
  - reflexivity.
  - vm_compute. split; discriminate.
  - reflexivity.
  - vm_compute. reflexivity.
  - vm_compute. reflexivity.
Defined.

(** ** Single precision outside the exact range *)

Section BudgetRanges.

(** Above the largest binary32 exponent [powf(2.0f, e)] is infinite. *)
Lemma powf2_overflow e : 128 <= e → powf2 e = S754_infinity false.
Proof.
  intros He. unfold powf2, binary_normalize, binary_round.
  cbn [digits2_pos].
  assert (Hfe : fexp 24 128 (1 + e) = e - 23) by (unfold fexp, emin; lia).
  rewrite Hfe. unfold shl_align.
  replace (e - 23 - e) with (-23) by lia. cbn [Pos.iter].
  unfold binary_round_aux, shr_fexp.
  change (Zdigits2 8388608) with 24.
  replace (24 + (e - 23)) with (1 + e) by lia. rewrite Hfe.
  replace (e - 23 - (e - 23)) with 0 by lia.
  cbn [shr shr_record_of_loc shr_m loc_of_shr_record round_nearest_even].
  change (Zdigits2 8388608) with 24.
  replace (24 + (e - 23)) with (1 + e) by lia. rewrite Hfe.
  replace (e - 23 - (e - 23)) with 0 by lia.
  cbn [shr shr_m].
  destruct (e - 23 <=? 128 - 24) eqn:E; [lia | reflexivity].
Qed.

Lemma pow2m1_overflow e : 128 <= e → int_of_float (pow2m1 e) = Fault.
Proof.
  intros He. unfold pow2m1. rewrite powf2_overflow by assumption. reflexivity.
Qed.

(** From 31 levels on, [powf(2.0f, e) - 1] is at least [2^31] and does not
    convert to an [int]. *)
Lemma pow2m1_out_of_int e : 31 <= e → int_of_float (pow2m1 e) = Fault.
Proof.
  intros He. destruct (Z_lt_ge_dec e 128) as [Hlt|Hge];
    [|apply pow2m1_overflow; lia].
  assert (Hall : forallb (λ n, match int_of_float (pow2m1 (Z.of_nat n)) with
                               | Fault => true
                               | _ => false
                               end) (seq 31 97) = true)
    by (vm_compute; reflexivity).
  rewrite forallb_forall in Hall.
  specialize (Hall (Z.to_nat e)). rewrite Z2Nat.id in Hall by lia.
  destruct (int_of_float (pow2m1 e)); try reflexivity;
    (discriminate Hall; apply in_seq; lia).
Qed.

(** Between 25 and 30 levels the subtraction rounds back to the power. *)
Lemma pow2m1_rounded e : 25 <= e <= 30 → int_of_float (pow2m1 e) = Ok (2 ^ e).
Proof.
  intros He.
  assert (Hcases : e = 25 ∨ e = 26 ∨ e = 27 ∨ e = 28 ∨ e = 29 ∨ e = 30) by lia.
  repeat (destruct Hcases as [->|Hcases]; [vm_compute; reflexivity|]).
  subst e. vm_compute. reflexivity.
Qed.

(** With no level or a negative number of levels the difference lies
    between -1 and 0 and truncates to 0. *)
Lemma pow2m1_nonpositive e : -24 <= e <= 0 → int_of_float (pow2m1 e) = Ok 0.
Proof.
  intros He.
  assert (Hall : forallb (λ n, match int_of_float (pow2m1 (- Z.of_nat n)) with
                               | Ok 0 => true
                               | _ => false
                               end) (seq 0 25) = true)
    by (vm_compute; reflexivity).
  rewrite forallb_forall in Hall.
  specialize (Hall (Z.to_nat (- e))). rewrite Z2Nat.id, Z.opp_involutive in Hall by lia.
  destruct (int_of_float (pow2m1 e)) as [[| |]| |]; try reflexivity;
    (discriminate Hall; apply in_seq; lia).
Qed.

End BudgetRanges.

(** ** Exact single-precision products *)

Section Products.

(** Rounding a product that fits into 24 bits loses nothing: the mantissa
    is brought back to 24 bits by shifting out zero bits. *)
Lemma binary_round_aux_exact v n s :
  Zpos (digits2_pos v) <= 24 →
  24 - Zpos (digits2_pos v) <= Z.of_nat n →
  -149 <= Zpos (digits2_pos v) - 24 + s <= 104 →
  binary_round_aux 24 128 false (Zpos (shl_nat v n)) (- Z.of_nat n + s) loc_Exact
  = S754_finite false (shl_nat v (Z.to_nat (24 - Zpos (digits2_pos v))))
      (Zpos (digits2_pos v) - 24 + s).
Proof.
  intros Hd Hn Hs.
  set (dv := Zpos (digits2_pos v)) in *.
  assert (Hdv : 1 <= dv) by (unfold dv; lia).
  assert (Hfe : fexp 24 128 (dv + s) = dv - 24 + s) by (unfold fexp, emin; lia).
  unfold binary_round_aux, shr_fexp. cbn [Zdigits2].
  rewrite digits_shl_nat. fold dv.
  replace (dv + Z.of_nat n + (- Z.of_nat n + s)) with (dv + s) by lia.
  rewrite Hfe.
  destruct (dv - 24 + s - (- Z.of_nat n + s)) as [|p|p] eqn:Hp; [| |lia].
  - assert (Hn' : Z.to_nat (24 - dv) = n) by lia. rewrite Hn'.
    cbn [shr shr_record_of_loc shr_m loc_of_shr_record round_nearest_even Zdigits2].
    rewrite digits_shl_nat. fold dv.
    replace (dv + Z.of_nat n + (- Z.of_nat n + s)) with (dv + s) by lia.
    rewrite Hfe, Hp. cbn [shr shr_m].
    replace (- Z.of_nat n + s) with (dv - 24 + s) by lia.
    change (128 - 24) with 104.
    destruct (dv - 24 + s <=? 104) eqn:E; [reflexivity | lia].
  - unfold shr, shr_record_of_loc. rewrite iter_pos_nat.
    assert (Hn' : n = (Pos.to_nat p + Z.to_nat (24 - dv))%nat) by lia.
    assert (Hit : Nat.iter (Pos.to_nat p) shr_1
              (Build_shr_record (Zpos (shl_nat v n)) false false)
            = Build_shr_record (Zpos (shl_nat v (Z.to_nat (24 - dv)))) false false).
    { rewrite Hn' at 1. rewrite shl_nat_add. apply shr_shl_nat. }
    rewrite Hit.
    cbn [loc_of_shr_record shr_m round_nearest_even Zdigits2].
    rewrite digits_shl_nat. fold dv.
    replace (dv + Z.of_nat (Z.to_nat (24 - dv)) + (- Z.of_nat n + s + Z.pos p))
      with (dv + s) by lia.
    rewrite Hfe.
    replace (dv - 24 + s - (- Z.of_nat n + s + Z.pos p)) with 0 by lia.
    cbn [shr_m].
    replace (- Z.of_nat n + s + Z.pos p) with (dv - 24 + s) by lia.
    change (128 - 24) with 104.
    destruct (dv - 24 + s <=? 104) eqn:E; [reflexivity | lia].
Qed.

Lemma shl_nat_mul a b na nb :
  (shl_nat a na * shl_nat b nb)%positive = shl_nat (a * b) (na + nb).
Proof.
  apply Pos2Z.inj. rewrite Pos2Z.inj_mul, !shl_nat_val, Pos2Z.inj_mul.
  rewrite Nat2Z.inj_add, Z.pow_add_r by lia. lia.
Qed.

Lemma digits2_pos_mul a b :
  Zpos (digits2_pos a) + Zpos (digits2_pos b) - 1 <= Zpos (digits2_pos (a * b)).
Proof.
  destruct (digits2_pos_bounds a) as [Ha _].
  destruct (digits2_pos_bounds b) as [Hb _].
  destruct (digits2_pos_bounds (a * b)) as [_ Hab].
  set (da := Zpos (digits2_pos a)) in *. set (db := Zpos (digits2_pos b)) in *.
  set (dab := Zpos (digits2_pos (a * b))) in *.
  assert (Hda : 1 <= da) by (unfold da; lia).
  assert (Hdb : 1 <= db) by (unfold db; lia).
  assert (Hdab : 1 <= dab) by (unfold dab; lia).
  rewrite Pos2Z.inj_mul in Hab.
  assert (Hlow : 2 ^ (da - 1 + (db - 1)) <= Zpos a * Zpos b).
  { rewrite Z.pow_add_r by lia. apply Z.mul_le_mono_nonneg; lia. }
  destruct (Z_le_gt_dec (da + db - 1) dab) as [|Hgt]; [assumption|].
  assert (2 ^ dab <= 2 ^ (da - 1 + (db - 1))) by (apply Z.pow_le_mono_r; lia).
  lia.
Qed.

(** The product of two integers is formed exactly when it is below [2^24]. *)
Lemma f32_mul_canon a b :
  Zpos a * Zpos b < 2 ^ 24 →
  SFmul 24 128 (canon32 a) (canon32 b) = canon32 (a * b).
Proof.
  intros Hab.
  assert (Ha : Zpos (digits2_pos a) <= 24) by (apply digits2_pos_le24; nia).
  assert (Hb : Zpos (digits2_pos b) <= 24) by (apply digits2_pos_le24; nia).
  assert (Hs : Zpos (digits2_pos (a * b)) <= 24)
    by (apply digits2_pos_le24; rewrite Pos2Z.inj_mul; lia).
  pose proof (digits2_pos_mul a b) as Hm.
  unfold canon32 at 1 2. cbn [SFmul xorb].
  rewrite shl_nat_mul.
  set (n := (Z.to_nat (24 - Zpos (digits2_pos a))
             + Z.to_nat (24 - Zpos (digits2_pos b)))%nat).
  replace (Zpos (digits2_pos a) - 24 + (Zpos (digits2_pos b) - 24))
    with (- Z.of_nat n + 0) by (unfold n; lia).
  rewrite binary_round_aux_exact by (unfold n; lia).
  unfold canon32. now rewrite Z.add_0_r.
Qed.

Lemma round_canon32 v : Zpos v < 2 ^ 24 → round_Z (canon32 v) = Some (Zpos v).
Proof.
  intros Hv. apply digits2_pos_le24 in Hv. unfold canon32, round_Z, cond_Zopp.
  set (dv := Zpos (digits2_pos v)) in *. f_equal.
  rewrite shl_nat_val. rewrite Z2Nat.id by lia.
  destruct (0 <=? dv - 24) eqn:E.
  - replace (24 - dv) with 0 by lia. replace (dv - 24) with 0 by lia. simpl. lia.
  - replace (- (dv - 24)) with (24 - dv) by lia.
    assert (Hk : 1 <= 24 - dv) by lia.
    assert (Hpow : 2 ^ (24 - dv) = 2 * 2 ^ (24 - dv - 1)).
    { replace (24 - dv) with (24 - dv - 1 + 1) at 1 by lia. apply pow2_step. lia. }
    assert (Hpos : 0 < 2 ^ (24 - dv - 1)) by (apply Z.pow_pos_nonneg; lia).
    rewrite Z.add_comm.
    rewrite Z.div_add by lia.
    rewrite Hpow. set (h := 2 ^ (24 - dv - 1)) in *. clearbody h.
    rewrite Z.div_small; lia.
Qed.

(** [face_size * ratio] for non-negative integers with a product below
    [2^24], rounded to the nearest integer. *)
Lemma round_mul_exact i r :
  0 <= i < 2 ^ 24 → 0 <= r < 2 ^ 24 → i * r < 2 ^ 24 →
  round_Z (SFmul 24 128 (f32_of_int i) (f32_of_int r)) = Some (i * r).
Proof.
  intros Hi Hr Hp.
  destruct i as [|a|a]; [| |lia]; (destruct r as [|b|b]; [| |lia]).
  - reflexivity.
  - rewrite f32_of_int_pos by lia. reflexivity.
  - rewrite f32_of_int_pos by lia. rewrite Z.mul_0_r. reflexivity.
  - rewrite !f32_of_int_pos by nia. rewrite f32_mul_canon by lia.
    rewrite round_canon32 by (rewrite Pos2Z.inj_mul; lia). reflexivity.
Qed.

(** [powf(2.0f, e)] in the range of the normal binary32 numbers. *)
Lemma powf2_normal e : -126 <= e <= 127 → powf2 e = S754_finite false 8388608 (e - 23).
Proof.
  intros He. unfold powf2, binary_normalize, binary_round.
  cbn [digits2_pos].
  assert (Hfe : fexp 24 128 (1 + e) = e - 23) by (unfold fexp, emin; lia).
  rewrite Hfe. unfold shl_align.
  replace (e - 23 - e) with (-23) by lia. cbn [Pos.iter].
  unfold binary_round_aux, shr_fexp.
  change (Zdigits2 8388608) with 24.
  replace (24 + (e - 23)) with (1 + e) by lia. rewrite Hfe.
  replace (e - 23 - (e - 23)) with 0 by lia.
  cbn [shr shr_record_of_loc shr_m loc_of_shr_record round_nearest_even].
  change (Zdigits2 8388608) with 24.
  replace (24 + (e - 23)) with (1 + e) by lia. rewrite Hfe.
  replace (e - 23 - (e - 23)) with 0 by lia.
  cbn [shr shr_m].
  destruct (e - 23 <=? 128 - 24) eqn:E; [reflexivity | lia].
Qed.

(** Scaling by a power of two only moves the exponent. *)
Lemma f32_mul_pow2 a e :
  Zpos a < 2 ^ 24 → -100 <= e <= 100 →
  SFmul 24 128 (canon32 a) (powf2 e)
  = S754_finite false (shl_nat a (Z.to_nat (24 - Zpos (digits2_pos a))))
      (Zpos (digits2_pos a) - 24 + e).
Proof.
  intros Ha He.
  assert (Hd : Zpos (digits2_pos a) <= 24) by (apply digits2_pos_le24; lia).
  rewrite powf2_normal by lia. unfold canon32. cbn [SFmul xorb].
  change 8388608%positive with (shl_nat 1 23).
  rewrite shl_nat_mul, Pos.mul_1_r.
  set (n := (Z.to_nat (24 - Zpos (digits2_pos a)) + 23)%nat).
  replace (Zpos (digits2_pos a) - 24 + (e - 23))
    with (- Z.of_nat n + e) by (unfold n; lia).
  apply binary_round_aux_exact; unfold n; lia.
Qed.

(** Rounding [a / 2^k] to the nearest integer, halves upward. *)
Lemma round_scaled a k :
  Zpos (digits2_pos a) <= 24 → 1 <= k →
  round_Z (S754_finite false (shl_nat a (Z.to_nat (24 - Zpos (digits2_pos a))))
             (Zpos (digits2_pos a) - 24 + - k))
  = Some ((Zpos a + 2 ^ (k - 1)) / 2 ^ k).
Proof.
  intros Hd Hk. unfold round_Z, cond_Zopp.
  set (dv := Zpos (digits2_pos a)) in *.
  assert (Hdv : 1 <= dv) by (unfold dv; lia).
  destruct (0 <=? dv - 24 + - k) eqn:E; [lia|]. f_equal.
  rewrite shl_nat_val, Z2Nat.id by lia.
  replace (- (dv - 24 + - k)) with (k + (24 - dv)) by lia.
  replace (k + (24 - dv) - 1) with (k - 1 + (24 - dv)) by lia.
  rewrite !Z.pow_add_r by lia.
  rewrite <- Z.mul_add_distr_r.
  apply Z.div_mul_cancel_r; apply Z.pow_nonzero; lia.
Qed.

End Products.

(** ** The patch size *)

Section PatchSize.

(** X14: [getPatchSize] for a face size below [2^24]. With a ratio that
    is an integer [r], the patch size is the exact product
    [face_size * r] as long as that stays below [2^24]; with the ratio
    [2^-k] it is [face_size / 2^k] rounded to the nearest integer, a
    half rounded upward. *)
Theorem getPatchSize_rounds_to_nearest (p : ForestParam) :
  0 <= face_size p < 2 ^ 24 →
  (∀ r, 0 <= r < 2 ^ 24 → face_size p * r < 2 ^ 24 →
        patch_size_ratio p = f32_of_int r →
        getPatchSize p = Ok (face_size p * r))
  ∧ (∀ k, 1 <= k <= 24 → patch_size_ratio p = powf2 (- k) →
          getPatchSize p = Ok ((face_size p + 2 ^ (k - 1)) / 2 ^ k)).
Proof.
  intros Hf. split.
  - intros r Hr Hp Hratio. unfold getPatchSize.
    rewrite Hratio, round_mul_exact by lia.
    apply int_check_in_range. unfold INT_MIN, INT_MAX. nia.
  - intros k Hk Hratio. unfold getPatchSize. rewrite Hratio.
    assert (Hpk : 0 < 2 ^ (k - 1)) by (apply Z.pow_pos_nonneg; lia).
    assert (Hpow : 2 ^ k = 2 * 2 ^ (k - 1)).
    { replace k with (k - 1 + 1) at 1 by lia. apply pow2_step. lia. }
    assert (Hpk' : 2 ^ (k - 1) <= 2 ^ 23) by (apply Z.pow_le_mono_r; lia).
    destruct (face_size p) as [|a|a] eqn:Ea; [| |lia].
    + rewrite powf2_normal by lia. cbn [f32_of_int binary_normalize SFmul xorb round_Z].
      rewrite Z.add_0_l, Z.div_small by lia. reflexivity.
    + rewrite f32_of_int_pos by lia. rewrite f32_mul_pow2 by lia.
      rewrite round_scaled by (try apply digits2_pos_le24; lia).
      apply int_check_in_range.
      assert (H0 : 0 <= (Zpos a + 2 ^ (k - 1)) / 2 ^ k) by (apply Z.div_pos; lia).
      assert (H1 : (Zpos a + 2 ^ (k - 1)) / 2 ^ k <= Zpos a + 2 ^ (k - 1)).
      { apply Z.div_le_upper_bound; [lia|]. nia. }
      unfold INT_MIN, INT_MAX. lia.
Qed.

End PatchSize.

Lemma getPatchSize_rounds_to_nearest_witness :
  (∀ r, 0 <= r < 2 ^ 24 →
        face_size (mkForestParam 1 1 3 1 1 1 102 (powf2 (-2)) "trees" "images" [])
          * r < 2 ^ 24 →
        patch_size_ratio
          (mkForestParam 1 1 3 1 1 1 102 (powf2 (-2)) "trees" "images" [])
        = f32_of_int r →
        getPatchSize (mkForestParam 1 1 3 1 1 1 102 (powf2 (-2)) "trees" "images" [])
        = Ok (face_size
                (mkForestParam 1 1 3 1 1 1 102 (powf2 (-2)) "trees" "images" []) * r))
  ∧ (∀ k, 1 <= k <= 24 →
          patch_size_ratio
            (mkForestParam 1 1 3 1 1 1 102 (powf2 (-2)) "trees" "images" [])
          = powf2 (- k) →
          getPatchSize (mkForestParam 1 1 3 1 1 1 102 (powf2 (-2)) "trees" "images" [])
          = Ok ((face_size
                   (mkForestParam 1 1 3 1 1 1 102 (powf2 (-2)) "trees" "images" [])
                 + 2 ^ (k - 1)) / 2 ^ k)).
Proof.
  apply (getPatchSize_rounds_to_nearest
           (mkForestParam 1 1 3 1 1 1 102 (powf2 (-2)) "trees" "images" [])).
  vm_compute. split; [discriminate | reflexivity].
Defined.

(** A face of 102 pixels and the ratio 0.25: 25.5 is rounded to 26. *)
Lemma getPatchSize_quarter_of_102 :
  getPatchSize (mkForestParam 1 1 3 1 1 1 102 (powf2 (-2)) "trees" "images" [])
  = Ok 26.
Proof. vm_compute. reflexivity. Qed.

(** ** The budget computed by the constructor *)

Section ConstructorBudget.
Context `{Collaborators}.

Lemma construct_init_budget p rng path w n :
  int_of_float (pow2m1 (max_depth p)) = Ok n →
  ∃ st0, construct_init p rng path w = Ok st0 ∧ m_num_nodes st0.1 = n.
Proof.
  intros Hn. unfold construct_init. rewrite Hn. cbn [mbind result_bind].
  destruct (getTickCount w) as [tk w1]. eauto.
Qed.

(** X15: the budget [m_num_nodes = powf(2.0f, max_depth) - 1] by the value
    of [max_depth]. Up to 24 it is [2^max_depth - 1]; from 25 to 30 the
    single-precision subtraction rounds and the budget is [2^max_depth],
    one more than a full tree has inner nodes and leaves to count; from
    31 on the value does not fit an [int] and the constructor has no
    defined result; from -24 to 0 the budget is 0. *)
Theorem constructor_budget_by_depth (p : ForestParam) (rng : Rng) path w :
  (0 <= max_depth p <= 24 →
     ∃ st0, construct_init p rng path w = Ok st0
            ∧ m_num_nodes st0.1 = 2 ^ max_depth p - 1)
  ∧ (25 <= max_depth p <= 30 →
     ∃ st0, construct_init p rng path w = Ok st0
            ∧ m_num_nodes st0.1 = 2 ^ max_depth p)
  ∧ (-24 <= max_depth p <= 0 →
     ∃ st0, construct_init p rng path w = Ok st0 ∧ m_num_nodes st0.1 = 0)
  ∧ (31 <= max_depth p →
     ∀ samples fuel, construct samples p rng path fuel w = Fault).
Proof.
  split; [|split; [|split]]; intros Hd.
  - apply construct_init_budget. now apply int_of_float_pow2m1.
  - apply construct_init_budget. now apply pow2m1_rounded.
  - apply construct_init_budget. now apply pow2m1_nonpositive.
  - intros samples fuel. unfold construct, construct_init.
    rewrite pow2m1_out_of_int by assumption. reflexivity.
Qed.

End ConstructorBudget.

(** ** Archive of the parameters *)

Section ParamArchive.

(** X16: [ForestParam::serialize]. With primitives that read back what
    was written, the eleven members are read back as they were written,
    whatever follows them in the stream, and two parameter sets with the
    same archive are equal. *)
Theorem ForestParam_archive_reads_back (p : ForestParam) :
  (∀ rest, load_param (save_param p ++ rest) = Done (p, rest))
  ∧ (∀ q rest rest', save_param p ++ rest = save_param q ++ rest' →
                     p = q ∧ rest = rest').
Proof.
  split.
  - intros rest. apply load_param_save.
  - intros q rest rest' Heq.
    pose proof (load_param_save p rest) as Hp.
    rewrite Heq, load_param_save in Hp. inversion Hp. auto.
Qed.

End ParamArchive.

(** ** Readings of the tick counter *)

Section TickReads.
Context `{Collaborators}.

Lemma saveAuto_ticks st : tick_reads (saveAuto st).2 = S (tick_reads st.2).
Proof.
  unfold saveAuto, getTickCount. cbn [fst snd tick_frequency].
  destruct (SFltb _ _); cbn [snd]; [|reflexivity].
  unfold save. destruct (decide _); reflexivity.
Qed.

(** Growth from an unresolved node reads the tick counter once for every
    split it stores. *)
Lemma grow_fresh_ticks fuel : ∀ ctx d samples st n' st',
  grow fuel ctx (Unresolved d) samples st = Ok (n', st') →
  tick_reads st'.2 = (tick_reads st.2 + length (splits_of n'))%nat.
Proof.
  induction fuel as [|fuel IH]; intros ctx d samples st n' st' Hg;
    [discriminate|].
  destruct (must_stop (m_param st.1) (Unresolved d) samples) eqn:Hs.
  - rewrite grow_stop in Hg by assumption.
    apply make_leaf_Ok in Hg as (e & i & l & _ & _ & _ & -> & ->).
    simpl. lia.
  - rewrite grow_search in Hg by (assumption || reflexivity).
    apply bind_Ok in Hg as ([[found best] t] & Hf & Hg).
    apply findOptimalSplit_frame in Hf as [g ->].
    destruct found.
    + apply bind_Ok in Hg as ([sets st0] & Ha & Hg).
      apply bind_Ok in Hg as ([l' st1] & Hl & Hg).
      apply bind_Ok in Hg as ([r' st2] & Hr' & Hg).
      inversion Hg; subst n' st2. apply assign_split_Ok in Ha as (_ & -> & _).
      match type of Hl with context [saveAuto ?x] =>
        pose proof (saveAuto_ticks x) as Ht0; set (st0 := saveAuto x) in * end.
      simpl in Ht0. cbn [getDepth] in Hl, Hr'.
      apply IH in Hl. apply IH in Hr'.
      cbn [splits_of length]. rewrite length_app. lia.
    + apply make_leaf_Ok in Hg as (e & i & l & _ & _ & _ & -> & ->).
      simpl. lia.
Qed.

(** X17: the constructor reads the tick counter once when training starts
    and then once, in [saveAuto], for every split it stores: with
    [0 <= max_depth <= 24], usable parameters and a recursion bound above
    [max_depth] it returns, and the number of readings has grown by one
    plus the number of splits of the tree. *)
Theorem constructor_checks_the_clock_once_per_split samples p rng path fuel w :
  0 <= max_depth p <= 24 → usable_param p → (Z.to_nat (max_depth p) < fuel)%nat →
  ∃ t w' r,
    construct samples p rng path fuel w = Ok (t, w')
    ∧ root t = Some r
    ∧ tick_reads w' = (tick_reads w + 1 + length (splits_of r))%nat.
Proof.
  intros Hd Hu Hfuel.
  destruct (construct_returns samples p rng path fuel w Hd Hu Hfuel) as [[t w'] Hc].
  destruct (construct_Ok _ _ _ _ _ _ _ _ Hc)
    as (st0 & n' & st1 & Hinit & Hg & -> & ->).
  assert (Ht0 : tick_reads st0.2 = S (tick_reads w)).
  { unfold construct_init in Hinit.
    apply bind_Ok in Hinit as (n & _ & Hinit).
    unfold getTickCount in Hinit. inversion Hinit. reflexivity. }
  pose proof (grow_shape _ _ _ _ _ _ _ Hg) as (_ & _ & _ & Hroot & _).
  apply grow_fresh_ticks in Hg.
  exists st1.1, (save st1.1 st1.2), n'.
  split; [exact Hc|]. split; [exact Hroot|].
  unfold save. destruct (decide _); cbn [tick_reads write_file]; lia.
Qed.

End TickReads.

Lemma constructor_checks_the_clock_once_per_split_witness :
  ∃ t w' r,
    @construct IntSamples.collaborators [0; 1; 2; 3] (IntSamples.param 1 1)
               0%nat "tree.txt" 3 IntSamples.world = Ok (t, w')
    ∧ root t = Some r
    ∧ tick_reads w' = (tick_reads IntSamples.world + 1 + length (splits_of r))%nat.
Proof.
  apply (@constructor_checks_the_clock_once_per_split IntSamples.collaborators
           [0; 1; 2; 3] (IntSamples.param 1 1) 0%nat
           "tree.txt" 3%nat IntSamples.world).
  - vm_compute. split; discriminate.
  - split; [vm_compute; discriminate|]. exists 100. by_evaluation.
  - vm_compute. lia.
Defined.

(** ** Checkpoints taken during growth *)

Section ResumableCheckpoints.
Context `{Collaborators}.

Lemma tree_ok_config p path t t' :
  same_config t t' → tree_ok p path t → tree_ok p path t'.
Proof.
  intros (H1 & H2 & H3) (Hp & Hs & Hn). unfold tree_ok. rewrite H1, H2, H3. auto.
Qed.

Lemma saveAuto_file_ok p path w0 t w r :
  tree_ok p path t → root t = Some r → wf_node 0 r →
  file_ok p path w0 w → file_ok p path w0 (saveAuto (t, w)).2.
Proof.
  intros (Hp & Hs & Hn) Hr Hwf Hok. unfold saveAuto, getTickCount.
  cbn [fst snd tick_frequency].
  destruct (SFltb _ _); cbn [snd]; [|exact Hok].
  unfold save. destruct (decide _) as [|Hl]; [exact Hok|].
  right. eexists. split.
  - cbn [files write_file m_save_path set_m_ticks]. rewrite Hs.
    apply lookup_insert_eq.
  - eexists _, r. split; [reflexivity|]. simpl. auto.
Qed.

Lemma ctx_ok_left d ctx s r :
  ctx_ok d ctx → wf_node (d + 1) r → ctx_ok (d + 1) (λ x, ctx (Internal d s x r)).
Proof. intros Hc Hr x Hx. apply Hc. simpl. auto. Qed.

Lemma ctx_ok_right d ctx s l :
  ctx_ok d ctx → wf_node (d + 1) l → ctx_ok (d + 1) (λ x, ctx (Internal d s l x)).
Proof. intros Hc Hl x Hx. apply Hc. simpl. auto. Qed.

Lemma assign_split_file_ok p path w0 ctx d best samples st sets st' :
  tree_ok p path st.1 → ctx_ok d ctx → file_ok p path w0 st.2 →
  assign_split ctx (Unresolved d) best samples st = Ok (sets, st') →
  file_ok p path w0 st'.2 ∧ tree_ok p path st'.1.
Proof.
  intros Ht Hc Hok Ha. apply assign_split_Ok in Ha as (_ & -> & _).
  match goal with |- context [saveAuto ?x] =>
    destruct (saveAuto_fields x) as (_ & _ & _ & _ & Hcfg) end.
  split.
  - apply (saveAuto_file_ok p path w0 _ _
             (ctx (setSplit_with_children (Unresolved d) best)));
      [exact Ht | reflexivity | | exact Hok].
    apply Hc. simpl. auto.
  - eapply tree_ok_config; [exact Hcfg|]. exact Ht.
Qed.

(** Growth leaves at the save path what was there or a resumable snapshot. *)
Lemma grow_file_ok p path w0 fuel : ∀ ctx node d samples st n' st',
  tree_ok p path st.1 → ctx_ok d ctx → wf_node d node →
  file_ok p path w0 st.2 →
  grow fuel ctx node samples st = Ok (n', st') →
  file_ok p path w0 st'.2.
Proof.
  induction fuel as [|fuel IH]; intros ctx node d samples st n' st' Ht Hc Hwf Hok Hg;
    [discriminate|].
  destruct (must_stop (m_param st.1) node samples) eqn:Hs.
  - rewrite grow_stop in Hg by assumption.
    apply make_leaf_Ok in Hg as (e & i & l & _ & _ & _ & _ & ->). exact Hok.
  - destruct (hasSplit node) eqn:Hn.
    + destruct node as [d0|d0 lf|d0 s l r]; try discriminate.
      simpl in Hwf. destruct Hwf as (-> & Hwl & Hwr).
      rewrite grow_resume in Hg by assumption.
      apply bind_Ok in Hg as ([sets t] & Hr & Hg).
      apply bind_Ok in Hg as ([l' st1] & Hl & Hg).
      apply bind_Ok in Hg as ([r' st2] & Hr' & Hg).
      inversion Hg; subst n' st2. apply resume_split_Ok in Hr as (_ & -> & _).
      pose proof (grow_config _ _ _ _ _ _ _ Hl) as Hcfg.
      pose proof (grow_shape _ _ _ _ _ _ _ Hl) as (_ & _ & _ & _ & _ & Hwl').
      specialize (Hwl' (d + 1) Hwl).
      assert (Hok1 : file_ok p path w0 st1.2).
      { refine (IH _ l (d + 1) _ _ _ _ _ _ Hwl _ Hl);
          [exact Ht | now apply ctx_ok_left | exact Hok]. }
      refine (IH _ r (d + 1) _ _ _ _ _ _ Hwr Hok1 Hr').
      * eapply tree_ok_config; [exact Hcfg|]. exact Ht.
      * now apply ctx_ok_right.
    + assert (Hun : node = Unresolved d).
      { apply must_stop_false in Hs as (Hleaf & _).
        destruct node; simpl in *; try discriminate. now subst. }
      subst node. rewrite grow_search in Hg by assumption.
      apply bind_Ok in Hg as ([[found best] t] & Hf & Hg).
      apply findOptimalSplit_frame in Hf as [g ->].
      destruct found.
      * apply bind_Ok in Hg as ([sets st0] & Ha & Hg).
        apply bind_Ok in Hg as ([l' st1] & Hl & Hg).
        apply bind_Ok in Hg as ([r' st2] & Hr' & Hg).
        inversion Hg; subst n' st2. cbn [getDepth] in *.
        destruct (assign_split_file_ok p path w0 _ _ _ _ (set_m_rng g st.1, st.2)
                    _ _ Ht Hc Hok Ha) as (Hok0 & Ht0).
        pose proof (grow_config _ _ _ _ _ _ _ Hl) as Hcfg.
        pose proof (grow_shape _ _ _ _ _ _ _ Hl) as (_ & _ & _ & _ & _ & Hwl').
        specialize (Hwl' (d + 1) eq_refl).
        assert (Hok1 : file_ok p path w0 st1.2).
        { refine (IH _ (Unresolved (d + 1)) (d + 1) _ _ _ _ _ _ eq_refl _ Hl);
            [exact Ht0 | now apply ctx_ok_left | exact Hok0]. }
        refine (IH _ (Unresolved (d + 1)) (d + 1) _ _ _ _ _ _ eq_refl Hok1 Hr').
        -- eapply tree_ok_config; [exact Hcfg|]. exact Ht0.
        -- now apply ctx_ok_right.
      * apply make_leaf_Ok in Hg as (e & i & l & _ & _ & _ & _ & ->). exact Hok.
Qed.

(** So does every state that a call of [grow] passes through. *)
Lemma grow_visits_file_ok p path w0 fuel ctx node samples st st_mid :
  grow_visits fuel ctx node samples st st_mid →
  ∀ d, tree_ok p path st.1 → ctx_ok d ctx → wf_node d node →
       file_ok p path w0 st.2 → file_ok p path w0 st_mid.2.
Proof.
  induction 1 as
    [ fuel ctx node samples st
    | fuel ctx node samples st n' st' Hg
    | fuel ctx d0 s l r samples st sets t st_mid Hs Hr Hv IH
    | fuel ctx d0 s l r samples st sets t l' st1 st_mid Hs Hr Hgl Hv IH
    | fuel ctx node samples st best t sets st0 st_mid Hs Hn Hf Ha Hv IH
    | fuel ctx node samples st best t sets st0 l' st1 st_mid Hs Hn Hf Ha Hgl Hv IH ];
    intros d Ht Hc Hwf Hok.
  - exact Hok.
  - eapply grow_file_ok; eassumption.
  - simpl in Hwf. destruct Hwf as (-> & Hwl & Hwr).
    apply resume_split_Ok in Hr as (_ & -> & _).
    apply (IH (d + 1)); [exact Ht | now apply ctx_ok_left | exact Hwl | exact Hok].
  - simpl in Hwf. destruct Hwf as (-> & Hwl & Hwr).
    apply resume_split_Ok in Hr as (_ & -> & _).
    pose proof (grow_config _ _ _ _ _ _ _ Hgl) as Hcfg.
    pose proof (grow_shape _ _ _ _ _ _ _ Hgl) as (_ & _ & _ & _ & _ & Hwl').
    specialize (Hwl' (d + 1) Hwl).
    apply (IH (d + 1)); [| now apply ctx_ok_right | exact Hwr |].
    + eapply tree_ok_config; [exact Hcfg|]. exact Ht.
    + refine (grow_file_ok p path w0 _ _ l (d + 1) _ _ _ _ _ _ Hwl _ Hgl);
        [exact Ht | now apply ctx_ok_left | exact Hok].
  - assert (Hun : node = Unresolved d).
    { apply must_stop_false in Hs as (Hleaf & _).
      destruct node; simpl in *; try discriminate. now subst. }
    subst node. cbn [getDepth] in *.
    apply findOptimalSplit_frame in Hf as [g ->].
    destruct (assign_split_file_ok p path w0 _ _ _ _ (set_m_rng g st.1, st.2) _ _
                Ht Hc Hok Ha) as (Hok0 & Ht0).
    apply (IH (d + 1)); [exact Ht0 | now apply ctx_ok_left | reflexivity | exact Hok0].
  - assert (Hun : node = Unresolved d).
    { apply must_stop_false in Hs as (Hleaf & _).
      destruct node; simpl in *; try discriminate. now subst. }
    subst node. cbn [getDepth] in *.
    apply findOptimalSplit_frame in Hf as [g ->].
    destruct (assign_split_file_ok p path w0 _ _ _ _ (set_m_rng g st.1, st.2) _ _
                Ht Hc Hok Ha) as (Hok0 & Ht0).
    pose proof (grow_config _ _ _ _ _ _ _ Hgl) as Hcfg.
    pose proof (grow_shape _ _ _ _ _ _ _ Hgl) as (_ & _ & _ & _ & _ & Hwl').
    specialize (Hwl' (d + 1) eq_refl).
    apply (IH (d + 1)); [| now apply ctx_ok_right | reflexivity |].
    + eapply tree_ok_config; [exact Hcfg|]. exact Ht0.
    + refine (grow_file_ok p path w0 _ _ (Unresolved (d + 1)) (d + 1)
                _ _ _ _ _ _ eq_refl _ Hgl);
        [exact Ht0 | now apply ctx_ok_left | exact Hok0].
Qed.

End ResumableCheckpoints.

Section ResumeFromCheckpoint.
Context `{Collaborators} `{!LeafArchiveContract}.

(** A resumable snapshot loads, and [update] of the loaded tree returns a
    finished tree: regrown when the snapshot did not report finished, as
    it is when the snapshot did. *)
Lemma resumable_snapshot_completes p path c w fresh samples rng fuel :
  1 <= max_depth p <= 24 → usable_param p → (Z.to_nat (max_depth p) < fuel)%nat →
  resumable p path c → files w !! path = Some c →
  ∃ t r st',
    load fresh path w = Ok (true, Some t)
    ∧ root t = Some r ∧ wf_node 0 r
    ∧ update samples rng fuel (t, w) = Ok st'
    ∧ isFinished st'.1 = true
    ∧ (isFinished t = false →
       ∃ r', root st'.1 = Some r' ∧ refines r r' ∧ resolved r' = true)
    ∧ (isFinished t = true → root st'.1 = Some r).
Proof.
  intros Hd Hu Hfuel (t0 & r & -> & Hp & Hs & Hn & Hr & Hwf) Hf.
  exists (snapshot_of fresh t0), r.
  assert (Hload : load fresh path w = Ok (true, Some (snapshot_of fresh t0))).
  { rewrite <- Hs. apply load_written. now rewrite Hs. }
  destruct (isFinished (snapshot_of fresh t0)) eqn:Hfin.
  - exists (set_m_rng rng (snapshot_of fresh t0), w).
    split; [exact Hload|]. split; [exact Hr|]. split; [exact Hwf|].
    split; [now apply (update_finished samples rng fuel (snapshot_of fresh t0, w))|].
    split; [exact Hfin|]. split; [discriminate|]. intros _. exact Hr.
  - destruct (update_regrows samples rng fuel (snapshot_of fresh t0, w) r)
      as (st' & r' & Hup & Hr' & Href & Hres & _ & Hfin' & _);
      cbn [fst snd snapshot_of m_param m_num_nodes root]; rewrite ?Hp;
      try assumption.
    exists st'. split; [exact Hload|]. split; [exact Hr|]. split; [exact Hwf|].
    split; [exact Hup|]. split; [exact Hfin'|]. split; [eauto|discriminate].
Qed.

(** X19: every state of the file at the save path that the growth started
    by the constructor passes through is either the file as it was before
    the constructor ran, or a checkpoint that [load] reads back as a tree
    with a well-shaped graph and on which [update], with any batch and
    generator and a recursion bound above [max_depth], returns a tree
    that reports finished. When the checkpoint did not itself report
    finished, [update] has regrown it: the graph has no unresolved node
    left and keeps the splits of the checkpoint. When the checkpoint
    already reported finished, [update] leaves its graph as it is. *)
Theorem constructor_checkpoints_are_resumable
    samples p rng path fuel w st0 st_mid :
  1 <= max_depth p <= 24 → usable_param p →
  construct_init p rng path w = Ok st0 →
  grow_visits fuel id (Unresolved 0) samples st0 st_mid →
  files st_mid.2 !! path = files w !! path
  ∨ ∀ fresh samples' rng' fuel',
      (Z.to_nat (max_depth p) < fuel')%nat →
      ∃ t r st',
        load fresh path st_mid.2 = Ok (true, Some t)
        ∧ root t = Some r ∧ wf_node 0 r
        ∧ update samples' rng' fuel' (t, st_mid.2) = Ok st'
        ∧ isFinished st'.1 = true
        ∧ (isFinished t = false →
           ∃ r', root st'.1 = Some r' ∧ refines r r' ∧ resolved r' = true)
        ∧ (isFinished t = true → root st'.1 = Some r).
Proof.
  intros Hd Hu Hinit Hv.
  assert (Hfiles : files st0.2 = files w).
  { unfold construct_init in Hinit.
    apply bind_Ok in Hinit as (n & _ & Hinit).
    unfold getTickCount in Hinit. inversion Hinit. reflexivity. }
  apply construct_init_Ok in Hinit as (Hn & Hp & Hs & _ & _ & _).
  rewrite int_of_float_pow2m1 in Hn by lia. inversion Hn as [Hn'].
  destruct (grow_visits_file_ok p path w _ _ _ _ _ _ Hv 0) as [Hsame|(c & Hc & Hres)].
  - repeat split; auto.
  - intros x Hx. exact Hx.
  - reflexivity.
  - left. now rewrite Hfiles.
  - left. exact Hsame.
  - right. intros fresh samples' rng' fuel' Hfuel.
    now apply (resumable_snapshot_completes p path c).
Qed.

End ResumeFromCheckpoint.

Lemma constructor_checkpoints_are_resumable_witness :
  files (@mkTree IntSamples.collaborators 2%nat (f64_of_int 2000000) 3 1 0
                 (IntSamples.param 2 1) "tree.txt"
                 (Some (Internal 0 IntSamples.stored_split
                          (Unresolved 1) (Unresolved 1))),
         save (@mkTree IntSamples.collaborators 2%nat (f64_of_int 2000000) 3 1 0
                       (IntSamples.param 2 1) "tree.txt"
                       (Some (Internal 0 IntSamples.stored_split
                                (Unresolved 1) (Unresolved 1))))
              (getTickCount (getTickCount late_world).2).2).2 !! "tree.txt"
  = files late_world !! "tree.txt"
  ∨ ∀ fresh samples' rng' fuel',
      (Z.to_nat (max_depth (IntSamples.param 2 1)) < fuel')%nat →
      ∃ t r st',
        load fresh "tree.txt"
          (@mkTree IntSamples.collaborators 2%nat (f64_of_int 2000000) 3 1 0
                   (IntSamples.param 2 1) "tree.txt"
                   (Some (Internal 0 IntSamples.stored_split
                            (Unresolved 1) (Unresolved 1))),
           save (@mkTree IntSamples.collaborators 2%nat (f64_of_int 2000000) 3 1 0
                         (IntSamples.param 2 1) "tree.txt"
                         (Some (Internal 0 IntSamples.stored_split
                                  (Unresolved 1) (Unresolved 1))))
                (getTickCount (getTickCount late_world).2).2).2
        = Ok (true, Some t)
        ∧ root t = Some r ∧ wf_node 0 r
        ∧ update samples' rng' fuel'
            (t, (@mkTree IntSamples.collaborators 2%nat (f64_of_int 2000000) 3 1 0
                         (IntSamples.param 2 1) "tree.txt"
                         (Some (Internal 0 IntSamples.stored_split
                                  (Unresolved 1) (Unresolved 1))),
                 save (@mkTree IntSamples.collaborators 2%nat (f64_of_int 2000000)
                               3 1 0 (IntSamples.param 2 1) "tree.txt"
                               (Some (Internal 0 IntSamples.stored_split
                                        (Unresolved 1) (Unresolved 1))))
                      (getTickCount (getTickCount late_world).2).2).2)
          = Ok st'
        ∧ isFinished st'.1 = true
        ∧ (isFinished t = false →
           ∃ r', root st'.1 = Some r' ∧ refines r r' ∧ resolved r' = true)
        ∧ (isFinished t = true → root st'.1 = Some r).
Proof.
  apply (@constructor_checkpoints_are_resumable IntSamples.collaborators
           int_samples_archive [0; 1; 2; 3] (IntSamples.param 2 1) 0%nat
           "tree.txt" 3%nat late_world
           (@mkTree IntSamples.collaborators 0%nat (f64_of_int 1000000) 3 0 0
                    (IntSamples.param 2 1) "tree.txt" (Some (Unresolved 0)),
            (getTickCount late_world).2)).
  - vm_compute. split; discriminate.
  - split; [vm_compute; discriminate|]. exists 100. by_evaluation.
  - by_evaluation.
  - apply (@visit_fresh_left IntSamples.collaborators 2%nat id (Unresolved 0)
             [0; 1; 2; 3] _ IntSamples.stored_split
             (@mkTree IntSamples.collaborators 2%nat (f64_of_int 1000000) 3 0 0
                      (IntSamples.param 2 1) "tree.txt" (Some (Unresolved 0)))
             (([0; 1], [2; 3]) : list (@Sample IntSamples.collaborators)
                                 * list (@Sample IntSamples.collaborators))
             (@mkTree IntSamples.collaborators 2%nat (f64_of_int 2000000) 3 1 0
                      (IntSamples.param 2 1) "tree.txt"
                      (Some (Internal 0 IntSamples.stored_split
                               (Unresolved 1) (Unresolved 1))),
              save (@mkTree IntSamples.collaborators 2%nat (f64_of_int 2000000)
                            3 1 0 (IntSamples.param 2 1) "tree.txt"
                            (Some (Internal 0 IntSamples.stored_split
                                     (Unresolved 1) (Unresolved 1))))
                   (getTickCount (getTickCount late_world).2).2)).
    + by_evaluation.
    + reflexivity.
    + by_evaluation.
    + by_evaluation.
    + apply visit_entry.
Defined.

(** In that run the checkpoint was taken: the file holds the tree with the
    root split and two unresolved children. *)
Lemma checkpoint_written_after_first_split :
  files (save (@mkTree IntSamples.collaborators 2%nat (f64_of_int 2000000) 1 1 0
                       (IntSamples.param 1 1) "tree.txt"
                       (Some (Internal 0 IntSamples.stored_split
                                (Unresolved 1) (Unresolved 1))))
              (getTickCount (getTickCount late_world).2).2) !! "tree.txt"
  = Some (serialize_out
            (@mkTree IntSamples.collaborators 2%nat (f64_of_int 2000000) 1 1 0
                     (IntSamples.param 1 1) "tree.txt"
                     (Some (Internal 0 IntSamples.stored_split
                              (Unresolved 1) (Unresolved 1))))).
Proof.
  apply (@save_writes IntSamples.collaborators). simpl. apply not_elem_of_empty.
Qed.

(** ** A checkpoint taken when the budget is reached *)

Section FinishedCheckpoint.
Context `{Collaborators} `{!LeafArchiveContract} `{!NodeTest}.

Lemma saveAuto_due_loads (st : Tree * World) fresh :
  checkpoint_due st = true → m_save_path st.1 ∉ locked st.2 →
  load fresh (m_save_path st.1) (saveAuto st).2
  = Ok (true, Some (snapshot_of fresh st.1)).
Proof.
  unfold checkpoint_due, saveAuto, getTickCount. cbn [fst snd tick_frequency].
  intros -> Hl. cbn [snd].
  match goal with |- context [save ?t ?w] =>
    exact (load_written fresh t (save t w) (save_writes t w Hl)) end.
Qed.

(** X23: a checkpoint that [grow] writes right after the split that
    brings [i_node] up to the budget [m_num_nodes] is read back by [load]
    as a tree that reports finished, although the two children of the
    node just split are still unresolved. [update] on that tree returns
    without growing anything, whatever the batch, and [evaluateMT] on the
    node just split fails for every sample. *)
Theorem checkpoint_at_budget_loads_as_finished
    ctx node best samples (st : Tree * World) sets st' :
  assign_split ctx node best samples st = Ok (sets, st') →
  checkpoint_due st = true →
  m_save_path st.1 ∉ locked st.2 →
  m_num_nodes st.1 = i_node st.1 + 1 → m_num_nodes st.1 ≠ 0 →
  ∀ fresh, ∃ t,
    load fresh (m_save_path st.1) st'.2 = Ok (true, Some t)
    ∧ root t = Some (ctx (Internal (getDepth node) best
                            (Unresolved (getDepth node + 1))
                            (Unresolved (getDepth node + 1))))
    ∧ isFinished t = true
    ∧ (∀ samples' rng' fuel' w',
         ∃ t', update samples' rng' fuel' (t, w') = Ok (t', w')
               ∧ root t' = root t)
    ∧ (∀ sample,
         evaluateMT sample (Internal (getDepth node) best
                              (Unresolved (getDepth node + 1))
                              (Unresolved (getDepth node + 1))) = Fault).
Proof.
  intros Ha Hdue Hl Hn Hn0 fresh.
  apply assign_split_Ok in Ha as (_ & -> & _).
  set (t1 := set_root _ _).
  exists (snapshot_of fresh t1).
  assert (Hfin : isFinished (snapshot_of fresh t1) = true).
  { unfold isFinished, snapshot_of, t1. cbn.
    destruct (Z.eqb_spec (m_num_nodes st.1) 0); [contradiction|].
    apply Z.eqb_eq. lia. }
  split; [|split; [|split; [|split]]].
  - apply (saveAuto_due_loads (t1, st.2) fresh); [exact Hdue|exact Hl].
  - reflexivity.
  - exact Hfin.
  - intros samples' rng' fuel' w'. eexists. split.
    + now apply (update_finished samples' rng' fuel' (snapshot_of fresh t1, w')).
    + reflexivity.
  - intros sample. cbn [evaluateMT]. now destruct (eval sample best).
Qed.

End FinishedCheckpoint.

Lemma checkpoint_at_budget_loads_as_finished_witness :
  ∃ t,
    load IntSamples.reloaded_tree "tree.txt"
      (save (@mkTree IntSamples.collaborators 2%nat (f64_of_int 2000000) 1 1 0
                     (IntSamples.param 1 1) "tree.txt"
                     (Some (Internal 0 IntSamples.stored_split
                              (Unresolved 1) (Unresolved 1))))
            (getTickCount (getTickCount late_world).2).2)
    = Ok (true, Some t)
    ∧ root t = Some (Internal 0 IntSamples.stored_split
                       (Unresolved (0 + 1)) (Unresolved (0 + 1)))
    ∧ isFinished t = true
    ∧ (∀ samples' rng' fuel' w',
         ∃ t', update samples' rng' fuel' (t, w') = Ok (t', w')
               ∧ root t' = root t)
    ∧ (∀ sample,
         evaluateMT sample (Internal 0 IntSamples.stored_split
                              (Unresolved (0 + 1)) (Unresolved (0 + 1))) = Fault).
Proof.
  refine (@checkpoint_at_budget_loads_as_finished IntSamples.collaborators
           int_samples_archive int_samples_test id (Unresolved 0)
           IntSamples.stored_split [0; 1; 2; 3]
           (@mkTree IntSamples.collaborators 2%nat (f64_of_int 1000000) 1 0 0
                    (IntSamples.param 1 1) "tree.txt" (Some (Unresolved 0)),
            (getTickCount late_world).2)
           (([0; 1], [2; 3]) : list (@Sample IntSamples.collaborators)
                               * list (@Sample IntSamples.collaborators))
           (@mkTree IntSamples.collaborators 2%nat (f64_of_int 2000000) 1 1 0
                    (IntSamples.param 1 1) "tree.txt"
                    (Some (Internal 0 IntSamples.stored_split
                             (Unresolved 1) (Unresolved 1))),
            save (@mkTree IntSamples.collaborators 2%nat (f64_of_int 2000000) 1 1 0
                          (IntSamples.param 1 1) "tree.txt"
                          (Some (Internal 0 IntSamples.stored_split
                                   (Unresolved 1) (Unresolved 1))))
                 (getTickCount (getTickCount late_world).2).2)
           _ _ _ _ _ IntSamples.reloaded_tree).
  - by_evaluation.
  - by_evaluation.
  - simpl. apply not_elem_of_empty.
  - reflexivity.
  - discriminate.
Defined.

(** ** Cost of an evaluation *)

Section EvaluationCost.
Context `{Collaborators} `{!NodeTest}.

Lemma tests_made_height sample : ∀ n, (tests_made sample n < height n)%nat.
Proof.
  induction n as [d|d lf|d s l IHl r IHr]; cbn [tests_made height]; try lia.
  destruct (eval sample s); lia.
Qed.

(** X20: with [0 <= max_depth <= 24], usable parameters and a recursion
    bound above [max_depth], the constructor returns a tree on which
    [evaluateMT] makes at most [max_depth] node tests for any sample. *)
Theorem evaluation_makes_at_most_max_depth_tests samples p rng path fuel w :
  0 <= max_depth p <= 24 → usable_param p → (Z.to_nat (max_depth p) < fuel)%nat →
  ∃ t w' r,
    construct samples p rng path fuel w = Ok (t, w')
    ∧ root t = Some r
    ∧ ∀ sample, ∃ lf, evaluateMT sample r = Ok lf
                      ∧ (tests_made sample r <= Z.to_nat (max_depth p))%nat.
Proof.
  intros Hd Hu Hfuel.
  destruct (construct_returns samples p rng path fuel w Hd Hu Hfuel) as [[t w'] Hc].
  destruct (construct_Ok _ _ _ _ _ _ _ _ Hc)
    as (st0 & n' & st1 & Hinit & Hg & -> & ->).
  apply construct_init_Ok in Hinit as (_ & Hp & _).
  apply grow_shape in Hg as (Hres & _ & _ & Hroot & Hall & Hwf).
  specialize (Hwf 0 eq_refl). rewrite Hp in Hall.
  pose proof (height_bound (max_depth p) n' 0 Hwf Hall) as Hh.
  rewrite Z.sub_0_r in Hh.
  exists st1.1, (save st1.1 st1.2), n'.
  split; [exact Hc|]. split; [exact Hroot|].
  intros sample. destruct (evaluateMT_resolved sample n' Hres) as [lf He].
  exists lf. split; [exact He|].
  pose proof (tests_made_height sample n'). lia.
Qed.

End EvaluationCost.

Lemma evaluation_makes_at_most_max_depth_tests_witness :
  ∃ t w' r,
    @construct IntSamples.collaborators [0; 1; 2; 3] (IntSamples.param 1 1)
               0%nat "tree.txt" 3 IntSamples.world = Ok (t, w')
    ∧ root t = Some r
    ∧ ∀ sample, ∃ lf, evaluateMT sample r = Ok lf
                      ∧ (tests_made sample r
                         <= Z.to_nat (max_depth (IntSamples.param 1 1)))%nat.
Proof.
  apply (@evaluation_makes_at_most_max_depth_tests IntSamples.collaborators
           int_samples_test [0; 1; 2; 3] (IntSamples.param 1 1) 0%nat
           "tree.txt" 3%nat IntSamples.world).
  - vm_compute. split; discriminate.
  - split; [vm_compute; discriminate|]. exists 100. by_evaluation.
  - vm_compute. lia.
Defined.

(** ** A second pass over a grown graph *)

Section Regrowth.
Context `{Collaborators}.

Lemma must_stop_same_depth p n1 n2 samples :
  getDepth n1 = getDepth n2 → isLeaf n1 = isLeaf n2 →
  must_stop p n1 samples = must_stop p n2 samples.
Proof. intros Hd Hl. unfold must_stop. now rewrite Hd, Hl. Qed.

(** Two passes with the same batch and parameters give the same graph. *)
Lemma regrow_same fuel ctx node samples (st : Tree * World)
    n' st' fuel2 ctx2 (st2 : Tree * World) n'' st2' :
  grow fuel ctx node samples st = Ok (n', st') →
  m_param st2.1 = m_param st.1 →
  grow fuel2 ctx2 n' samples st2 = Ok (n'', st2') →
  n'' = n'.
Proof.
  revert ctx node samples st n' st' fuel2 ctx2 st2 n'' st2'.
  induction fuel as [|fuel IH]; intros ctx node samples st n' st'
    fuel2 ctx2 st2 n'' st2' Hg Hp Hg2; [discriminate|].
  destruct fuel2 as [|fuel2]; [discriminate|].
  assert (Hleaf : ∀ pl, n' = LeafNode (getDepth node) pl →
                        pl = makeLeaf samples → n'' = n').
  { intros pl -> ->. rewrite grow_stop in Hg2.
    - apply make_leaf_Ok in Hg2 as (_ & _ & _ & _ & _ & _ & -> & _). reflexivity.
    - unfold must_stop. simpl. now rewrite orb_true_r. }
  destruct (must_stop (m_param st.1) node samples) eqn:Hs.
  - rewrite grow_stop in Hg by assumption.
    apply make_leaf_Ok in Hg as (_ & _ & _ & _ & _ & _ & -> & _).
    now apply (Hleaf (makeLeaf samples)).
  - destruct (hasSplit node) eqn:Hn.
    + destruct node as [d0|d0 lf|d0 s l r]; try discriminate.
      rewrite grow_resume in Hg by assumption.
      apply bind_Ok in Hg as ([sets t] & Hr & Hg).
      apply bind_Ok in Hg as ([l' st1] & Hl & Hg).
      apply bind_Ok in Hg as ([r' st2a] & Hr' & Hg).
      inversion Hg; subst n' st2a. apply resume_split_Ok in Hr as (-> & -> & _).
      pose proof (grow_config _ _ _ _ _ _ _ Hl) as (_ & Hp1 & _). simpl in Hp1.
      rewrite grow_resume in Hg2
        by (rewrite Hp, <- Hs; now apply must_stop_same_depth).
      apply bind_Ok in Hg2 as ([sets2 t2] & Hr2 & Hg2).
      apply bind_Ok in Hg2 as ([l'' st3] & Hl2 & Hg2).
      apply bind_Ok in Hg2 as ([r'' st4] & Hr2' & Hg2).
      inversion Hg2; subst n'' st4. apply resume_split_Ok in Hr2 as (-> & -> & _).
      pose proof (grow_config _ _ _ _ _ _ _ Hl2) as (_ & Hp3 & _). simpl in Hp3.
      assert (El : l'' = l')
        by (eapply (IH _ _ _ _ _ _ _ _ _ _ _ Hl); [|exact Hl2]; simpl; congruence).
      subst l''.
      assert (Er : r'' = r')
        by (eapply (IH _ _ _ _ _ _ _ _ _ _ _ Hr'); [|exact Hr2']; simpl; congruence).
      subst r''. reflexivity.
    + assert (Hun : node = Unresolved (getDepth node)).
      { apply must_stop_false in Hs as (Hlf & _).
        destruct node; simpl in *; try discriminate. reflexivity. }
      rewrite grow_search in Hg by assumption.
      apply bind_Ok in Hg as ([[found best] t] & Hf & Hg).
      apply findOptimalSplit_frame in Hf as [g ->].
      destruct found.
      * apply bind_Ok in Hg as ([sets st0] & Ha & Hg).
        apply bind_Ok in Hg as ([l' st1] & Hl & Hg).
        apply bind_Ok in Hg as ([r' st2a] & Hr' & Hg).
        inversion Hg; subst n' st2a. apply assign_split_Ok in Ha as (-> & -> & _).
        match type of Hl with context [saveAuto ?x] =>
          destruct (saveAuto_fields x) as (_ & _ & _ & _ & (_ & Hs3 & _));
          set (st0 := saveAuto x) in * end.
        simpl in Hs3.
        pose proof (grow_config _ _ _ _ _ _ _ Hl) as (_ & Hp1 & _).
        rewrite grow_resume in Hg2.
        2:{ rewrite Hp, <- Hs. apply must_stop_same_depth; [reflexivity|].
            rewrite Hun. reflexivity. }
        apply bind_Ok in Hg2 as ([sets2 t2] & Hr2 & Hg2).
        apply bind_Ok in Hg2 as ([l'' st3] & Hl2 & Hg2).
        apply bind_Ok in Hg2 as ([r'' st4] & Hr2' & Hg2).
        inversion Hg2; subst n'' st4. apply resume_split_Ok in Hr2 as (-> & -> & _).
        pose proof (grow_config _ _ _ _ _ _ _ Hl2) as (_ & Hp3 & _). simpl in Hp3.
        assert (El : l'' = l')
          by (eapply (IH _ _ _ _ _ _ _ _ _ _ _ Hl); [|exact Hl2]; simpl; congruence).
        subst l''.
        assert (Er : r'' = r')
          by (eapply (IH _ _ _ _ _ _ _ _ _ _ _ Hr'); [|exact Hr2']; simpl; congruence).
        subst r''. reflexivity.
      * apply make_leaf_Ok in Hg as (_ & _ & _ & _ & _ & _ & -> & _).
        now apply (Hleaf (makeLeaf samples)).
Qed.


(** A pass over a graph without unresolved nodes searches no split; it
    returns when the counters stay in the exact range of their
    arithmetic. *)
Lemma regrow_returns fuel : ∀ ctx node d D samples (st : Tree * World),
  resolved node = true → wf_node d node →
  max_depth (m_param st.1) = D →
  d <= D <= d + 24 →
  0 <= i_node st.1 →
  i_node st.1 + 2 ^ (D - d) - 1 < 2 ^ 24 →
  0 <= i_leaf st.1 →
  i_leaf st.1 + 2 ^ (D - d) <= INT_MAX →
  (Z.to_nat (D - d) < fuel)%nat →
  ∃ n' st', grow fuel ctx node samples st = Ok (n', st').
Proof.
  induction fuel as [|fuel IH];
    intros ctx node d D samples st Hres Hwf HD Hd Hi Hb Hl Hlb Hfuel; [lia|].
  assert (Hdepth : getDepth node = d) by (destruct node; simpl in *; tauto).
  assert (Hpow : 1 <= 2 ^ (D - d) <= 2 ^ 24) by (apply pow2_bounds; lia).
  destruct (must_stop (m_param st.1) node samples) eqn:Hs.
  - rewrite grow_stop by assumption.
    destruct (make_leaf_returns ctx node samples st (D - d)) as [st' Hm];
      rewrite ?Hdepth, ?HD; unfold INT_MIN, INT_MAX in *; try lia.
    eauto.
  - assert (Hlt : d < D).
    { destruct (Z_lt_ge_dec d D) as [|Hge]; [assumption|].
      rewrite must_stop_at_depth in Hs by (rewrite Hdepth, HD; lia).
      discriminate. }
    assert (Hhalf : 2 ^ (D - d) = 2 * 2 ^ (D - (d + 1))).
    { replace (D - d) with (D - (d + 1) + 1) by lia. apply pow2_step. lia. }
    assert (Hpow' : 1 <= 2 ^ (D - (d + 1)) <= 2 ^ 24) by (apply pow2_bounds; lia).
    apply must_stop_false in Hs as Hs'. destruct Hs' as (Hleaf & _ & _).
    destruct node as [d0|d0 lf|d0 s l r]; try discriminate.
    simpl in Hwf. destruct Hwf as (-> & Hwl & Hwr).
    cbn [resolved] in Hres. apply andb_true_iff in Hres as [Hrl Hrr].
    rewrite grow_resume by assumption.
    unfold resume_split.
    rewrite (int_check_in_range (i_node st.1 + 1))
      by (unfold INT_MIN, INT_MAX; lia). simpl.
    destruct (IH (λ x, ctx (Internal d s x r)) l (d + 1) D
                (applyOptimalSplit samples s).1
                (set_i_node (i_node st.1 + 1) st.1, st.2))
      as (l' & st1 & Hgl); simpl; unfold INT_MAX in *; try assumption; try lia.
    pose proof (grow_config _ _ _ _ _ _ _ Hgl) as (_ & Hp1 & _). simpl in Hp1.
    destruct (grow_counters fuel (λ x, ctx (Internal d s x r)) l (d + 1) D
                (applyOptimalSplit samples s).1
                (set_i_node (i_node st.1 + 1) st.1, st.2) l' st1 Hwl HD
                ltac:(lia) ltac:(simpl; lia) ltac:(simpl; lia) Hgl)
      as (Hl1 & Hl2 & Hl3 & _). simpl in Hl1, Hl2.
    destruct (IH (λ x, ctx (Internal d s l' x)) r (d + 1) D
                (applyOptimalSplit samples s).2 st1)
      as (r' & st2 & Hgr); rewrite ?Hp1; unfold INT_MAX in *;
      try assumption; try lia.
    rewrite Hgl. simpl. rewrite Hgr. simpl. eauto.
Qed.

(** X21: a second pass reproduces the graph. When [grow] has returned a
    graph for a batch of samples, a later call of [grow] on that graph
    with the same batch and the same parameters returns, and returns the
    very same graph: same splits, same leaves, same payloads. The later
    call may start from any generator and environment; its counters must
    leave room for the budget of the subtree ([0 <= i_node],
    [i_node + 2^(max_depth - d) - 1 < 2^24], and the same room for
    [i_leaf] below [INT_MAX]), [max_depth - d] must lie in [0, 24], and
    its recursion bound must be above [max_depth - d]. *)
Theorem regrowing_reproduces_the_graph fuel ctx node samples (st : Tree * World)
    n' st' d fuel2 ctx2 (st2 : Tree * World) :
  grow fuel ctx node samples st = Ok (n', st') →
  wf_node d node →
  m_param st2.1 = m_param st.1 →
  d <= max_depth (m_param st.1) <= d + 24 →
  0 <= i_node st2.1 →
  i_node st2.1 + 2 ^ (max_depth (m_param st.1) - d) - 1 < 2 ^ 24 →
  0 <= i_leaf st2.1 →
  i_leaf st2.1 + 2 ^ (max_depth (m_param st.1) - d) <= INT_MAX →
  (Z.to_nat (max_depth (m_param st.1) - d) < fuel2)%nat →
  ∃ st2', grow fuel2 ctx2 n' samples st2 = Ok (n', st2').
Proof.
  intros Hg Hwf Hp Hd Hi Hb Hl Hlb Hfuel.
  destruct (grow_shape _ _ _ _ _ _ _ Hg) as (Hres & _ & _ & _ & _ & Hwf').
  destruct (regrow_returns fuel2 ctx2 n' d (max_depth (m_param st.1)) samples st2)
    as (n'' & st2' & Hg2); rewrite ?Hp; auto.
  exists st2'. rewrite Hg2.
  now rewrite (regrow_same _ _ _ _ _ _ _ _ _ _ _ _ Hg Hp Hg2).
Qed.

End Regrowth.

Lemma regrowing_reproduces_the_graph_witness :
  @grow IntSamples.collaborators 3 id (Unresolved 0) [0; 1; 2; 3]
        (IntSamples.fresh_tree, IntSamples.world)
  = Ok (IntSamples.split_root,
        (@mkTree IntSamples.collaborators 2%nat (f64_of_int 0) 1 1 2
                 (IntSamples.param 1 1) "tree.txt" (Some IntSamples.split_root),
         (getTickCount IntSamples.world).2))
  ∧ ∃ st2',
      @grow IntSamples.collaborators 2 id IntSamples.split_root [0; 1; 2; 3]
            (@mkTree IntSamples.collaborators 7%nat (f64_of_int 0) 1 0 0
                     (IntSamples.param 1 1) "tree.txt"
                     (Some IntSamples.split_root),
             IntSamples.world)
      = Ok (IntSamples.split_root, st2').
Proof.
  split; [by_evaluation|].
  apply (@regrowing_reproduces_the_graph IntSamples.collaborators
           3%nat id (Unresolved 0) [0; 1; 2; 3]
           (IntSamples.fresh_tree, IntSamples.world)
           IntSamples.split_root
           (@mkTree IntSamples.collaborators 2%nat (f64_of_int 0) 1 1 2
                    (IntSamples.param 1 1) "tree.txt" (Some IntSamples.split_root),
            (getTickCount IntSamples.world).2)
           0 2%nat id
           (@mkTree IntSamples.collaborators 7%nat (f64_of_int 0) 1 0 0
                    (IntSamples.param 1 1) "tree.txt"
                    (Some IntSamples.split_root),
            IntSamples.world)).
  - by_evaluation.
  - reflexivity.
  - reflexivity.
  - vm_compute. split; discriminate.
  - vm_compute. discriminate.
  - vm_compute. reflexivity.
  - vm_compute. discriminate.
  - vm_compute. discriminate.
  - vm_compute. lia.
Defined.

(** ** Scores that are not numbers *)

Section NanScores.
Context `{Collaborators}.

Lemma SFltb_nan_r a : SFltb a S754_nan = false.
Proof. destruct a; reflexivity. Qed.

Lemma SFltb_true_not_nan a b : SFltb a b = true → is_nan b = false.
Proof. destruct b; [reflexivity | reflexivity | | reflexivity].
  rewrite SFltb_nan_r. discriminate. Qed.

Lemma better_not_nan best c :
  is_nan (info best) = false → is_nan (info (better best c)) = false.
Proof.
  intros Hb. unfold better. destruct (SFltb (info best) (info c)) eqn:E;
    [now apply SFltb_true_not_nan in E | exact Hb].
Qed.

Lemma select_best_skips_nan : ∀ splits best,
  is_nan (info best) = false →
  is_nan (info (select_best splits best)) = false
  ∧ select_best splits best
    = select_best (filter (λ c, is_nan (info c) = false) splits) best.
Proof.
  unfold select_best.
  induction splits as [|c splits IH]; intros best Hb; [auto|].
  rewrite filter_cons. cbn [fold_left].
  destruct (decide (is_nan (info c) = false)) as [Hc|Hc].
  - cbn [fold_left]. apply IH. now apply better_not_nan.
  - assert (Hn : info c = S754_nan) by (destruct (info c); simpl in Hc; congruence).
    assert (Hsame : better best c = best)
      by (unfold better; now rewrite Hn, SFltb_nan_r).
    rewrite Hsame. now apply IH.
Qed.

(** X22: a candidate whose score is not a number never wins and never
    changes the outcome: the split that [findOptimalSplit] hands back is
    the one it would hand back if those candidates had not been
    generated, and its own score is a number. *)
Theorem findOptimalSplit_skips_nan_scores samples b depth (t : Tree) found best t' :
  findOptimalSplit samples b depth t = Ok (found, best, t') →
  is_nan (info best) = false
  ∧ ∃ splits g,
      generate_candidates samples depth t = Ok (splits, g)
      ∧ best = select_best (filter (λ c, is_nan (info c) = false) splits)
                 (set_info_oob b lowest highest)
      ∧ found = negb (SFeqb (info best) lowest).
Proof.
  intros Hf. apply findOptimalSplit_Ok in Hf as (splits & g & Hg & -> & -> & _).
  destruct (select_best_skips_nan splits (set_info_oob b lowest highest) eq_refl)
    as (Hn & Heq).
  split; [exact Hn|]. exists splits, g.
  split; [exact Hg|]. split; [exact Heq | reflexivity].
Qed.

End NanScores.

Lemma findOptimalSplit_skips_nan_scores_witness :
  is_nan (info IntSamples.stored_split) = false
  ∧ ∃ splits g,
      generate_candidates [0; 1; 2; 3] 0 IntSamples.fresh_tree = Ok (splits, g)
      ∧ IntSamples.stored_split
        = select_best (filter (λ c, is_nan (info c) = false) splits)
            (set_info_oob default_split lowest highest)
      ∧ true = negb (SFeqb (info IntSamples.stored_split) lowest).
Proof.
  apply (@findOptimalSplit_skips_nan_scores IntSamples.collaborators
           [0; 1; 2; 3] default_split 0 IntSamples.fresh_tree true
           IntSamples.stored_split IntSamples.searched_tree).
  by_evaluation.
Defined.
